(** * Sudoku engine and game session: a shallow embedding

    The development follows the classes of the program.

    - [SudokuEngine] (grid validation, the backtracking solver, the
      generator of complete solutions and of puzzles) is embedded as pure
      functions over grids.  In-place mutation of a grid becomes state
      passing: every function that writes to a grid returns the grid it
      leaves behind.  Recursion that the source bounds only by the number
      of empty cells takes a fuel argument and returns [None] when the
      fuel runs out; the theorems show that the fuel the entry points pass
      is always enough.  [Math.random] is an oracle [rnd] indexed by the
      number of draws made so far; the theorems about the generator assume
      that every draw lies in its range, from 0 to less than 1.

    - [GameManager] (the session state machine) is embedded as functions
      from a manager state to a new state and an outcome, the outcome
      telling a returned value from a raised [TypeError].

    - The frequency control of the interstitial ads ([AdManager]) is
      embedded as functions on the two counters it keeps; the clock
      readings, the state of the ad and the outcome of showing it are
      arguments.

    A grid is a list of rows, a cell is [None] for [null] and [Some n] for
    the number [n].  Inside the engine every grid is 9x9 (it comes from
    [createEmptyGrid] or [cloneGrid]) and every index is a loop counter
    below 9, so the engine reads cells with the total lookup [cell]; the
    theorems about the engine assume a 9x9 grid.  Indices that come from a
    caller ([makeMove]) are integers and are looked up the way JavaScript
    does it: a missing row makes the access raise, a missing column yields
    [undefined]. *)

From Stdlib Require Import ZArith QArith Qround Lia Permutation.
From stdpp Require Import base tactics option numbers list.

Open Scope nat_scope.

(** ** Data model (types/game.ts) *)

(** [CellValue] is [1 | ... | 9 | null], [SudokuGrid] is [CellValue[][]]. *)
Abbreviation CellValue := (option nat).

Abbreviation SudokuGrid := (list (list (option nat))).

Record Position : Type := mkPosition { row : nat; col : nat }.

Inductive Difficulty : Type := easy | medium | hard.

Inductive GameState : Type := playing | paused | completed | menu.

Record ValidationResult : Type := mkValidationResult {
  isValid : bool;
  conflicts : list Position;
  isCompleted : bool
}.

#[global] Instance Position_eq_dec : EqDecision Position.
Proof. solve_decision. Defined.

#[global] Instance GameState_eq_dec : EqDecision GameState.
Proof. solve_decision. Defined.

(** ** SudokuEngine *)

Module SudokuEngine.

Definition GRID_SIZE : nat := 9.
Definition BOX_SIZE : nat := 3.

(** [grid[r][c]] for loop indices of the engine. *)
Definition cell (grid : SudokuGrid) (r c : nat) : CellValue :=
  match grid !! r with
  | Some cells => match cells !! c with Some v => v | None => None end
  | None => None
  end.

(** [grid[r][c] = v]. *)
Definition set_cell (grid : SudokuGrid) (r c : nat) (v : CellValue) : SudokuGrid :=
  alter (fun cells => <[c := v]> cells) r grid.

Definition createEmptyGrid : SudokuGrid :=
  replicate GRID_SIZE (replicate GRID_SIZE None).

(** [grid.map(row => [...row])]: the rows are copied, so the clone shares
    nothing with its source.  Grids of the model are values, which makes
    the clone equal to the source and later writes to either independent
    of the other. *)
Definition cloneGrid (grid : SudokuGrid) : SudokuGrid :=
  map (fun cells => cells ++ []) grid.

(** [grid[r][c] === num] for a number [num]. *)
Definition holds (grid : SudokuGrid) (r c : nat) (num : nat) : bool :=
  match cell grid r c with
  | Some m => m =? num
  | None => false
  end.

Definition isValidMove (grid : SudokuGrid) (row col : nat) (num : CellValue) : bool :=
  match num with
  | None => true
  | Some n =>
    if existsb (fun c => negb (c =? col) && holds grid row c n) (seq 0 GRID_SIZE)
    then false
    else if existsb (fun r => negb (r =? row) && holds grid r col n) (seq 0 GRID_SIZE)
    then false
    else
      let boxStartRow := row / BOX_SIZE * BOX_SIZE in
      let boxStartCol := col / BOX_SIZE * BOX_SIZE in
      if existsb (fun r =>
            existsb (fun c => (negb (r =? row) || negb (c =? col)) && holds grid r c n)
                    (seq boxStartCol BOX_SIZE))
           (seq boxStartRow BOX_SIZE)
      then false
      else true
  end.

(** The positions in the order of the nested [row]/[col] loops. *)
Definition getAllPositions : list Position :=
  flat_map (fun r => map (fun c => mkPosition r c) (seq 0 GRID_SIZE)) (seq 0 GRID_SIZE).

(** One iteration of the inner loop of [validateGrid]; the state is
    [(conflicts, filledCells)]. *)
Definition validate_step (grid : SudokuGrid) (st : list Position * nat) (p : Position)
  : list Position * nat :=
  match cell grid (row p) (col p) with
  | Some n =>
    if isValidMove grid (row p) (col p) (Some n)
    then (fst st, S (snd st))
    else (fst st ++ [p], S (snd st))
  | None => st
  end.

Definition validateGrid (grid : SudokuGrid) : ValidationResult :=
  let st := fold_left (validate_step grid) getAllPositions ([], 0) in
  {| isValid := Nat.eqb (length (fst st)) 0;
     conflicts := fst st;
     isCompleted := Nat.eqb (length (fst st)) 0 && Nat.eqb (snd st) (GRID_SIZE * GRID_SIZE) |}.

(** *** Solver *)

(** The first cell, in the order of the nested loops, that is [null]. *)
Definition firstEmpty (grid : SudokuGrid) : option Position :=
  find (fun p => bool_decide (cell grid (row p) (col p) = None)) getAllPositions.

(** The closing double loop of [solveRecursive]:
    [resultGrid[row][col] = workingGrid[row][col]] for every position. *)
Definition copyGrid (workingGrid resultGrid : SudokuGrid) : SudokuGrid :=
  fold_left (fun res p => set_cell res (row p) (col p) (cell workingGrid (row p) (col p)))
            getAllPositions resultGrid.

(** The candidates [num = 1 .. 9] in increasing order. *)
Definition candidates : list nat := seq 1 9.

(** The [for (num = 1; num <= 9; num++)] loop of [solveRecursive] at the
    empty cell [p], over the candidates still to try; [recurse] is the
    nested call.  The result is the boolean the enclosing call returns,
    with the two grids as it leaves them. *)
Fixpoint solveCandidates
    (recurse : SudokuGrid -> SudokuGrid -> option (bool * SudokuGrid * SudokuGrid))
    (p : Position) (nums : list nat) (workingGrid resultGrid : SudokuGrid)
  : option (bool * SudokuGrid * SudokuGrid) :=
  match nums with
  | [] => Some (false, workingGrid, resultGrid)
  | num :: nums' =>
    if isValidMove workingGrid (row p) (col p) (Some num) then
      match recurse (set_cell workingGrid (row p) (col p) (Some num)) resultGrid with
      | None => None
      | Some (true, w, res) => Some (true, w, set_cell res (row p) (col p) (Some num))
      | Some (false, w, res) =>
        solveCandidates recurse p nums' (set_cell w (row p) (col p) None) res
      end
    else solveCandidates recurse p nums' workingGrid resultGrid
  end.

(** [solveRecursive fuel workingGrid resultGrid] returns the boolean result
    together with the two grids as the call leaves them. *)
Fixpoint solveRecursive (fuel : nat) (workingGrid resultGrid : SudokuGrid)
  : option (bool * SudokuGrid * SudokuGrid) :=
  match fuel with
  | 0 => None
  | S fuel' =>
    match firstEmpty workingGrid with
    | Some p => solveCandidates (solveRecursive fuel') p candidates workingGrid resultGrid
    | None => Some (true, workingGrid, copyGrid workingGrid resultGrid)
    end
  end.

(** Each nested call fills one more empty cell, so 81 cells and the final
    call bound the depth of every search of the engine. *)
Definition search_fuel : nat := S (GRID_SIZE * GRID_SIZE).

(** [solvePuzzle grid] returns the result and the grid as the call leaves it. *)
Definition solvePuzzle (grid : SudokuGrid) : option (bool * SudokuGrid) :=
  match solveRecursive search_fuel (cloneGrid grid) grid with
  | Some (b, _, res) => Some (b, res)
  | None => None
  end.

(** The candidate loop of [findAllSolutions] at the empty cell [p]. *)
Fixpoint findCandidates
    (recurse : SudokuGrid -> list SudokuGrid -> option (SudokuGrid * list SudokuGrid))
    (p : Position) (nums : list nat) (grid : SudokuGrid) (solutions : list SudokuGrid)
  : option (SudokuGrid * list SudokuGrid) :=
  match nums with
  | [] => Some (grid, solutions)
  | num :: nums' =>
    if isValidMove grid (row p) (col p) (Some num) then
      match recurse (set_cell grid (row p) (col p) (Some num)) solutions with
      | None => None
      | Some (g, sols) => findCandidates recurse p nums' (set_cell g (row p) (col p) None) sols
      end
    else findCandidates recurse p nums' grid solutions
  end.

(** [findAllSolutions fuel grid solutions maxSolutions] returns the grid and
    the list of solutions as the call leaves them. *)
Fixpoint findAllSolutions (fuel : nat) (grid : SudokuGrid) (solutions : list SudokuGrid)
    (maxSolutions : nat) : option (SudokuGrid * list SudokuGrid) :=
  match fuel with
  | 0 => None
  | S fuel' =>
    if maxSolutions <=? length solutions then Some (grid, solutions)
    else
      match firstEmpty grid with
      | Some p =>
        findCandidates (fun g sols => findAllSolutions fuel' g sols maxSolutions)
                       p candidates grid solutions
      | None => Some (grid, solutions ++ [cloneGrid grid])
      end
  end.

(** The number of solutions the bounded search collects (the spec's
    [countSolutions(grid, limit)]). *)
Definition countSolutions (grid : SudokuGrid) (limit : nat) : option nat :=
  match findAllSolutions search_fuel (cloneGrid grid) [] limit with
  | Some (_, sols) => Some (length sols)
  | None => None
  end.

Definition hasUniqueSolution (grid : SudokuGrid) : option bool :=
  match findAllSolutions search_fuel (cloneGrid grid) [] 2 with
  | Some (_, sols) => Some (length sols =? 1)
  | None => None
  end.

(** *** Generator *)

Definition getCellsToRemove (difficulty : Difficulty) : nat :=
  match difficulty with
  | easy => 40
  | medium => 50
  | hard => 60
  end.

(** The prologue of [fillRemaining]: the cell the call works on, reached
    from [(row, col)] by wrapping to the next row and stepping over the
    diagonal boxes, or [None] when the call returns [true] at once. *)
Definition fillTarget (row col : nat) : option (nat * nat) :=
  let '(row, col) :=
    if (GRID_SIZE <=? col) && (row <? GRID_SIZE - 1) then (row + 1, 0) else (row, col) in
  if (GRID_SIZE <=? row) && (GRID_SIZE <=? col) then None
  else if row <? BOX_SIZE then
    Some (row, if col <? BOX_SIZE then BOX_SIZE else col)
  else if row <? GRID_SIZE - BOX_SIZE then
    Some (row, if col =? row / BOX_SIZE * BOX_SIZE then col + BOX_SIZE else col)
  else if col =? GRID_SIZE - BOX_SIZE then
    (if GRID_SIZE <=? row + 1 then None else Some (row + 1, 0))
  else Some (row, col).

(** The candidate loop of [fillRemaining] at the cell [(row, col)];
    [recurse] is the nested call [fillRemaining(grid, row, col + 1)]. *)
Fixpoint fillCandidates (recurse : SudokuGrid -> option (bool * SudokuGrid))
    (row col : nat) (nums : list nat) (grid : SudokuGrid) : option (bool * SudokuGrid) :=
  match nums with
  | [] => Some (false, grid)
  | num :: nums' =>
    if isValidMove grid row col (Some num) then
      match recurse (set_cell grid row col (Some num)) with
      | None => None
      | Some (true, g) => Some (true, g)
      | Some (false, g) => fillCandidates recurse row col nums' (set_cell g row col None)
      end
    else fillCandidates recurse row col nums' grid
  end.

(** [fillRemaining fuel grid row col] returns the boolean result and the
    grid as the call leaves it. *)
Fixpoint fillRemaining (fuel : nat) (grid : SudokuGrid) (row col : nat)
  : option (bool * SudokuGrid) :=
  match fuel with
  | 0 => None
  | S fuel' =>
    match fillTarget row col with
    | None => Some (true, grid)
    | Some (row, col) =>
      fillCandidates (fun g => fillRemaining fuel' g row (col + 1)) row col candidates grid
    end
  end.

(** [[a[i], a[j]] = [a[j], a[i]]] for indices inside the array. *)
Definition swap {A : Type} (l : list A) (i j : nat) : list A :=
  match l !! i, l !! j with
  | Some x, Some y => <[j := x]> (<[i := y]> l)
  | _, _ => l
  end.

Section Random.

(** [rnd k] is the value of the [k]-th call of [Math.random()]; functions
    that draw take the number of draws made so far and return the new one. *)
Variable rnd : nat -> Q.

(** [Math.floor(Math.random() * n)] at draw [k]. *)
Definition randomIndex (k n : nat) : nat :=
  Z.to_nat (Qfloor (rnd k * inject_Z (Z.of_nat n))).

(** The loop of [shuffleArray], from index [i] down to 1. *)
Fixpoint shuffle_from {A : Type} (i k : nat) (shuffled : list A) : list A * nat :=
  match i with
  | 0 => (shuffled, k)
  | S i' => shuffle_from i' (S k) (swap shuffled i (randomIndex k (i + 1)))
  end.

Definition shuffleArray {A : Type} (k : nat) (array : list A) : list A * nat :=
  shuffle_from (length array - 1) k array.

(** The offsets [(i, j)] of the cells of a box in the order of the loops of
    [fillBox]; the position in this list is the [index] of the source. *)
Definition boxOffsets : list (nat * nat) :=
  flat_map (fun i => map (fun j => (i, j)) (seq 0 BOX_SIZE)) (seq 0 BOX_SIZE).

Definition fillBox (k : nat) (grid : SudokuGrid) (row col : nat) : SudokuGrid * nat :=
  let '(numbers, k') := shuffleArray k (seq 1 9) in
  (fold_left (fun g '(index, (i, j)) => set_cell g (row + i) (col + j) (numbers !! index))
             (imap (fun index ij => (index, ij)) boxOffsets) grid,
   k').

Definition fillDiagonalBoxes (k : nat) (grid : SudokuGrid) : SudokuGrid * nat :=
  fold_left (fun '(g, k) box => fillBox k g box box) [0; 3; 6] (grid, k).

(** The result of [fillRemaining] is dropped, as in the source. *)
Definition generateCompleteSolution (k : nat) : option (SudokuGrid * nat) :=
  let '(grid, k') := fillDiagonalBoxes k createEmptyGrid in
  match fillRemaining search_fuel grid 0 BOX_SIZE with
  | Some (_, grid') => Some (grid', k')
  | None => None
  end.

(** The removal loop of [generatePuzzle] over the remaining shuffled
    positions; the state is the puzzle and the number of cells removed. *)
Fixpoint removeCells (cellsToRemove : nat) (positions : list Position)
    (puzzle : SudokuGrid) (removed : nat) : option (SudokuGrid * nat) :=
  match positions with
  | [] => Some (puzzle, removed)
  | pos :: positions' =>
    if cellsToRemove <=? removed then Some (puzzle, removed)
    else
      let backup := cell puzzle (row pos) (col pos) in
      let cleared := set_cell puzzle (row pos) (col pos) None in
      match hasUniqueSolution cleared with
      | None => None
      | Some true => removeCells cellsToRemove positions' cleared (S removed)
      | Some false =>
        removeCells cellsToRemove positions' (set_cell cleared (row pos) (col pos) backup) removed
      end
  end.

(** [generatePuzzle difficulty] returns [(puzzle, solution)]. *)
Definition generatePuzzle (k : nat) (difficulty : Difficulty)
  : option (SudokuGrid * SudokuGrid * nat) :=
  match generateCompleteSolution k with
  | None => None
  | Some (solution, k1) =>
    let puzzle := cloneGrid solution in
    let '(shuffledPositions, k2) := shuffleArray k1 getAllPositions in
    match removeCells (getCellsToRemove difficulty) shuffledPositions puzzle 0 with
    | None => None
    | Some (puzzle', _) => Some (puzzle', solution, k2)
    end
  end.

(** [getHint grid solution]: a random empty cell, [null] when none is left. *)
Definition getHint (k : nat) (grid solution : SudokuGrid) : option Position * nat :=
  let emptyCells :=
    filter (fun p => cell grid (row p) (col p) = None) getAllPositions in
  match emptyCells with
  | [] => (None, k)
  | _ => (emptyCells !! randomIndex k (length emptyCells), S k)
  end.

End Random.

End SudokuEngine.

(** ** GameManager *)

Module GameManager.

Import SudokuEngine.

Record Move : Type := mkMove {
  position : Position;
  previousValue : CellValue;
  newValue : CellValue;
  timestamp : Z
}.

(** The identifier is built from a clock reading and a random draw; the
    model keeps the two ingredients instead of the formatted string. *)
Record GameData : Type := mkGameData {
  id : Z * Q;
  grid : SudokuGrid;
  solution : SudokuGrid;
  originalGrid : SudokuGrid;
  difficulty : Difficulty;
  timeElapsed : Z;
  moveHistory : list Move;
  gameCompleted : bool;
  createdAt : Z
}.

(** The fields of the class; [timerInterval] tells whether an interval
    timer is set.  The optional observer callbacks only receive values and
    are left out. *)
Record Manager : Type := mkManager {
  gameData : option GameData;
  gameState : GameState;
  startTime : Z;
  pausedTime : Z;
  timerInterval : bool
}.

(** How a call ends: it returns a value, it raises a [TypeError] (an index
    into [undefined]), or it leaves the grid type: the source reads
    [undefined] from a column that its row does not have and then grows
    that row, and neither [CellValue] nor a 9x9 [SudokuGrid] has such
    values, so the model stops there. *)
Inductive Outcome (A : Type) : Type :=
  | Returned (a : A)
  | TypeError
  | OffGrid.

Arguments Returned {A} a.
Arguments TypeError {A}.
Arguments OffGrid {A}.

(** [l[i]] for a number [i] supplied by a caller: [None] is [undefined]. *)
Definition js_nth {A : Type} (l : list A) (i : Z) : option A :=
  if (i <? 0)%Z then None else l !! Z.to_nat i.

Definition initial : Manager :=
  {| gameData := None; gameState := menu; startTime := 0; pausedTime := 0;
     timerInterval := false |}.

Definition setGameState (m : Manager) (state : GameState) : Manager :=
  {| gameData := gameData m; gameState := state; startTime := startTime m;
     pausedTime := pausedTime m; timerInterval := timerInterval m |}.

Definition stopTimer (m : Manager) : Manager :=
  {| gameData := gameData m; gameState := gameState m; startTime := startTime m;
     pausedTime := pausedTime m; timerInterval := false |}.

Definition startTimer (m : Manager) : Manager :=
  {| gameData := gameData m; gameState := gameState m; startTime := startTime m;
     pausedTime := pausedTime m; timerInterval := true |}.

Definition setGameData (m : Manager) (gd : option GameData) : Manager :=
  {| gameData := gd; gameState := gameState m; startTime := startTime m;
     pausedTime := pausedTime m; timerInterval := timerInterval m |}.

(** [Math.floor((Date.now() - this.startTime) / 1000)] at clock reading [now]. *)
Definition getCurrentTimeElapsed (m : Manager) (now : Z) : Z :=
  if (startTime m =? 0)%Z then 0%Z else ((now - startTime m) / 1000)%Z.

Definition validateGame (m : Manager) : ValidationResult :=
  match gameData m with
  | None => {| isValid := false; conflicts := []; isCompleted := false |}
  | Some gd => validateGrid (grid gd)
  end.

Definition completeGame (m : Manager) (now : Z) : Manager :=
  match gameData m with
  | None => m
  | Some gd =>
    let gd' :=
      {| id := id gd; grid := grid gd; solution := solution gd;
         originalGrid := originalGrid gd; difficulty := difficulty gd;
         timeElapsed := getCurrentTimeElapsed m now; moveHistory := moveHistory gd;
         gameCompleted := true; createdAt := createdAt gd |} in
    stopTimer (setGameState (setGameData m (Some gd')) completed)
  end.

(** The session after [grid[row][col] = value; moveHistory.push(move)]. *)
Definition recordMove (gd : GameData) (r c : nat) (value : CellValue) (move : Move) : GameData :=
  {| id := id gd; grid := set_cell (grid gd) r c value; solution := solution gd;
     originalGrid := originalGrid gd; difficulty := difficulty gd;
     timeElapsed := timeElapsed gd; moveHistory := moveHistory gd ++ [move];
     gameCompleted := gameCompleted gd; createdAt := createdAt gd |}.

(** [makeMove row col value]; [now] and [doneAt] are the clock readings of
    the move's timestamp and of [completeGame]. *)
Definition makeMove (m : Manager) (row col : Z) (value : CellValue) (now doneAt : Z)
  : Manager * Outcome bool :=
  match gameData m with
  | None => (m, Returned false)
  | Some gd =>
    if bool_decide (gameState m = playing) then
      match js_nth (originalGrid gd) row with
      | None => (m, TypeError)
      | Some originalRow =>
        match js_nth originalRow col with
        | None => (m, Returned false)
        | Some (Some _) => (m, Returned false)
        | Some None =>
          match js_nth (grid gd) row with
          | None => (m, TypeError)
          | Some gridRow =>
            match js_nth gridRow col with
            | None => (m, OffGrid)
            | Some previous =>
              let r := Z.to_nat row in
              let c := Z.to_nat col in
              let move :=
                {| position := mkPosition r c; previousValue := previous;
                   newValue := value; timestamp := now |} in
              let m1 := setGameData m (Some (recordMove gd r c value move)) in
              if isCompleted (validateGame m1)
              then (completeGame m1 doneAt, Returned true)
              else (m1, Returned true)
            end
          end
        end
      end
    else (m, Returned false)
  end.

(** [moveHistory.pop()]: the last element and the array without it. *)
Definition pop {A : Type} (l : list A) : option (list A * A) :=
  match reverse l with
  | [] => None
  | x :: l' => Some (reverse l', x)
  end.

(** The session after [moveHistory.pop()]. *)
Definition dropLastMove (gd : GameData) (history : list Move) : GameData :=
  {| id := id gd; grid := grid gd; solution := solution gd;
     originalGrid := originalGrid gd; difficulty := difficulty gd;
     timeElapsed := timeElapsed gd; moveHistory := history;
     gameCompleted := gameCompleted gd; createdAt := createdAt gd |}.

Definition restoreCell (gd : GameData) (r c : nat) (v : CellValue) : GameData :=
  {| id := id gd; grid := set_cell (grid gd) r c v; solution := solution gd;
     originalGrid := originalGrid gd; difficulty := difficulty gd;
     timeElapsed := timeElapsed gd; moveHistory := moveHistory gd;
     gameCompleted := gameCompleted gd; createdAt := createdAt gd |}.

(** [undoMove()].  The history is popped before the grid is written, so a
    write that fails leaves the shortened history behind. *)
Definition undoMove (m : Manager) : Manager * Outcome bool :=
  match gameData m with
  | None => (m, Returned false)
  | Some gd =>
    match pop (moveHistory gd) with
    | None => (m, Returned false)
    | Some (history, lastMove) =>
      let gd1 := dropLastMove gd history in
      let r := row (position lastMove) in
      let c := col (position lastMove) in
      match grid gd1 !! r with
      | None => (setGameData m (Some gd1), TypeError)
      | Some gridRow =>
        if c <? length gridRow
        then (setGameData m (Some (restoreCell gd1 r c (previousValue lastMove))), Returned true)
        else (setGameData m (Some gd1), OffGrid)
      end
    end
  end.

Definition setPausedTime (m : Manager) (t : Z) : Manager :=
  {| gameData := gameData m; gameState := gameState m; startTime := startTime m;
     pausedTime := t; timerInterval := timerInterval m |}.

Definition setStartTime (m : Manager) (t : Z) : Manager :=
  {| gameData := gameData m; gameState := gameState m; startTime := t;
     pausedTime := pausedTime m; timerInterval := timerInterval m |}.

Definition pauseGame (m : Manager) (now : Z) : Manager :=
  if bool_decide (gameState m = playing)
  then stopTimer (setPausedTime (setGameState m paused) now)
  else m.

Definition resumeGame (m : Manager) (now : Z) : Manager :=
  if bool_decide (gameState m = paused) then
    let m1 := setGameState m playing in
    let m2 :=
      if (0 <? pausedTime m1)%Z
      then setPausedTime (setStartTime m1 (startTime m1 + (now - pausedTime m1))%Z) 0%Z
      else m1 in
    startTimer m2
  else m.

(** The callback of the interval timer, at clock reading [now]. *)
Definition timerTick (m : Manager) (now : Z) : Manager :=
  match gameData m with
  | Some gd =>
    if bool_decide (gameState m = playing) then
      setGameData m (Some
        {| id := id gd; grid := grid gd; solution := solution gd;
           originalGrid := originalGrid gd; difficulty := difficulty gd;
           timeElapsed := getCurrentTimeElapsed m now; moveHistory := moveHistory gd;
           gameCompleted := gameCompleted gd; createdAt := createdAt gd |})
    else m
  | None => m
  end.

Definition dispose (m : Manager) : Manager :=
  {| gameData := None; gameState := menu; startTime := startTime m;
     pausedTime := pausedTime m; timerInterval := false |}.

Definition canUndo (m : Manager) : bool :=
  match gameData m with
  | Some gd => negb (Nat.eqb (length (moveHistory gd)) 0)
  | None => false
  end.

Section Random.

Variable rnd : nat -> Q.

Definition getHint (m : Manager) (k : nat) : option Position * nat :=
  match gameData m with
  | None => (None, k)
  | Some gd => SudokuEngine.getHint rnd k (grid gd) (solution gd)
  end.

(** [startNewGame difficulty]; [idAt], [createdAt'] and [startAt] are the
    three clock readings of the call, [k] the number of random draws made
    before it.  [None] stands for a puzzle generation that does not return. *)
Definition startNewGame (m : Manager) (k : nat) (level : Difficulty)
    (idAt createdAt' startAt : Z) : option (Manager * nat) :=
  match generatePuzzle rnd k level with
  | None => None
  | Some (puzzle, solved, k') =>
    let gd :=
      {| id := (idAt, rnd k'); grid := cloneGrid puzzle; solution := solved;
         originalGrid := cloneGrid puzzle; difficulty := level; timeElapsed := 0%Z;
         moveHistory := []; gameCompleted := false; createdAt := createdAt' |} in
    Some (startTimer (setGameState
            {| gameData := Some gd; gameState := gameState m; startTime := startAt;
               pausedTime := 0%Z; timerInterval := timerInterval m |} playing),
          S k')
  end.

(** The calls a session receives between [startNewGame] and [dispose]. *)
Inductive Op : Type :=
  | OpMakeMove (row col : Z) (value : CellValue) (now doneAt : Z)
  | OpUndoMove
  | OpPauseGame (now : Z)
  | OpResumeGame (now : Z)
  | OpGetHint (k : nat)
  | OpValidateGame
  | OpTimerTick (now : Z).

Definition step (m : Manager) (op : Op) : Manager :=
  match op with
  | OpMakeMove r c v now doneAt => fst (makeMove m r c v now doneAt)
  | OpUndoMove => fst (undoMove m)
  | OpPauseGame now => pauseGame m now
  | OpResumeGame now => resumeGame m now
  | OpGetHint _ => m
  | OpValidateGame => m
  | OpTimerTick now => timerTick m now
  end.

Definition run (ops : list Op) (m : Manager) : Manager := fold_left step ops m.

End Random.

End GameManager.

(** ** Interstitial ads (components/AdManager.tsx) *)

Module AdManager.

(** The module-level [interstitialAd]; [loaded] is the only property the
    module reads. *)
Record InterstitialAd : Type := mkInterstitialAd { loaded : bool }.

(** [showInterstitialAd()]; [showOk] tells whether the promise of
    [interstitialAd.show()] is fulfilled.  The result is the value the
    returned promise resolves to. *)
Definition showInterstitialAd (interstitialAd : option InterstitialAd) (showOk : bool) : bool :=
  match interstitialAd with
  | Some ad => if loaded ad then showOk else false
  | None => false
  end.

Definition isInterstitialAdReady (interstitialAd : option InterstitialAd) : bool :=
  match interstitialAd with
  | Some ad => loaded ad
  | None => false
  end.

(** The two counters of [AdFrequencyManager]. *)
Record AdFrequencyManager : Type := mkAdFrequencyManager {
  lastInterstitialShown : Z;
  gamesPlayedSinceLastAd : nat
}.

Definition MIN_TIME_BETWEEN_ADS : Z := 180000.
Definition GAMES_BETWEEN_ADS : nat := 3.

(** The instance [getInstance] creates. *)
Definition adFrequencyManager : AdFrequencyManager :=
  {| lastInterstitialShown := 0; gamesPlayedSinceLastAd := 0 |}.

(** [shouldShowInterstitialAd()] at clock reading [now]. *)
Definition shouldShowInterstitialAd (f : AdFrequencyManager) (now : Z) : bool :=
  let timeSinceLastAd := (now - lastInterstitialShown f)%Z in
  (MIN_TIME_BETWEEN_ADS <? timeSinceLastAd)%Z &&
  (GAMES_BETWEEN_ADS <=? gamesPlayedSinceLastAd f).

Definition onGameCompleted (f : AdFrequencyManager) : AdFrequencyManager :=
  {| lastInterstitialShown := lastInterstitialShown f;
     gamesPlayedSinceLastAd := S (gamesPlayedSinceLastAd f) |}.

(** [onInterstitialShown()] at clock reading [now]. *)
Definition onInterstitialShown (f : AdFrequencyManager) (now : Z) : AdFrequencyManager :=
  {| lastInterstitialShown := now; gamesPlayedSinceLastAd := 0 |}.

Definition reset (f : AdFrequencyManager) : AdFrequencyManager :=
  {| lastInterstitialShown := 0; gamesPlayedSinceLastAd := 0 |}.

(** [showInterstitialWithFrequencyControl()]: [now] is the clock reading
    of the frequency check, [shownAt] the one taken after the ad was
    shown.  The result is the new state of the frequency manager and the
    value the promise resolves to. *)
Definition showInterstitialWithFrequencyControl (f : AdFrequencyManager)
    (interstitialAd : option InterstitialAd) (showOk : bool) (now shownAt : Z)
  : AdFrequencyManager * bool :=
  if negb (shouldShowInterstitialAd f now) then (f, false)
  else if negb (isInterstitialAdReady interstitialAd) then (f, false)
  else
    let success := showInterstitialAd interstitialAd showOk in
    if success then (onInterstitialShown f shownAt, success) else (f, success).

(** What the environment supplies when a game is completed. *)
Record Completion : Type := mkCompletion {
  interstitialAd : option InterstitialAd;
  showOk : bool;
  checkedAt : Z;
  shownAt : Z
}.

(** The part of [handleGameComplete] of the game screen that deals with
    ads: the completion is counted, then an ad is shown if the frequency
    control allows it. *)
Definition handleGameComplete (f : AdFrequencyManager) (e : Completion)
  : AdFrequencyManager * bool :=
  showInterstitialWithFrequencyControl (onGameCompleted f) (interstitialAd e) (showOk e)
                                       (checkedAt e) (shownAt e).

(** A sequence of completed games: the final state and the completions
    at which an ad was shown. *)
Fixpoint completions (f : AdFrequencyManager) (es : list Completion)
  : AdFrequencyManager * list Completion :=
  match es with
  | [] => (f, [])
  | e :: es' =>
    let '(f1, shown) := handleGameComplete f e in
    let '(f2, ads) := completions f1 es' in
    (f2, if shown then e :: ads else ads)
  end.

End AdManager.

(** ** Labelings of the digits of a box

    The generator fills the three diagonal boxes with arbitrary
    permutations and relies on the remaining cells being fillable.  The
    proof of that fact works on labelings: a box is described by the row
    and the column (0, 1 or 2) that each of the nine digits takes in it.
    The definitions below are the vocabulary of that proof and the finite
    checks it evaluates; none of them is part of the program. *)

Module Labels.

(** Addition modulo 3 of a label and a sign, as a table. *)
Definition add3 (a b : nat) : nat :=
  match a, b with
  | 0, 1 => 1 | 0, 2 => 2 | 1, 1 => 2 | 1, 2 => 0 | 2, 1 => 0 | 2, 2 => 1
  | x, _ => x
  end.

Definition neg1 (x : nat) : nat := match x with 1 => 2 | 2 => 1 | _ => x end.

(** A labeling is a list of nine labels, one for each digit; a sign vector
    is a list of nine signs, 1 or 2. *)
Definition vadd (f s : list nat) : list nat := zip_with add3 f s.
Definition vneg (s : list nat) : list nat := map neg1 s.
Definition vsub (f s : list nat) : list nat := vadd f (vneg s).

(** The offset in a box, row by row, of the cell in row [a] and column [b]. *)
Definition code (a b : nat) : nat :=
  match a with 0 => b | 1 => 3 + b | _ => 6 + b end.
Definition codes (f g : list nat) : list nat := zip_with code f g.

Fixpoint memb (x : nat) (l : list nat) : bool :=
  match l with
  | [] => false
  | y :: l' => if x =? y then true else memb x l'
  end.

Fixpoint nodupb (l : list nat) : bool :=
  match l with
  | [] => true
  | x :: l' => if memb x l' then false else nodupb l'
  end.

Fixpoint cnt (x : nat) (l : list nat) : nat :=
  match l with
  | [] => 0
  | y :: l' => if x =? y then S (cnt x l') else cnt x l'
  end.

(** A row labeling and a column labeling fit one box when no two digits
    get the same cell. *)
Definition orthb (f g : list nat) : bool := nodupb (codes f g).

(** Every label is taken by three digits. *)
Definition balancedb (f : list nat) : bool :=
  (cnt 0 f =? 3) && (cnt 1 f =? 3) && (cnt 2 f =? 3).

(** No row of [f] is a column of [g]: no cell is taken by three digits. *)
Definition no3b (f g : list nat) : bool :=
  forallb (fun c => cnt c (codes f g) <? 3) (seq 0 9).

Definition shareb (f g : list nat) : bool := negb (no3b f g).

Definition aliveb (f g : list nat) : bool := balancedb f && no3b f g.

(** All lists of length [n] over [vals]. *)
Fixpoint vecs (vals : list nat) (n : nat) : list (list nat) :=
  match n with
  | 0 => [[]]
  | S k => flat_map (fun l => map (fun v => v :: l) vals) (vecs vals k)
  end.

(** The 512 sign vectors and the 1680 balanced labelings. *)
Definition signs : list (list nat) := vecs [1; 2] 9.
Definition labs : list (list nat) := List.filter balancedb (vecs [0; 1; 2] 9).

(** The labelings of a box whose digits are numbered row by row. *)
Definition base : list nat := [0; 0; 0; 1; 1; 1; 2; 2; 2].
Definition base2 : list nat := [0; 1; 2; 0; 1; 2; 0; 1; 2].

(** [existsb] that stops at the first hit. *)
Fixpoint anyb {A : Type} (f : A -> bool) (l : list A) : bool :=
  match l with
  | [] => false
  | x :: l' => if f x then true else anyb f l'
  end.

Definition countb {A : Type} (f : A -> bool) (l : list A) : nat := length (List.filter f l).

(** The sign vectors that keep the labeling [q] balanced. *)
Definition options (q : list nat) : list (list nat) :=
  List.filter (fun s => balancedb (vadd q s)) signs.

(** *** Renumbering the digits and renaming the labels *)

(** The labeling [f] after the digits are renumbered by [sigma]. *)
Definition compose (f sigma : list nat) : list nat := map (fun k => nth k f 0) sigma.

(** The renumbering that sorts the labels of [u]. *)
Definition sortperm (u : list nat) : list nat :=
  List.filter (fun k => nth k u 0 =? 0) (seq 0 9) ++
  List.filter (fun k => nth k u 0 =? 1) (seq 0 9) ++
  List.filter (fun k => nth k u 0 =? 2) (seq 0 9).

(** The renumbering that sorts the labels of [m] inside each block of
    three digits. *)
Definition blockperm (m : list nat) : list nat :=
  flat_map (fun b => List.filter (fun k => nth k m 0 =? 0) (seq b 3) ++
                     List.filter (fun k => nth k m 0 =? 1) (seq b 3) ++
                     List.filter (fun k => nth k m 0 =? 2) (seq b 3)) [0; 3; 6].

Definition sortedb (m : list nat) : bool :=
  match m with
  | [a; b; c; d; e; f; g; h; i] =>
    (a <=? b) && (b <=? c) && (d <=? e) && (e <=? f) && (g <=? h) && (h <=? i)
  | _ => false
  end.

(** The six permutations of the labels, and a labeling with its labels
    renamed. *)
Definition perms3 : list (list nat) :=
  [[0; 1; 2]; [1; 2; 0]; [2; 0; 1]; [0; 2; 1]; [2; 1; 0]; [1; 0; 2]].

Definition relabel (pi : list nat) (f : list nat) : list nat := map (fun a => nth a pi 0) f.

(** A labeling is normal when its labels first occur in increasing order. *)
Fixpoint rgs (seen : nat) (l : list nat) : bool :=
  match l with
  | [] => true
  | x :: l' => if x <? seen then rgs seen l' else if x =? seen then rgs (S seen) l' else false
  end.

Definition nlabs : list (list nat) := List.filter (rgs 0) labs.

(** Representatives: the labelings sorted inside the blocks of [base] that
    share no block with it, and one labeling for each class of these under
    renaming of the labels. *)
Definition side_reps : list (list nat) :=
  List.filter (fun p => sortedb p && no3b base p) labs.

Definition alive_reps : list (list nat) :=
  [[0; 1; 2; 0; 1; 2; 0; 1; 2]; [0; 0; 1; 1; 2; 2; 0; 1; 2];
   [0; 0; 1; 0; 2; 2; 1; 1; 2]; [0; 0; 1; 1; 1; 2; 0; 2; 2];
   [0; 1; 2; 0; 0; 1; 1; 2; 2]; [0; 0; 1; 0; 1; 2; 1; 2; 2]].

Fixpoint eqlb (l k : list nat) : bool :=
  match l, k with
  | [], [] => true
  | x :: l', y :: k' => if x =? y then eqlb l' k' else false
  | _, _ => false
  end.

Definition is_perm9 (sigma : list nat) : bool :=
  (length sigma =? 9) && forallb (fun m => memb m sigma) (seq 0 9).

(** *** Admissible signs *)

(** [adm u p m]: the stack with column labeling [u] has a sign vector [t]
    such that the box on its plus side, with rows [p], and the box on its
    minus side, with rows [m], are both bijective. *)
Definition adm (u p m : list nat) : bool :=
  anyb (fun t => orthb p (vadd u t) && orthb m (vsub u t)) signs.

(** The number of options [s] of the band [q] that the stack [u] admits,
    next to the rows [p] on the other side. *)
Definition deg1 (u p q : list nat) : nat :=
  countb (fun s => adm u p (vsub q s)) (options q).
Definition deg2 (u m q : list nat) : nat :=
  countb (fun s => adm u (vadd q s) m) (options q).

(** The number of options of the band [q] whose minus side shares a block
    with the stack [u]. *)
Definition dead (u q : list nat) : nat :=
  countb (fun s => negb (aliveb (vsub q s) u)) (options q).

(** *** The finite checks *)

Definition plusMoves (u m : list nat) : list (list nat) :=
  map (vadd u) (List.filter (fun t => orthb m (vsub u t)) signs).
Definition minusMoves (u p : list nat) : list (list nat) :=
  map (vsub u) (List.filter (fun t => orthb p (vadd u t)) signs).

Definition side_moves : list (list (list nat)) :=
  map (fun p => List.filter (fun s => orthb (vadd base s) p) signs) side_reps.
Definition minus_moves : list (list nat) := minusMoves base base2.
Definition plus_moves : list (list (list nat)) := map (plusMoves base) alive_reps.

(** A band that shares no block with a stack has a sign vector that fits
    the box they meet in and keeps the other side free of shared blocks. *)
Definition side_check : bool :=
  forallb (fun q => forallb (fun ss => anyb (fun s => aliveb (vsub base s) q) ss) side_moves)
          labs.

(** At least 32 of the 56 options are admitted next to a box that fits. *)
Definition deg1_check : bool :=
  forallb (fun q => 32 <=? countb (fun x => anyb (orthb x) minus_moves)
                                  (map (vsub q) (options q)))
          labs.

(** At least 26 of the 56 options are admitted next to rows that share no
    block with the stack. *)
Definition deg2_check : bool :=
  forallb (fun q =>
     let os := map (vadd q) (options q) in
     forallb (fun pm => 26 <=? countb (fun x => anyb (orthb x) pm) os) plus_moves) labs.

(** At most 8 options share a block. *)
Definition dead_check : bool := forallb (fun q => dead base q <=? 8) labs.

Definition options_check : bool := length (options base) =? 56.

Definition sort_check : bool :=
  forallb (fun u => is_perm9 (sortperm u) && eqlb (compose u (sortperm u)) base) labs.
Definition block_check : bool :=
  forallb (fun m => is_perm9 (blockperm m) && eqlb (compose base (blockperm m)) base
                    && sortedb (compose m (blockperm m))) (vecs [0; 1; 2] 9).
Definition block_orth_check : bool :=
  forallb (fun m => if orthb m base then eqlb (compose m (blockperm m)) base2 else true) labs.
Definition canon_check : bool :=
  forallb (fun m => if aliveb m base then
     anyb (fun pi => let m' := relabel pi m in
                     anyb (eqlb (compose m' (blockperm m'))) alive_reps) perms3 else true) labs.
Definition norm_check : bool :=
  forallb (fun f => anyb (fun pi => anyb (fun rho =>
      anyb (eqlb (relabel pi f)) nlabs && eqlb (relabel rho (relabel pi f)) f) perms3) perms3) labs.

(** A search for the six sign vectors of an instance. *)
Definition search_signs (i0 j0 i1 j1 i2 j2 : list nat) : bool :=
  anyb (fun s0 =>
    let T1 := List.filter (fun t => orthb (vadd i0 s0) (vadd j1 t)) signs in
    let T2 := List.filter (fun t => orthb (vsub i0 s0) (vsub j2 t)) signs in
    anyb (fun s1 =>
      if anyb (fun t2 => orthb (vadd i1 s1) (vadd j2 t2)) T2 then
        let T0 := List.filter (fun t => orthb (vsub i1 s1) (vsub j0 t)) signs in
        anyb (fun s2 => if anyb (fun t1 => orthb (vsub i2 s2) (vsub j1 t1)) T1
                        then anyb (fun t0 => orthb (vadd i2 s2) (vadd j0 t0)) T0 else false)
             (options i2)
      else false) (options i1)) (options i0).

(** The search succeeds on every normal instance in which each band shares
    a block with each of the two other stacks. *)
Definition shared_check : bool :=
  forallb (fun i1 => if shareb i1 base2 then
    forallb (fun j1 => if orthb i1 j1 then if shareb base j1 then
      forallb (fun i2 => if shareb i2 base2 then if shareb i2 j1 then
        forallb (fun j2 => if orthb i2 j2 then if shareb base j2 then if shareb i1 j2 then
           search_signs base base2 i1 j1 i2 j2 else true else true else true) nlabs
       else true else true) nlabs
     else true else true) nlabs
   else true) nlabs.

End Labels.


(** * Properties of the engine *)

Module EngineFacts.

Import SudokuEngine.

(** ** Grids *)

(** A grid of nine rows of nine cells. *)
Definition shape9 (grid : SudokuGrid) : Prop :=
  length grid = 9 /\ Forall (fun cells => length cells = 9) grid.

(** The numbers of a grid are those of [CellValue]: 1 to 9. *)
Definition digits_ok (grid : SudokuGrid) : Prop :=
  forall r c n, cell grid r c = Some n -> 1 <= n <= 9.

Definition wf_grid (grid : SudokuGrid) : Prop := shape9 grid /\ digits_ok grid.

(** [(r, c)] is another cell of the row, the column or the box of
    [(row, col)]. *)
Definition sees (row col r c : nat) : Prop :=
  (r, c) <> (row, col) /\ r < 9 /\ c < 9 /\
  (r = row \/ c = col \/ (r / 3 = row / 3 /\ c / 3 = col / 3)).

Lemma cloneGrid_id grid : cloneGrid grid = grid.
Proof.
  unfold cloneGrid. induction grid as [|cells grid IH]; simpl; [done|].
  by rewrite app_nil_r, IH.
Qed.

Lemma cell_set_cell_eq grid r c v :
  shape9 grid -> r < 9 -> c < 9 -> cell (set_cell grid r c v) r c = v.
Proof.
  intros [Hlen Hrows] Hr Hc. unfold cell, set_cell.
  destruct (lookup_lt_is_Some_2 grid r) as [cells Hcells]; [lia|].
  rewrite list_lookup_alter_eq, Hcells. simpl.
  rewrite list_lookup_insert_eq; [done|].
  rewrite Forall_forall in Hrows. rewrite (Hrows cells); [lia|].
  apply list_elem_of_lookup. eauto.
Qed.

Lemma cell_set_cell_ne grid r c v r' c' :
  (r', c') <> (r, c) -> cell (set_cell grid r c v) r' c' = cell grid r' c'.
Proof.
  intros Hne. unfold cell, set_cell.
  destruct (decide (r' = r)) as [->|Hr].
  - rewrite list_lookup_alter_eq. destruct (grid !! r) as [cells|]; simpl; [|done].
    rewrite list_lookup_insert_ne; [done|]. congruence.
  - by rewrite list_lookup_alter_ne.
Qed.

Lemma shape9_set_cell grid r c v : shape9 grid -> shape9 (set_cell grid r c v).
Proof.
  intros [Hlen Hrows]. unfold set_cell. split.
  - by rewrite length_alter.
  - apply Forall_alter; [done|]. intros cells _. by rewrite length_insert.
Qed.

Lemma shape9_createEmptyGrid : shape9 createEmptyGrid.
Proof.
  split; [reflexivity|]. unfold createEmptyGrid.
  apply Forall_replicate. reflexivity.
Qed.

Lemma set_cell_set_cell grid r c v w :
  set_cell (set_cell grid r c v) r c w = set_cell grid r c w.
Proof.
  unfold set_cell. rewrite list_alter_alter_eq.
  apply list_alter_ext; [|done]. intros cells _. simpl. apply list_insert_insert_eq.
Qed.

(** Writing back what a cell of the grid holds changes nothing. *)
Lemma set_cell_same grid r c cells v :
  grid !! r = Some cells -> cells !! c = Some v -> set_cell grid r c v = grid.
Proof.
  intros Hr Hc. unfold set_cell. apply list_eq. intros i.
  rewrite list_lookup_alter. case_decide as Hi; [subst i|done].
  rewrite Hr. simpl. f_equal. by apply list_insert_id.
Qed.

(** Two 9x9 grids with the same cells are the same grid. *)
Lemma grid_ext g1 g2 :
  shape9 g1 -> shape9 g2 ->
  (forall r c, r < 9 -> c < 9 -> cell g1 r c = cell g2 r c) -> g1 = g2.
Proof.
  intros [Hl1 Hr1] [Hl2 Hr2] Heq.
  apply list_eq_same_length with 9; [done..|].
  intros r cells1 cells2 Hr Hc1 Hc2.
  assert (length cells1 = 9) as Hn1.
  { rewrite Forall_forall in Hr1. apply Hr1, list_elem_of_lookup. eauto. }
  assert (length cells2 = 9) as Hn2.
  { rewrite Forall_forall in Hr2. apply Hr2, list_elem_of_lookup. eauto. }
  apply list_eq_same_length with 9; [done..|].
  intros c v1 v2 Hc Hv1 Hv2.
  specialize (Heq r c Hr Hc). unfold cell in Heq.
  rewrite Hc1, Hc2, Hv1, Hv2 in Heq. done.
Qed.

(** ** The positions *)

Lemma elem_of_getAllPositions p :
  p ∈ getAllPositions <-> row p < 9 /\ col p < 9.
Proof.
  unfold getAllPositions, GRID_SIZE. rewrite list_elem_of_In, in_flat_map. split.
  - intros (r & Hr & Hp). apply in_map_iff in Hp as (c & <- & Hc).
    apply in_seq in Hr, Hc. simpl. lia.
  - intros [Hr Hc]. exists (row p). split; [apply in_seq; lia|].
    apply in_map_iff. exists (col p). split; [by destruct p|apply in_seq; lia].
Qed.

Lemma length_getAllPositions : length getAllPositions = 81.
Proof. reflexivity. Qed.

Lemma NoDup_getAllPositions : NoDup getAllPositions.
Proof. apply (bool_decide_unpack (NoDup getAllPositions)). vm_compute. exact I. Qed.

(** ** isValidMove *)

Lemma holds_true grid r c n : holds grid r c n = true <-> cell grid r c = Some n.
Proof.
  unfold holds. destruct (cell grid r c) as [m|]; [|by split].
  rewrite Nat.eqb_eq. split; congruence.
Qed.

Lemma box_range k x : k < 9 -> (k / 3 * 3 <= x < k / 3 * 3 + 3) <-> (x < 9 /\ x / 3 = k / 3).
Proof.
  intros Hk.
  assert (k / 3 < 3) by (apply Nat.Div0.div_lt_upper_bound; lia).
  pose proof (Nat.div_mod_eq x 3) as Hx.
  pose proof (Nat.mod_upper_bound x 3 ltac:(lia)).
  split.
  - intros Hr. assert (x / 3 = k / 3); [|lia]. nia.
  - intros [_ Hr]. rewrite <- Hr. lia.
Qed.

(** The placement check fails exactly when the number stands in a cell the
    position sees. *)
Lemma isValidMove_false grid row col n :
  row < 9 -> col < 9 ->
  isValidMove grid row col (Some n) = false <->
  exists r c, sees row col r c /\ cell grid r c = Some n.
Proof.
  intros Hrow Hcol. unfold isValidMove, GRID_SIZE, BOX_SIZE.
  destruct (existsb (fun c => negb (c =? col) && holds grid row c n) (seq 0 9)) eqn:Erow.
  { split; [intros _|done].
    apply existsb_exists in Erow as (c & Hc & Hb). apply in_seq in Hc.
    apply andb_true_iff in Hb as [Hne Hh]. apply negb_true_iff, Nat.eqb_neq in Hne.
    apply holds_true in Hh. exists row, c. split; [|done].
    repeat split; [congruence|lia..|by left]. }
  destruct (existsb (fun r => negb (r =? row) && holds grid r col n) (seq 0 9)) eqn:Ecol.
  { split; [intros _|done].
    apply existsb_exists in Ecol as (r & Hr & Hb). apply in_seq in Hr.
    apply andb_true_iff in Hb as [Hne Hh]. apply negb_true_iff, Nat.eqb_neq in Hne.
    apply holds_true in Hh. exists r, col. split; [|done].
    repeat split; [congruence|lia..|by right; left]. }
  destruct (existsb _ (seq (row / 3 * 3) 3)) eqn:Ebox.
  { split; [intros _|done].
    apply existsb_exists in Ebox as (r & Hr & Hb). apply in_seq in Hr.
    apply existsb_exists in Hb as (c & Hc & Hb). apply in_seq in Hc.
    apply andb_true_iff in Hb as [Hne Hh]. apply holds_true in Hh.
    apply box_range in Hr as [Hr9 Hr3]; [|done]. apply box_range in Hc as [Hc9 Hc3]; [|done].
    exists r, c. split; [|done]. repeat split; [|done..|by right; right].
    apply orb_true_iff in Hne as [Hne|Hne]; apply negb_true_iff, Nat.eqb_neq in Hne; congruence. }
  split; [done|]. intros (r & c & (Hne & Hr & Hc & Hunit) & Hcell). exfalso.
  apply holds_true in Hcell.
  destruct Hunit as [->|[->|[Hr3 Hc3]]].
  - apply not_true_iff_false in Erow. apply Erow, existsb_exists.
    exists c. split; [apply in_seq; lia|].
    rewrite Hcell, andb_true_r. apply negb_true_iff, Nat.eqb_neq. congruence.
  - apply not_true_iff_false in Ecol. apply Ecol, existsb_exists.
    exists r. split; [apply in_seq; lia|].
    rewrite Hcell, andb_true_r. apply negb_true_iff, Nat.eqb_neq. congruence.
  - apply not_true_iff_false in Ebox. apply Ebox, existsb_exists.
    exists r. split; [apply in_seq, box_range; done|].
    apply existsb_exists. exists c. split; [apply in_seq, box_range; done|].
    rewrite Hcell, andb_true_r.
    destruct (decide (r = row)) as [->|Hr'].
    + apply orb_true_iff. right. apply negb_true_iff, Nat.eqb_neq. congruence.
    + apply orb_true_iff. left. by apply negb_true_iff, Nat.eqb_neq.
Qed.

(** C5: an empty value is always placeable; a number is rejected exactly
    when it already stands in another cell of the row, the column or the
    3x3 box of the position. *)
Theorem isValidMove_spec (grid : SudokuGrid) (row col : nat) :
  row < 9 -> col < 9 ->
  isValidMove grid row col None = true /\
  forall n, isValidMove grid row col (Some n) = false <->
            exists r c, sees row col r c /\ cell grid r c = Some n.
Proof.
  intros Hrow Hcol. split; [reflexivity|].
  intros n. by apply isValidMove_false.
Qed.

(** A grid with a 5 in the second cell of the first row. *)
Definition sample_row_grid : SudokuGrid := set_cell createEmptyGrid 0 1 (Some 5).

Lemma isValidMove_spec_witness :
  (0 < 9 /\ 0 < 9) /\
  (isValidMove sample_row_grid 0 0 None = true /\
   forall n, isValidMove sample_row_grid 0 0 (Some n) = false <->
             exists r c, sees 0 0 r c /\ cell sample_row_grid r c = Some n).
Proof. split; [lia | apply (isValidMove_spec sample_row_grid 0 0); lia]. Defined.

(** ** validateGrid *)

(** The test the loop of [validateGrid] applies to a position. *)
Definition in_conflict (grid : SudokuGrid) (p : Position) : Prop :=
  exists n, cell grid (row p) (col p) = Some n /\
            isValidMove grid (row p) (col p) (Some n) = false.

#[local] Instance in_conflict_dec grid p : Decision (in_conflict grid p).
Proof.
  unfold in_conflict. destruct (cell grid (row p) (col p)) as [n|].
  - destruct (isValidMove grid (row p) (col p) (Some n)) eqn:E.
    + right. intros (m & [= <-] & Hm). congruence.
    + left. eauto.
  - right. intros (m & [=] & _).
Defined.

Definition is_filled (grid : SudokuGrid) (p : Position) : Prop :=
  cell grid (row p) (col p) <> None.

Lemma validate_step_eq grid st p :
  validate_step grid st p =
  (fst st ++ (if decide (in_conflict grid p) then [p] else []),
   snd st + (if decide (is_filled grid p) then 1 else 0)).
Proof.
  unfold validate_step.
  destruct (decide (in_conflict grid p)) as [Hc|Hc], (decide (is_filled grid p)) as [Hf|Hf];
    unfold in_conflict, is_filled in Hc, Hf;
    destruct (cell grid (row p) (col p)) as [n|] eqn:Ecell;
    try (exfalso; by apply Hf);
    try (exfalso; destruct Hc as (m & Hm & _); congruence);
    try (destruct (isValidMove grid (row p) (col p) (Some n)) eqn:Evalid);
    try (exfalso; destruct Hc as (m & Hm & Hv); congruence);
    try (exfalso; apply Hc; eauto; fail);
    rewrite ?app_nil_r, ?Nat.add_0_r; try (by destruct st); f_equal; lia.
Qed.

Lemma validate_fold grid l acc k :
  fold_left (validate_step grid) l (acc, k) =
  (acc ++ filter (in_conflict grid) l, k + length (filter (is_filled grid) l)).
Proof.
  revert acc k. induction l as [|p l IH]; intros acc k; cbn [fold_left].
  { by rewrite !filter_nil, app_nil_r, Nat.add_0_r. }
  rewrite validate_step_eq, IH, !filter_cons. cbn [fst snd].
  destruct (decide (in_conflict grid p)), (decide (is_filled grid p));
    cbn [length]; rewrite <- ?app_assoc, ?app_nil_r; f_equal; simpl; lia.
Qed.

Lemma length_filter_all {A} (P : A -> Prop) `{!forall x, Decision (P x)} (l : list A) :
  length (filter P l) = length l <-> Forall P l.
Proof.
  induction l as [|x l IH].
  { split; [constructor|reflexivity]. }
  pose proof (length_filter P l) as Hle.
  rewrite Forall_cons_iff, (filter_cons P x l).
  destruct (decide (P x)) as [HP|HP]; cbn [length].
  - split.
    + intros [= Hlen]. split; [done|]. by apply IH.
    + intros [_ Hall]. f_equal. by apply IH.
  - split; [lia|]. by intros [? _].
Qed.

(** C6: [validateGrid] reports exactly the filled cells whose number fails
    the placement check, each once and in the order of the scan; the grid
    is valid iff nothing is reported, and completed iff nothing is reported
    and no cell of the 9x9 board is empty. *)
Theorem validateGrid_spec (grid : SudokuGrid) :
  conflicts (validateGrid grid) = filter (in_conflict grid) getAllPositions /\
  (forall p, p ∈ conflicts (validateGrid grid) <->
             row p < 9 /\ col p < 9 /\
             exists n, cell grid (row p) (col p) = Some n /\
                       isValidMove grid (row p) (col p) (Some n) = false) /\
  (isValid (validateGrid grid) = true <-> conflicts (validateGrid grid) = []) /\
  (isCompleted (validateGrid grid) = true <->
     conflicts (validateGrid grid) = [] /\
     forall r c, r < 9 -> c < 9 -> cell grid r c <> None).
Proof.
  unfold validateGrid. rewrite validate_fold. simpl.
  set (found := filter (in_conflict grid) getAllPositions).
  assert (Hnil : Nat.eqb (length found) 0 = true <-> found = []).
  { rewrite Nat.eqb_eq. split; [apply nil_length_inv|by intros ->]. }
  split; [done|]. split; [|split; [done|]].
  - intros p. subst found. rewrite list_elem_of_filter, elem_of_getAllPositions.
    unfold in_conflict. tauto.
  - rewrite andb_true_iff, Hnil, Nat.eqb_eq.
    change (GRID_SIZE * GRID_SIZE) with (length getAllPositions).
    rewrite length_filter_all, Forall_forall.
    split; intros [Hc Hfull]; (split; [done|]).
    + intros r c Hr Hc'. apply (Hfull (mkPosition r c)).
      apply elem_of_getAllPositions. done.
    + intros p Hp. apply elem_of_getAllPositions in Hp as [Hr Hc'].
      by apply Hfull.
Qed.

End EngineFacts.

(** * Properties of the backtracking searches *)

Module SolverFacts.

Import SudokuEngine EngineFacts.

(** ** Completions *)

Definition full (grid : SudokuGrid) : Prop :=
  forall r c, r < 9 -> c < 9 -> cell grid r c <> None.

(** Every filled cell passes the placement check against the other cells:
    no row, column or box holds a number twice. *)
Definition conflict_free (grid : SudokuGrid) : Prop :=
  forall r c n, r < 9 -> c < 9 -> cell grid r c = Some n ->
                isValidMove grid r c (Some n) = true.

Definition is_solution (s : SudokuGrid) : Prop :=
  wf_grid s /\ full s /\ conflict_free s.

Definition extends (grid s : SudokuGrid) : Prop :=
  forall r c n, cell grid r c = Some n -> cell s r c = Some n.

(** [s] is a completion of [grid]: a full 9x9 grid of numbers 1 to 9, free
    of conflicts, that keeps every filled cell of [grid]. *)
Definition completion (grid s : SudokuGrid) : Prop :=
  is_solution s /\ extends grid s.

(** The number of empty cells. *)
Definition empties (grid : SudokuGrid) : nat :=
  length (filter (fun p => cell grid (row p) (col p) = None) getAllPositions).

Lemma sees_sym r c r' c' : r < 9 -> c < 9 -> sees r c r' c' -> sees r' c' r c.
Proof.
  intros Hr Hc (Hne & Hr' & Hc' & Hunit). repeat split; [congruence|done..|].
  destruct Hunit as [->|[->|[? ?]]]; auto.
Qed.

Lemma isValidMove_true grid r c n :
  r < 9 -> c < 9 ->
  isValidMove grid r c (Some n) = true <->
  forall r' c', sees r c r' c' -> cell grid r' c' <> Some n.
Proof.
  intros Hr Hc. rewrite <- not_false_iff_true, isValidMove_false by done.
  split.
  - intros Hno r' c' Hsees Hcell. apply Hno. eauto.
  - intros Hall (r' & c' & Hsees & Hcell). by eapply Hall.
Qed.

Lemma extends_refl grid : extends grid grid.
Proof. by intros r c n. Qed.

Lemma extends_trans g1 g2 g3 : extends g1 g2 -> extends g2 g3 -> extends g1 g3.
Proof. intros H12 H23 r c n Hcell. eauto. Qed.

Lemma cell_outside grid r c : shape9 grid -> 9 <= r \/ 9 <= c -> cell grid r c = None.
Proof.
  intros [Hlen Hrows] Hrc. unfold cell.
  destruct (grid !! r) as [cells|] eqn:Er; [|done].
  assert (length cells = 9) as Hcells.
  { rewrite Forall_forall in Hrows. apply Hrows, list_elem_of_lookup. eauto. }
  apply lookup_lt_Some in Er.
  destruct (cells !! c) eqn:Ec; [|done]. apply lookup_lt_Some in Ec. lia.
Qed.

Lemma cell_Some_inside grid r c n : shape9 grid -> cell grid r c = Some n -> r < 9 /\ c < 9.
Proof.
  intros Hshape Hcell.
  destruct (decide (r < 9 /\ c < 9)) as [?|Hout]; [done|].
  rewrite cell_outside in Hcell; [done|done|lia].
Qed.

Lemma cell_set_cell grid r c v r' c' :
  shape9 grid -> r < 9 -> c < 9 ->
  cell (set_cell grid r c v) r' c' = if decide ((r', c') = (r, c)) then v else cell grid r' c'.
Proof.
  intros Hshape Hr Hc. case_decide as Heq.
  - injection Heq as -> ->. by apply cell_set_cell_eq.
  - by apply cell_set_cell_ne.
Qed.

(** Clearing a cell that is already empty, or writing a cell's own value. *)
Lemma set_cell_cell grid r c :
  shape9 grid -> r < 9 -> c < 9 -> set_cell grid r c (cell grid r c) = grid.
Proof.
  intros Hshape Hr Hc. apply grid_ext; [by apply shape9_set_cell|done|].
  intros r' c' _ _. rewrite cell_set_cell by done. case_decide as Heq; [|done].
  by injection Heq as -> ->.
Qed.

Lemma extends_set_cell grid r c n :
  shape9 grid -> r < 9 -> c < 9 -> cell grid r c = None ->
  extends grid (set_cell grid r c (Some n)).
Proof.
  intros Hshape Hr Hc Hnone r' c' m Hcell. rewrite cell_set_cell by done.
  case_decide as Heq; [|done]. injection Heq as -> ->. congruence.
Qed.

(** A completion agrees with the placement check of the grid it completes. *)
Lemma completion_valid grid s r c n :
  completion grid s -> r < 9 -> c < 9 -> cell s r c = Some n ->
  isValidMove grid r c (Some n) = true.
Proof.
  intros [(_ & _ & Hfree) Hext] Hr Hc Hcell.
  apply isValidMove_true; [done..|]. intros r' c' Hsees Hg.
  apply Hext in Hg. specialize (Hfree r c n Hr Hc Hcell).
  rewrite isValidMove_true in Hfree by done. by eapply Hfree.
Qed.

Lemma completion_set_cell grid s r c n :
  shape9 grid -> r < 9 -> c < 9 ->
  completion grid s -> cell s r c = Some n -> completion (set_cell grid r c (Some n)) s.
Proof.
  intros Hshape Hr Hc [Hsol Hext] Hcell. split; [done|].
  intros r' c' m. rewrite cell_set_cell by done.
  case_decide as Heq; [|apply Hext]. injection Heq as -> ->. congruence.
Qed.

Lemma completion_unset grid s r c n :
  shape9 grid -> r < 9 -> c < 9 -> cell grid r c = None ->
  completion (set_cell grid r c (Some n)) s -> completion grid s /\ cell s r c = Some n.
Proof.
  intros Hshape Hr Hc Hnone [Hsol Hext]. split; [split; [done|]|].
  - intros r' c' m Hcell. apply Hext. rewrite cell_set_cell by done.
    case_decide as Heq; [|done]. injection Heq as -> ->. congruence.
  - apply Hext. by rewrite cell_set_cell_eq.
Qed.

(** Placing a number that passes the check keeps the grid free of conflicts. *)
Lemma conflict_free_set_cell grid r c n :
  shape9 grid -> r < 9 -> c < 9 -> conflict_free grid ->
  isValidMove grid r c (Some n) = true -> conflict_free (set_cell grid r c (Some n)).
Proof.
  intros Hshape Hr Hc Hfree Hvalid r' c' m Hr' Hc' Hcell.
  rewrite isValidMove_true in Hvalid by done.
  apply isValidMove_true; [done..|]. intros r'' c'' Hsees Hcell'.
  rewrite cell_set_cell in Hcell, Hcell' by done.
  destruct (decide ((r', c') = (r, c))) as [Heq|Hne].
  - injection Heq as -> ->. injection Hcell as <-.
    destruct (decide ((r'', c'') = (r, c))) as [Heq'|Hne'].
    + destruct Hsees as [Hne _]. done.
    + by eapply Hvalid.
  - destruct (decide ((r'', c'') = (r, c))) as [Heq'|Hne'].
    + injection Heq' as -> ->. injection Hcell' as <-.
      apply (Hvalid r' c'); [by apply sees_sym|done].
    + specialize (Hfree r' c' m Hr' Hc' Hcell).
      rewrite isValidMove_true in Hfree by done. by eapply Hfree.
Qed.

Lemma digits_ok_set_cell grid r c n :
  shape9 grid -> r < 9 -> c < 9 -> digits_ok grid -> 1 <= n <= 9 ->
  digits_ok (set_cell grid r c (Some n)).
Proof.
  intros Hshape Hr Hc Hdig Hn r' c' m. rewrite cell_set_cell by done.
  case_decide; [intros [= <-]; done|apply Hdig].
Qed.

(** ** The first empty cell and the number of empty cells *)

Lemma firstEmpty_Some grid p :
  firstEmpty grid = Some p -> row p < 9 /\ col p < 9 /\ cell grid (row p) (col p) = None.
Proof.
  unfold firstEmpty. intros Hfind. apply find_some in Hfind as [Hin Hp].
  apply list_elem_of_In, elem_of_getAllPositions in Hin as [? ?].
  apply bool_decide_eq_true in Hp. done.
Qed.

Lemma firstEmpty_None grid : firstEmpty grid = None -> full grid.
Proof.
  unfold firstEmpty. intros Hfind r c Hr Hc Hcell.
  pose proof (find_none _ _ Hfind (mkPosition r c)) as Hp.
  rewrite bool_decide_eq_false in Hp. apply Hp; [|done].
  apply list_elem_of_In, elem_of_getAllPositions. done.
Qed.

Lemma filter_ext_elem {A} (P Q : A -> Prop)
    `{!forall x, Decision (P x)} `{!forall x, Decision (Q x)} (l : list A) :
  (forall y, y ∈ l -> P y <-> Q y) -> filter P l = filter Q l.
Proof.
  induction l as [|y l IH]; intros Hiff; [done|].
  rewrite (filter_cons P), (filter_cons Q).
  assert (filter P l = filter Q l) as ->.
  { apply IH. intros z Hz. apply Hiff. by apply elem_of_cons; right. }
  assert (P y <-> Q y) as Hy by (apply Hiff, elem_of_cons; by left).
  destruct (decide (P y)), (decide (Q y)); tauto.
Qed.

Lemma length_filter_remove {A} (P Q : A -> Prop)
    `{!forall x, Decision (P x)} `{!forall x, Decision (Q x)} (l : list A) (x : A) :
  NoDup l -> x ∈ l -> P x -> ~ Q x -> (forall y, y <> x -> P y <-> Q y) ->
  length (filter P l) = S (length (filter Q l)).
Proof.
  intros Hnd Hin HP HQ Hrest. induction l as [|y l IH]; [by apply elem_of_nil in Hin|].
  apply NoDup_cons in Hnd as [Hy Hnd]. rewrite (filter_cons P), (filter_cons Q).
  apply elem_of_cons in Hin as [<-|Hin].
  - rewrite decide_True, decide_False by done. cbn [length]. f_equal.
    f_equal. apply filter_ext_elem. intros z Hz. apply Hrest. congruence.
  - assert (y <> x) as Hne by congruence.
    destruct (decide (P y)) as [HPy|HPy].
    + rewrite decide_True by (by apply Hrest). cbn [length]. f_equal. by apply IH.
    + rewrite decide_False by (by rewrite <- Hrest). by apply IH.
Qed.

Lemma empties_set_cell grid r c n :
  shape9 grid -> r < 9 -> c < 9 -> cell grid r c = None ->
  empties grid = S (empties (set_cell grid r c (Some n))).
Proof.
  intros Hshape Hr Hc Hnone. unfold empties.
  apply (length_filter_remove _ _ _ (mkPosition r c)).
  - apply NoDup_getAllPositions.
  - by apply elem_of_getAllPositions.
  - done.
  - cbn [row col]. by rewrite cell_set_cell_eq.
  - intros [r' c'] Hne. cbn [row col]. rewrite cell_set_cell_ne; [done|congruence].
Qed.

Lemma empties_le grid : empties grid <= 81.
Proof. unfold empties. rewrite <- length_getAllPositions. apply length_filter. Qed.

Lemma copyGrid_id w res : shape9 w -> shape9 res -> copyGrid w res = w.
Proof.
  intros Hw Hres. unfold copyGrid.
  assert (forall l res0, shape9 res0 ->
            let out := fold_left (fun res p => set_cell res (row p) (col p)
                                                 (cell w (row p) (col p))) l res0 in
            shape9 out /\
            forall r c, r < 9 -> c < 9 ->
              cell out r c = if decide (mkPosition r c ∈ l) then cell w r c else cell res0 r c)
    as Hfold.
  { induction l as [|p l IH]; intros res0 Hres0; cbn [fold_left].
    - split; [done|]. intros r c _ _. rewrite decide_False; [done|apply not_elem_of_nil].
    - destruct (decide (row p < 9 /\ col p < 9)) as [[Hr Hc]|Hout].
      + destruct (IH (set_cell res0 (row p) (col p) (cell w (row p) (col p))))
          as [Hshape Hcells]; [by apply shape9_set_cell|].
        split; [done|]. intros r c Hr' Hc'. rewrite Hcells by done.
        rewrite cell_set_cell by done.
        destruct (decide (mkPosition r c ∈ l)) as [Hin|Hnin].
        * rewrite decide_True; [done|]. by apply elem_of_cons; right.
        * destruct (decide ((r, c) = (row p, col p))) as [Heq|Hne].
          -- injection Heq as -> ->. rewrite decide_True; [done|].
             apply elem_of_cons; left. by destruct p.
          -- rewrite decide_False; [done|]. intros [Heq|?]%elem_of_cons; [|done].
             apply Hne. by rewrite <- Heq.
      + assert (set_cell res0 (row p) (col p) (cell w (row p) (col p)) = res0) as ->.
        { rewrite cell_outside by (done || lia). unfold set_cell. apply list_eq. intros i.
          rewrite list_lookup_alter. case_decide as Hi; [subst i|done].
          destruct (res0 !! row p) as [cells|] eqn:Ecells; [|done]. cbn. f_equal.
          destruct Hres0 as [Hlen Hrows].
          assert (length cells = 9) as Hcells.
          { rewrite Forall_forall in Hrows.
            apply Hrows, list_elem_of_lookup. eauto. }
          apply lookup_lt_Some in Ecells. apply list_insert_ge. lia. }
        destruct (IH res0 Hres0) as [Hshape Hcells]. split; [done|].
        intros r c Hr' Hc'. rewrite Hcells by done.
        destruct (decide (mkPosition r c ∈ l)) as [Hin|Hnin].
        * rewrite decide_True; [done|]. by apply elem_of_cons; right.
        * rewrite decide_False; [done|]. intros [Heq|?]%elem_of_cons; [|done].
          apply Hout. by rewrite <- Heq. }
  destruct (Hfold getAllPositions res Hres) as [Hshape Hcells].
  apply grid_ext; [done..|]. intros r c Hr Hc. rewrite Hcells by done.
  rewrite decide_True; [done|]. by apply elem_of_getAllPositions.
Qed.

(** ** solvePuzzle *)

(** What a search that returns [true] leaves behind, from the working grid
    [w] it started on: the full grid [w'], also stored in the result grid. *)
Definition solved_from (w w' res' : SudokuGrid) : Prop :=
  res' = w' /\ shape9 w' /\ full w' /\ extends w w' /\
  (digits_ok w -> digits_ok w') /\ (conflict_free w -> conflict_free w').

(** The contract of [solveRecursive]: on [false] both grids are as they
    were and the working grid has no completion. *)
Definition solve_post (w res : SudokuGrid) (out : bool * SudokuGrid * SudokuGrid) : Prop :=
  match out with
  | (true, w', res') => solved_from w w' res'
  | (false, w', res') => w' = w /\ res' = res /\ forall s, ~ completion w s
  end.

Lemma solveCandidates_spec recurse fuel p nums w res :
  (forall w0 res0, shape9 w0 -> shape9 res0 -> empties w0 < fuel ->
                   exists out, recurse w0 res0 = Some out /\ solve_post w0 res0 out) ->
  shape9 w -> shape9 res -> row p < 9 -> col p < 9 ->
  cell w (row p) (col p) = None -> empties w <= fuel ->
  (forall n, n ∈ nums -> 1 <= n <= 9) ->
  exists out, solveCandidates recurse p nums w res = Some out /\
    match out with
    | (true, w', res') => solved_from w w' res'
    | (false, w', res') =>
      w' = w /\ res' = res /\
      forall s, completion w s -> forall n, cell s (row p) (col p) = Some n -> n ∉ nums
    end.
Proof.
  intros Hrec Hw Hres Hr Hc Hnone Hfuel.
  induction nums as [|num nums IH]; intros Hnums; cbn [solveCandidates].
  { eexists. split; [reflexivity|]. repeat split. intros s _ n _. apply not_elem_of_nil. }
  assert (forall n, n ∈ nums -> 1 <= n <= 9) as Hnums'.
  { intros n Hn. apply Hnums. by apply elem_of_cons; right. }
  destruct (IH Hnums') as (out & Hout & Hpost). clear IH.
  destruct (isValidMove w (row p) (col p) (Some num)) eqn:Hvalid.
  - set (w1 := set_cell w (row p) (col p) (Some num)).
    assert (shape9 w1) as Hw1 by (by apply shape9_set_cell).
    assert (empties w1 < fuel) as Hfuel1.
    { pose proof (empties_set_cell w (row p) (col p) num Hw Hr Hc Hnone). fold w1 in H. lia. }
    destruct (Hrec w1 res Hw1 Hres Hfuel1) as ([[[] w'] res'] & -> & Hpost1);
      cbn [solve_post] in Hpost1.
    + destruct Hpost1 as (-> & Hw' & Hfull & Hext & Hdig & Hfree).
      eexists. split; [reflexivity|]. cbn.
      assert (cell w' (row p) (col p) = Some num) as Hcell.
      { apply Hext. by apply cell_set_cell_eq. }
      split; [|split; [done|split; [done|split; [|split]]]].
      * rewrite <- Hcell. by apply set_cell_cell.
      * eapply extends_trans; [|exact Hext]. by apply extends_set_cell.
      * intros Hd. apply Hdig, digits_ok_set_cell; try done.
        apply Hnums. by apply elem_of_cons; left.
      * intros Hf. by apply Hfree, conflict_free_set_cell.
    + destruct Hpost1 as (-> & -> & Hnone1).
      assert (set_cell w1 (row p) (col p) None = w) as ->.
      { unfold w1. rewrite set_cell_set_cell, <- Hnone. by apply set_cell_cell. }
      exists out. split; [done|]. destruct out as [[[] w''] res'']; [done|].
      destruct Hpost as (-> & -> & Hrest). repeat split.
      intros s Hs n Hcell [->|Hin]%elem_of_cons; [|by eapply Hrest].
      apply (Hnone1 s). by apply completion_set_cell.
  - exists out. split; [done|]. destruct out as [[[] w''] res'']; [done|].
    destruct Hpost as (-> & -> & Hrest). repeat split.
    intros s Hs n Hcell [->|Hin]%elem_of_cons; [|by eapply Hrest].
    pose proof (completion_valid w s (row p) (col p) num Hs Hr Hc Hcell). congruence.
Qed.

Lemma elem_of_candidates n : n ∈ candidates <-> 1 <= n <= 9.
Proof. unfold candidates. rewrite list_elem_of_In, in_seq. lia. Qed.

Lemma solveRecursive_spec fuel w res :
  shape9 w -> shape9 res -> empties w < fuel ->
  exists out, solveRecursive fuel w res = Some out /\ solve_post w res out.
Proof.
  revert w res. induction fuel as [|fuel IH]; intros w res Hw Hres Hfuel; [lia|].
  cbn [solveRecursive]. destruct (firstEmpty w) as [p|] eqn:Efirst.
  - apply firstEmpty_Some in Efirst as (Hr & Hc & Hnone).
    destruct (solveCandidates_spec (solveRecursive fuel) fuel p candidates w res)
      as (out & Hout & Hpost); try done; [lia|intros n; apply elem_of_candidates|].
    exists out. split; [done|]. destruct out as [[[] w'] res']; [done|].
    destruct Hpost as (-> & -> & Hrest). repeat split. intros s Hs.
    destruct Hs as [((Hshape & Hdig) & Hfull & Hfree) Hext] eqn:E.
    destruct (cell s (row p) (col p)) as [n|] eqn:Hcell; [|by apply (Hfull (row p) (col p))].
    apply (Hrest s ltac:(done) n Hcell). apply elem_of_candidates. by eapply Hdig.
  - apply firstEmpty_None in Efirst.
    eexists. split; [reflexivity|]. cbn [solve_post]. rewrite copyGrid_id by done.
    split; [done|]. split; [done|]. split; [done|]. split; [apply extends_refl|]. done.
Qed.

(** The amended C7.  On a 9x9 grid [solvePuzzle] always returns.  When it
    returns [false] the grid is unchanged and has no completion (so a grid
    with a completion is solved); when it returns [true] on a grid whose
    filled cells are free of conflicts, the grid it leaves is a completion
    of the input.  For grids free of conflicts [false] is therefore
    returned exactly when there is no completion. *)
Theorem solvePuzzle_spec (grid : SudokuGrid) :
  wf_grid grid ->
  exists b grid',
    solvePuzzle grid = Some (b, grid') /\
    (b = false -> grid' = grid /\ ~ exists s, completion grid s) /\
    (b = true -> full grid' /\ extends grid grid' /\
                 (conflict_free grid -> completion grid grid')) /\
    (conflict_free grid -> (b = false <-> ~ exists s, completion grid s)).
Proof.
  intros [Hshape Hdig]. unfold solvePuzzle. rewrite cloneGrid_id.
  destruct (solveRecursive_spec search_fuel grid grid) as ([[b w'] res'] & -> & Hpost);
    [done..|pose proof (empties_le grid); unfold search_fuel, GRID_SIZE; simpl; lia|].
  exists b, res'. split; [done|]. destruct b; cbn [solve_post] in Hpost.
  - destruct Hpost as (-> & Hw' & Hfull & Hext & Hdig' & Hfree).
    assert (conflict_free grid -> completion grid w') as Hcomp.
    { intros Hf. split; [|done]. split; [split|]; auto. }
    split; [done|]. split; [done|]. intros Hf. split; [done|].
    intros Hno. exfalso. apply Hno. eauto.
  - destruct Hpost as (-> & -> & Hnone).
    assert (~ exists s, completion grid s) as Hno by (intros [s Hs]; by eapply Hnone).
    split; [done|]. split; [done|]. done.
Qed.

(** A full board of ones: every cell is filled, every unit is in conflict. *)
Definition all_ones : SudokuGrid := replicate 9 (replicate 9 (Some 1)).

Lemma wf_grid_all_ones : wf_grid all_ones.
Proof.
  split.
  - split; [reflexivity|]. apply Forall_replicate. reflexivity.
  - intros r c n Hcell. unfold cell, all_ones in Hcell.
    destruct (replicate 9 (replicate 9 (Some 1)) !! r) as [cells|] eqn:Er; [|done].
    apply lookup_replicate in Er as [-> _].
    destruct (replicate 9 (Some 1) !! c) as [v|] eqn:Ec; [|done].
    apply lookup_replicate in Ec as [-> _]. injection Hcell as <-. lia.
Qed.

(** Checks by evaluation that a grid holds numbers 1 to 9 and that its
    filled cells do not conflict. *)
Lemma digits_ok_check grid :
  shape9 grid ->
  forallb (fun p => match cell grid (row p) (col p) with
                    | Some n => (1 <=? n) && (n <=? 9)
                    | None => true
                    end) getAllPositions = true ->
  digits_ok grid.
Proof.
  intros Hshape Hall r c n Hcell.
  destruct (cell_Some_inside _ _ _ _ Hshape Hcell) as [Hr Hc].
  rewrite forallb_forall in Hall. specialize (Hall (mkPosition r c)).
  cbn [row col] in Hall. rewrite Hcell in Hall.
  assert (Hin : In (mkPosition r c) getAllPositions).
  { apply list_elem_of_In, elem_of_getAllPositions. done. }
  apply Hall, andb_true_iff in Hin as [H1%Nat.leb_le H9%Nat.leb_le]. lia.
Qed.

Lemma conflict_free_check grid :
  forallb (fun p => match cell grid (row p) (col p) with
                    | Some n => isValidMove grid (row p) (col p) (Some n)
                    | None => true
                    end) getAllPositions = true ->
  conflict_free grid.
Proof.
  intros Hall r c n Hr Hc Hcell.
  rewrite forallb_forall in Hall. specialize (Hall (mkPosition r c)).
  cbn [row col] in Hall. rewrite Hcell in Hall.
  apply Hall, list_elem_of_In, elem_of_getAllPositions. done.
Qed.

(** A grid without conflicts that has no completion: the first row holds
    1 to 8 and leaves its last cell empty, and a 9 stands right below
    that cell. *)
Definition dead_end : SudokuGrid :=
  [Some 1; Some 2; Some 3; Some 4; Some 5; Some 6; Some 7; Some 8; None] ::
  (replicate 8 None ++ [Some 9]) ::
  replicate 7 (replicate 9 None).

Lemma wf_grid_dead_end : wf_grid dead_end.
Proof.
  assert (Hshape : shape9 dead_end) by (split; [reflexivity | repeat constructor]).
  split; [exact Hshape|]. apply digits_ok_check; [exact Hshape|]. vm_compute. reflexivity.
Qed.

Lemma conflict_free_dead_end : conflict_free dead_end.
Proof. apply conflict_free_check. vm_compute. reflexivity. Qed.

Lemma wf_grid_empty : wf_grid createEmptyGrid.
Proof.
  split; [apply shape9_createEmptyGrid|].
  apply digits_ok_check; [apply shape9_createEmptyGrid|]. vm_compute. reflexivity.
Qed.

Lemma conflict_free_empty : conflict_free createEmptyGrid.
Proof. apply conflict_free_check. vm_compute. reflexivity. Qed.

(** The theorem at two grids without conflicts: on [dead_end] the search
    returns [false], leaves the grid as it was, and no completion exists;
    on the empty grid it returns [true] and leaves a completion. *)
Lemma solvePuzzle_spec_witness :
  (wf_grid dead_end /\ conflict_free dead_end /\
   solvePuzzle dead_end = Some (false, dead_end) /\
   ~ exists s, completion dead_end s) /\
  (wf_grid createEmptyGrid /\ conflict_free createEmptyGrid /\
   exists grid',
     solvePuzzle createEmptyGrid = Some (true, grid') /\
     full grid' /\ completion createEmptyGrid grid').
Proof.
  split.
  - split; [exact wf_grid_dead_end|]. split; [exact conflict_free_dead_end|].
    destruct (solvePuzzle_spec dead_end wf_grid_dead_end)
      as (b & grid' & Hsolve & Hfalse & _ & Hiff).
    assert (Hrun : solvePuzzle dead_end = Some (false, dead_end))
      by (vm_compute; reflexivity).
    rewrite Hrun in Hsolve. injection Hsolve as <- <-.
    split; [exact Hrun|]. apply (Hiff conflict_free_dead_end). reflexivity.
  - split; [exact wf_grid_empty|]. split; [exact conflict_free_empty|].
    destruct (solvePuzzle_spec createEmptyGrid wf_grid_empty)
      as (b & grid' & Hsolve & _ & Htrue & _).
    assert (Hrun : exists g, solvePuzzle createEmptyGrid = Some (true, g))
      by (eexists; vm_compute; reflexivity).
    destruct Hrun as [g Hrun]. rewrite Hrun in Hsolve. injection Hsolve as <- <-.
    destruct (Htrue eq_refl) as (Hfull & _ & Hcomp).
    exists g. split; [exact Hrun|]. split; [exact Hfull|]. exact (Hcomp conflict_free_empty).
Defined.

(** The claim as stated fails on grids whose given cells conflict: the
    search never looks at the filled cells, so the full board of ones is
    reported solved although no completion of it exists. *)
Lemma solvePuzzle_accepts_conflicts :
  wf_grid all_ones /\
  solvePuzzle all_ones = Some (true, all_ones) /\
  ~ exists s, completion all_ones s.
Proof.
  split; [exact wf_grid_all_ones|]. split; [reflexivity|].
  intros (s & (_ & _ & Hfree) & Hext).
  assert (cell s 0 0 = Some 1) as H00 by (by apply Hext).
  assert (cell s 0 1 = Some 1) as H01 by (by apply Hext).
  specialize (Hfree 0 0 1 ltac:(lia) ltac:(lia) H00).
  rewrite isValidMove_true in Hfree by lia.
  apply (Hfree 0 1); [|done]. repeat split; [congruence|lia..|by left].
Qed.

End SolverFacts.

(** * Properties of the game session *)

Module SessionFacts.

Import SudokuEngine GameManager EngineFacts.

(** ** Sessions *)

(** What [startNewGame] establishes and every call keeps: both grids are
    9x9 and every recorded move lies on the board. *)
Definition session_ok (gd : GameData) : Prop :=
  shape9 (grid gd) /\ shape9 (originalGrid gd) /\
  Forall (fun mv => row (position mv) < 9 /\ col (position mv) < 9) (moveHistory gd).

Definition manager_ok (m : Manager) : Prop :=
  forall gd, gameData m = Some gd -> session_ok gd.

(** A session in play on an empty board whose givens are all empty. *)
Definition sample_session : GameData :=
  {| id := (0%Z, 0%Q); grid := createEmptyGrid; solution := createEmptyGrid;
     originalGrid := createEmptyGrid; difficulty := easy; timeElapsed := 0%Z;
     moveHistory := []; gameCompleted := false; createdAt := 0%Z |}.

Definition sample_manager : Manager :=
  {| gameData := Some sample_session; gameState := playing; startTime := 1%Z;
     pausedTime := 0%Z; timerInterval := true |}.

(** The same session with the cell (0, 0) given as 7. *)
Definition given_session : GameData :=
  {| id := (0%Z, 0%Q); grid := set_cell createEmptyGrid 0 0 (Some 7);
     solution := createEmptyGrid;
     originalGrid := set_cell createEmptyGrid 0 0 (Some 7); difficulty := easy;
     timeElapsed := 0%Z; moveHistory := []; gameCompleted := false; createdAt := 0%Z |}.

Definition given_manager : Manager :=
  {| gameData := Some given_session; gameState := playing; startTime := 1%Z;
     pausedTime := 0%Z; timerInterval := true |}.

Lemma js_nth_Some {A} (l : list A) (i : Z) (x : A) :
  js_nth l i = Some x <-> (0 <= i)%Z /\ l !! Z.to_nat i = Some x.
Proof.
  unfold js_nth. destruct (Z.ltb_spec i 0) as [Hi|Hi].
  - split; [done|]. intros [Hi' _]. lia.
  - split; [by intros ->|]. by intros [_ ->].
Qed.

Lemma js_nth_shape9_row (g : SudokuGrid) (i : Z) :
  shape9 g -> (0 <= i <= 8)%Z -> exists cells, js_nth g i = Some cells /\ length cells = 9.
Proof.
  intros [Hlen Hrows] Hi.
  destruct (lookup_lt_is_Some_2 g (Z.to_nat i)) as [cells Hcells]; [lia|].
  exists cells. split; [apply js_nth_Some; split; [lia|done]|].
  rewrite Forall_forall in Hrows. apply Hrows, list_elem_of_lookup. eauto.
Qed.

Lemma js_nth_out_of_range {A} (l : list A) (i : Z) :
  (i < 0 \/ Z.of_nat (length l) <= i)%Z -> js_nth l i = None.
Proof.
  intros Hi. unfold js_nth. destruct (Z.ltb_spec i 0); [done|].
  apply lookup_ge_None. lia.
Qed.

(** ** Rejected moves *)

(** C3, as the code has it.  A move is refused with [false] when there
    is no session, when the state is not [playing], when the row is on
    the board and the column is not, or when the position is a given
    cell.  A row outside the board in a session in play is not refused:
    the call raises a [TypeError].  In all these cases, and whenever a
    call does not return [true], the manager (the grid and the move
    history with it) is left as it was. *)
Theorem makeMove_rejected (m : Manager) (row col : Z) (value : CellValue) (now doneAt : Z) :
  (forall gd, gameData m = Some gd -> shape9 (originalGrid gd)) ->
  ((gameData m = None \/ gameState m <> playing \/
    ((0 <= row <= 8)%Z /\
     ((col < 0 \/ 8 < col)%Z \/
      exists gd n, gameData m = Some gd /\
                   cell (originalGrid gd) (Z.to_nat row) (Z.to_nat col) = Some n))) ->
   makeMove m row col value now doneAt = (m, Returned false)) /\
  (gameData m <> None -> gameState m = playing -> (row < 0 \/ 8 < row)%Z ->
   makeMove m row col value now doneAt = (m, TypeError)) /\
  (snd (makeMove m row col value now doneAt) <> Returned true ->
   fst (makeMove m row col value now doneAt) = m).
Proof.
  intros Hshape. split; [|split].
  - intros Hcase. unfold makeMove.
    destruct (gameData m) as [gd|] eqn:Egd; [|done].
    case_bool_decide as Hstate; [|done].
    destruct Hcase as [?|[?|[Hrow Hcase]]]; [done..|].
    destruct (js_nth_shape9_row (originalGrid gd) row (Hshape gd eq_refl) Hrow)
      as (cells & Erow & Hlen).
    rewrite Erow. apply js_nth_Some in Erow as [_ Erow].
    destruct Hcase as [Hcol|(gd' & n & [= <-] & Hcell)].
    + rewrite js_nth_out_of_range; [done|]. lia.
    + destruct (js_nth cells col) as [[k|]|] eqn:Ecol; [done| |done].
      apply js_nth_Some in Ecol as [Hcol Ecol].
      unfold cell in Hcell. rewrite Erow, Ecol in Hcell. done.
  - intros Hsome Hstate Hrow. unfold makeMove.
    destruct (gameData m) as [gd|] eqn:Egd; [|done].
    rewrite bool_decide_eq_true_2 by done.
    rewrite js_nth_out_of_range; [done|].
    destruct (Hshape gd eq_refl) as [-> _]. lia.
  - unfold makeMove. destruct (gameData m) as [gd|]; [|done].
    case_bool_decide; [|done].
    destruct (js_nth (originalGrid gd) row) as [ocells|]; [|done].
    destruct (js_nth ocells col) as [[k|]|]; [done| |done].
    destruct (js_nth (grid gd) row) as [cells|]; [|done].
    destruct (js_nth cells col) as [previous|]; [|done].
    by destruct (isCompleted _).
Qed.

Lemma makeMove_rejected_witness :
  (forall gd, gameData given_manager = Some gd -> shape9 (originalGrid gd)) /\
  makeMove given_manager 0 0 (Some 3) 5 6 = (given_manager, Returned false) /\
  makeMove given_manager 0 9 (Some 3) 5 6 = (given_manager, Returned false) /\
  makeMove given_manager (-1) 4 (Some 3) 5 6 = (given_manager, TypeError) /\
  fst (makeMove given_manager 12 4 (Some 3) 5 6) = given_manager.
Proof.
  assert (forall gd, gameData given_manager = Some gd -> shape9 (originalGrid gd)) as Hshape.
  { intros gd [= <-]. apply shape9_set_cell, shape9_createEmptyGrid. }
  split; [exact Hshape|]. split; [|split; [|split]].
  - apply (makeMove_rejected given_manager 0 0 (Some 3) 5 6 Hshape).
    right. right. split; [lia|]. right.
    exists given_session, 7. split; reflexivity.
  - apply (makeMove_rejected given_manager 0 9 (Some 3) 5 6 Hshape).
    right. right. split; [lia|]. left. lia.
  - apply (makeMove_rejected given_manager (-1) 4 (Some 3) 5 6 Hshape);
      [discriminate | reflexivity | lia].
  - apply (makeMove_rejected given_manager 12 4 (Some 3) 5 6 Hshape). discriminate.
Defined.

(** A row index outside the board is not refused: the lookup of the row
    yields [undefined] and indexing it raises, before anything is written. *)
Lemma makeMove_row_outside_raises :
  shape9 (originalGrid sample_session) /\
  gameState sample_manager = playing /\
  makeMove sample_manager 9 0 (Some 5) 0 0 = (sample_manager, TypeError).
Proof. split; [apply shape9_createEmptyGrid|]. split; reflexivity. Qed.

(** ** Undo *)

Lemma pop_snoc {A} (l : list A) (x : A) : pop (l ++ [x]) = Some (l, x).
Proof. unfold pop. by rewrite reverse_snoc, reverse_involutive. Qed.

Lemma pop_None {A} (l : list A) : pop l = None <-> l = [].
Proof.
  unfold pop. destruct (reverse l) as [|x l'] eqn:E; split; try done.
  - intros _. by rewrite <- (reverse_involutive l), E.
  - intros ->. by rewrite reverse_nil in E.
Qed.

Lemma pop_Some {A} (l l' : list A) (x : A) : pop l = Some (l', x) <-> l = l' ++ [x].
Proof.
  split; [|intros ->; apply pop_snoc].
  unfold pop. destruct (reverse l) as [|y k] eqn:E; [done|].
  intros [= <- <-]. by rewrite <- (reverse_involutive l), E, reverse_cons.
Qed.

(** What a successful [makeMove] does to the session. *)
Lemma makeMove_accepted m row col value now doneAt m1 :
  makeMove m row col value now doneAt = (m1, Returned true) ->
  exists gd cells previous,
    gameData m = Some gd /\ gameState m = playing /\ (0 <= row)%Z /\ (0 <= col)%Z /\
    grid gd !! Z.to_nat row = Some cells /\ cells !! Z.to_nat col = Some previous /\
    cell (originalGrid gd) (Z.to_nat row) (Z.to_nat col) = None /\
    exists gd1,
      gameData m1 = Some gd1 /\
      grid gd1 = set_cell (grid gd) (Z.to_nat row) (Z.to_nat col) value /\
      originalGrid gd1 = originalGrid gd /\
      moveHistory gd1 =
        moveHistory gd ++
        [{| position := mkPosition (Z.to_nat row) (Z.to_nat col);
            previousValue := previous; newValue := value; timestamp := now |}].
Proof.
  unfold makeMove. destruct (gameData m) as [gd|] eqn:Egd; [|done].
  case_bool_decide as Hstate; [|done].
  destruct (js_nth (originalGrid gd) row) as [ocells|] eqn:Eorow; [|done].
  destruct (js_nth ocells col) as [[k|]|] eqn:Eocol; [done| |done].
  destruct (js_nth (grid gd) row) as [cells|] eqn:Erow; [|done].
  destruct (js_nth cells col) as [previous|] eqn:Ecol; [|done].
  apply js_nth_Some in Eorow as [Hrow Eorow], Eocol as [Hcol Eocol].
  apply js_nth_Some in Erow as [_ Erow], Ecol as [_ Ecol].
  intros Hres. exists gd, cells, previous.
  do 6 (split; [done|]). split; [unfold cell; by rewrite Eorow, Eocol|].
  destruct (isCompleted _); injection Hres as <-; eexists; (split; [reflexivity|]); done.
Qed.

(** C4: undoing right after a successful move gives back the grid and the
    history the move started from, and [undoMove] of a session returns
    [false] exactly when the history is empty. *)
Theorem undo_after_move (m : Manager) (gd : GameData) :
  gameData m = Some gd ->
  (forall row col value now doneAt m1,
     makeMove m row col value now doneAt = (m1, Returned true) ->
     exists m2 gd2,
       undoMove m1 = (m2, Returned true) /\ gameData m2 = Some gd2 /\
       grid gd2 = grid gd /\ moveHistory gd2 = moveHistory gd) /\
  (snd (undoMove m) = Returned false <-> moveHistory gd = []).
Proof.
  intros Egd. split.
  - intros r c value now doneAt m1 Hmove.
    apply makeMove_accepted in Hmove
      as (gd0 & cells & previous & Egd0 & _ & _ & _ & Erow & Ecol & _ &
          gd1 & Egd1 & Egrid & _ & Ehist).
    assert (gd0 = gd) as -> by congruence.
    unfold undoMove. rewrite Egd1, Ehist, pop_snoc. cbn [grid dropLastMove position row col].
    rewrite Egrid. unfold set_cell at 1. rewrite list_lookup_alter_eq, Erow. cbn [fmap option_fmap option_map].
    rewrite length_insert.
    assert (Z.to_nat c < length cells) as Hlt by (by eapply lookup_lt_Some).
    apply Nat.ltb_lt in Hlt. rewrite Hlt.
    eexists _, _. split; [reflexivity|]. split; [reflexivity|].
    cbn [grid restoreCell dropLastMove moveHistory previousValue]. split; [|done].
    rewrite Egrid, set_cell_set_cell. by eapply set_cell_same.
  - unfold undoMove. rewrite Egd.
    destruct (pop (moveHistory gd)) as [[history lastMove]|] eqn:Epop.
    + apply pop_Some in Epop. rewrite Epop.
      split; [|by intros ?%app_nil%proj2].
      destruct (_ !! _); [destruct (_ <? _)|]; done.
    + apply pop_None in Epop. by rewrite Epop.
Qed.

Lemma undo_after_move_witness :
  gameData sample_manager = Some sample_session /\
  (exists m2 gd2,
     undoMove (fst (makeMove sample_manager 4 2 (Some 6) 10 11)) = (m2, Returned true) /\
     gameData m2 = Some gd2 /\
     grid gd2 = grid sample_session /\ moveHistory gd2 = moveHistory sample_session) /\
  (snd (undoMove sample_manager) = Returned false <-> moveHistory sample_session = []).
Proof.
  split; [reflexivity|].
  destruct (undo_after_move sample_manager sample_session eq_refl) as [Hundo Hempty].
  split; [|exact Hempty].
  apply (Hundo 4%Z 2%Z (Some 6) 10%Z 11%Z). reflexivity.
Defined.


Lemma undoMove_false m :
  snd (undoMove m) = Returned false <->
  gameData m = None \/ exists gd, gameData m = Some gd /\ moveHistory gd = [].
Proof.
  unfold undoMove. destruct (gameData m) as [gd|] eqn:Egd.
  2:{ split; [by left|done]. }
  destruct (pop (moveHistory gd)) as [[history lastMove]|] eqn:Epop.
  - apply pop_Some in Epop. split.
    + destruct (_ !! _); [destruct (_ <? _)|]; done.
    + intros [?|(gd' & [= <-] & Hnil)]; [done|].
      rewrite Hnil in Epop. by apply app_cons_not_nil in Epop.
  - apply pop_None in Epop. split; [|done]. intros _. right. eauto.
Qed.


(** A paused session with one recorded move. *)
Definition moved_session : GameData :=
  {| id := (0%Z, 0%Q); grid := set_cell createEmptyGrid 2 3 (Some 4);
     solution := createEmptyGrid; originalGrid := createEmptyGrid; difficulty := easy;
     timeElapsed := 0%Z;
     moveHistory := [{| position := mkPosition 2 3; previousValue := None;
                        newValue := Some 4; timestamp := 7%Z |}];
     gameCompleted := false; createdAt := 0%Z |}.

Definition paused_manager : Manager :=
  {| gameData := Some moved_session; gameState := paused; startTime := 1%Z;
     pausedTime := 8%Z; timerInterval := false |}.



(** ** Pause and resume *)

(** C9: [pauseGame] takes [playing] to [paused] and does nothing in any
    other state, [resumeGame] takes [paused] to [playing] and does nothing
    in any other state; neither touches the session data (the grid and the
    move history among them), and pausing then resuming a game in play
    leaves it in play. *)
Theorem pause_resume_spec (m : Manager) (now later : Z) :
  (gameState m = playing -> gameState (pauseGame m now) = paused) /\
  (gameState m <> playing -> pauseGame m now = m) /\
  (gameState m = paused -> gameState (resumeGame m now) = playing) /\
  (gameState m <> paused -> resumeGame m now = m) /\
  gameData (pauseGame m now) = gameData m /\
  gameData (resumeGame m now) = gameData m /\
  (gameState m = playing -> gameState (resumeGame (pauseGame m now) later) = playing).
Proof.
  unfold pauseGame, resumeGame.
  repeat split; try (intros Hstate); repeat case_bool_decide; try done;
    try (destruct (0 <? _)%Z; done).
  all: simpl in *; try congruence.
  all: try (destruct (0 <? _)%Z; simpl in *; congruence).
Qed.

Lemma pause_resume_spec_witness :
  gameState (pauseGame sample_manager 5) = paused /\
  pauseGame paused_manager 5 = paused_manager /\
  gameState (resumeGame paused_manager 9) = playing /\
  resumeGame sample_manager 9 = sample_manager /\
  gameState (resumeGame (pauseGame sample_manager 5) 9) = playing.
Proof.
  destruct (pause_resume_spec sample_manager 5 9) as (H1 & _ & _ & H4 & _ & _ & H7).
  destruct (pause_resume_spec paused_manager 5 9) as (_ & H2 & H3 & _).
  split; [apply H1; reflexivity|]. split; [apply H2; discriminate|].
  split; [apply H3; reflexivity|]. split; [apply H4; discriminate|].
  apply H7. reflexivity.
Defined.

(** ** The given grid *)

Lemma originalGrid_makeMove m r c value now doneAt :
  originalGrid <$> gameData (fst (makeMove m r c value now doneAt)) =
  originalGrid <$> gameData m.
Proof.
  unfold makeMove. destruct (gameData m) as [gd|] eqn:Egd; [|by (cbn [fst]; rewrite ?Egd)].
  case_bool_decide; [|by (cbn [fst]; rewrite ?Egd)].
  destruct (js_nth (originalGrid gd) r) as [ocells|]; [|by (cbn [fst]; rewrite ?Egd)].
  destruct (js_nth ocells c) as [[k|]|]; [by (cbn [fst]; rewrite ?Egd)| |by (cbn [fst]; rewrite ?Egd)].
  destruct (js_nth (grid gd) r) as [cells|]; [|by (cbn [fst]; rewrite ?Egd)].
  destruct (js_nth cells c) as [previous|]; [|by (cbn [fst]; rewrite ?Egd)].
  by destruct (isCompleted _).
Qed.

Lemma originalGrid_undoMove m :
  originalGrid <$> gameData (fst (undoMove m)) = originalGrid <$> gameData m.
Proof.
  unfold undoMove. destruct (gameData m) as [gd|] eqn:Egd; [|by (cbn [fst]; rewrite ?Egd)].
  destruct (pop (moveHistory gd)) as [[history lastMove]|]; [|by (cbn [fst]; rewrite ?Egd)].
  cbn [grid dropLastMove]. destruct (_ !! _); [destruct (_ <? _)|]; done.
Qed.

Lemma originalGrid_step m op :
  originalGrid <$> gameData (step m op) = originalGrid <$> gameData m.
Proof.
  destruct op as [r c value now doneAt| |now|now|k| |now]; cbn [step].
  - apply originalGrid_makeMove.
  - apply originalGrid_undoMove.
  - unfold pauseGame. by case_bool_decide.
  - unfold resumeGame. case_bool_decide; [|done]. by destruct (0 <? _)%Z.
  - done.
  - done.
  - unfold timerTick. destruct (gameData m) as [gd|] eqn:Egd; [|by (cbn [fst]; rewrite ?Egd)].
    case_bool_decide; [done|by (cbn [fst]; rewrite ?Egd)].
Qed.

(** C8: no sequence of moves, undos, pauses, resumes, hints, validations
    and timer ticks changes the given grid of the session; [startNewGame]
    installs a clone of the generated puzzle and [dispose] drops the
    session. *)
Theorem originalGrid_never_mutated :
  (forall (ops : list Op) (m : Manager),
     originalGrid <$> gameData (run ops m) = originalGrid <$> gameData m) /\
  (forall (rnd : nat -> Q) (m : Manager) (k : nat) (level : Difficulty) (t1 t2 t3 : Z),
     (fun r => originalGrid <$> gameData (fst r)) <$> startNewGame rnd m k level t1 t2 t3 =
     (fun r => Some (cloneGrid (fst (fst r)))) <$> generatePuzzle rnd k level) /\
  (forall m : Manager, gameData (dispose m) = None).
Proof.
  split; [|split].
  - intros ops. unfold run. induction ops as [|op ops IH]; intros m; [done|].
    cbn [fold_left]. by rewrite IH, originalGrid_step.
  - intros rnd m k level t1 t2 t3. unfold startNewGame.
    by destruct (generatePuzzle rnd k level) as [[[puzzle solved] k']|].
  - done.
Qed.

End SessionFacts.
(** * Completing the diagonal boxes

    Any three diagonal boxes, each holding a permutation of the nine
    digits, extend to a full valid grid.  Digits are numbered 0 to 8; a
    box is given by its row labeling and its column labeling.  In a band
    the three boxes give a digit three different rows, so the rows of a
    digit in the two other boxes are its row in the diagonal box plus and
    minus a sign (1 or 2, modulo 3); likewise for the columns in a stack.
    The statement [core] asks for sign vectors that make the six boxes off
    the diagonal bijective. *)

Module BoxFacts.

Import Labels.

(** ** Labelings and sign vectors *)

(** A labeling gives each of the nine digits a label 0, 1 or 2; a sign
    vector gives each a sign 1 or 2; a renumbering of the digits is a
    permutation of 0 to 8. *)
Definition lab (f : list nat) : Prop := length f = 9 /\ Forall (fun x => x < 3) f.
Definition sign (s : list nat) : Prop := length s = 9 /\ Forall (fun x => x = 1 \/ x = 2) s.
Abbreviation perm9 sigma := (sigma ≡ₚ seq 0 9).

(** ** The boolean checks *)

Lemma memb_spec x l : memb x l = true <-> x ∈ l.
Proof.
  induction l as [|y l IH]; simpl.
  - split; [done | by intros ?%elem_of_nil].
  - rewrite elem_of_cons. destruct (Nat.eqb_spec x y); [tauto|]. rewrite IH. tauto.
Qed.

Lemma nodupb_spec l : nodupb l = true <-> NoDup l.
Proof.
  induction l as [|x l IH]; simpl.
  - split; [constructor | done].
  - rewrite NoDup_cons. destruct (memb x l) eqn:E.
    + apply memb_spec in E. split; [done | tauto].
    + rewrite IH. split; [|tauto]. intros H; split; [|done].
      intros Hx%memb_spec. congruence.
Qed.

Lemma bool_eq_iff (a b : bool) : (a = true <-> b = true) -> a = b.
Proof. destruct a, b; intuition congruence. Qed.

Lemma nodupb_Permutation l l' : l ≡ₚ l' -> nodupb l = nodupb l'.
Proof. intros H. apply bool_eq_iff. rewrite !nodupb_spec. by rewrite H. Qed.

Lemma cnt_Permutation x l l' : l ≡ₚ l' -> cnt x l = cnt x l'.
Proof.
  induction 1; simpl; try congruence.
  - destruct (x =? x0); congruence.
  - destruct (x =? y), (x =? x0); reflexivity.
Qed.

Lemma anyb_spec {A} (f : A -> bool) l : anyb f l = true <-> exists x, x ∈ l /\ f x = true.
Proof.
  induction l as [|y l IH]; simpl.
  - split; [done | by intros (? & ?%elem_of_nil & _)].
  - destruct (f y) eqn:E.
    + split; [|done]. intros _. exists y. split; [left | done].
    + rewrite IH. split.
      * intros (x & ? & ?). exists x. split; [by right | done].
      * intros (x & [->|?]%elem_of_cons & ?); [congruence|]. by exists x.
Qed.

Lemma elem_of_filter_bool {A} (f : A -> bool) l x :
  x ∈ List.filter f l <-> x ∈ l /\ f x = true.
Proof. rewrite !list_elem_of_In. apply List.filter_In. Qed.

Lemma filter_Permutation {A} (f : A -> bool) l l' :
  l ≡ₚ l' -> List.filter f l ≡ₚ List.filter f l'.
Proof.
  induction 1; simpl.
  - done.
  - destruct (f x); [by constructor | done].
  - destruct (f x), (f y); try done. apply perm_swap.
  - etrans; eauto.
Qed.

Lemma filter_map_bool {A B} (g : A -> B) (f : B -> bool) l :
  List.filter f (map g l) = map g (List.filter (fun x => f (g x)) l).
Proof. induction l as [|x l IH]; simpl; [done|]. destruct (f (g x)); simpl; by rewrite IH. Qed.

Lemma filterb_ext_elem {A} (f g : A -> bool) l :
  (forall x, x ∈ l -> f x = g x) -> List.filter f l = List.filter g l.
Proof.
  induction l as [|x l IH]; intros H; simpl; [done|].
  rewrite (H x) by left. rewrite IH; [done|]. intros y ?. apply H. by right.
Qed.

Lemma elem_of_vecs vals n l :
  l ∈ vecs vals n <-> length l = n /\ Forall (fun x => x ∈ vals) l.
Proof.
  revert l. induction n as [|n IH]; intros l; simpl.
  - rewrite list_elem_of_singleton. split.
    + intros ->. split; [done | constructor].
    + intros [H _]. by destruct l.
  - rewrite list_elem_of_In, in_flat_map. split.
    + intros (l' & Hl'%list_elem_of_In%IH & (v & <- & Hv%list_elem_of_In)%in_map_iff).
      destruct Hl' as [Hlen HF]. split; [simpl; lia | by constructor].
    + intros [Hlen HF]. destruct l as [|v l']; [done|].
      apply Forall_cons_iff in HF as [Hv HF]. exists l'. split.
      * apply list_elem_of_In, IH. split; [simpl in Hlen; lia | done].
      * apply in_map_iff. exists v. split; [done | by apply list_elem_of_In].
Qed.

Lemma elem_of_signs s : s ∈ signs <-> sign s.
Proof.
  unfold signs, sign. rewrite elem_of_vecs. apply and_iff_compat_l.
  apply Forall_iff. intros x. rewrite !elem_of_cons, elem_of_nil. tauto.
Qed.

Lemma elem_of_labs f : f ∈ labs <-> lab f /\ balancedb f = true.
Proof.
  unfold labs, lab. rewrite elem_of_filter_bool, elem_of_vecs.
  apply and_iff_compat_r, and_iff_compat_l, Forall_iff. intros x.
  rewrite !elem_of_cons, elem_of_nil. lia.
Qed.

(** ** Renumbering the digits *)

(** The notions on labelings only depend on the labels the digits get, not
    on the way the digits are numbered. *)
Lemma perm9_lt sigma k : perm9 sigma -> k ∈ sigma -> k < 9.
Proof. intros H Hk. rewrite H in Hk. apply elem_of_seq in Hk. lia. Qed.

Lemma perm9_length sigma : perm9 sigma -> length sigma = 9.
Proof. intros H. by rewrite H. Qed.

Lemma perm9_surj sigma m : perm9 sigma -> m < 9 -> exists k, k < 9 /\ nth k sigma 0 = m.
Proof.
  intros H Hm. assert (Hin : m ∈ sigma) by (rewrite H; apply elem_of_seq; lia).
  apply list_elem_of_lookup in Hin as [k Hk]. exists k. split.
  - apply lookup_lt_Some in Hk. by rewrite (perm9_length _ H) in Hk.
  - by rewrite nth_lookup, Hk.
Qed.

Lemma nth_zip_with (op : nat -> nat -> nat) f g k :
  k < length f -> k < length g ->
  nth k (zip_with op f g) 0 = op (nth k f 0) (nth k g 0).
Proof.
  revert g k. induction f as [|a f IH]; intros [|b g] [|k] Hf Hg; simpl in *; try lia.
  apply IH; lia.
Qed.

Lemma map_nth_seq (f : list nat) : map (fun k => nth k f 0) (seq 0 (length f)) = f.
Proof.
  induction f as [|a f IH]; simpl; [done|]. f_equal.
  rewrite <- seq_shift, map_map. exact IH.
Qed.

Lemma compose_length f sigma : length (compose f sigma) = length sigma.
Proof. unfold compose. by rewrite length_map. Qed.

Lemma compose_Permutation f sigma :
  perm9 sigma -> length f = 9 -> compose f sigma ≡ₚ f.
Proof.
  intros H Hf. unfold compose. rewrite (Permutation_map _ H).
  rewrite <- Hf. by rewrite map_nth_seq.
Qed.

Lemma compose_zip_with (op : nat -> nat -> nat) f g sigma :
  perm9 sigma -> length f = 9 -> length g = 9 ->
  compose (zip_with op f g) sigma = zip_with op (compose f sigma) (compose g sigma).
Proof.
  intros H Hf Hg. unfold compose.
  assert (Hall : Forall (fun k => k < 9) sigma).
  { apply Forall_forall. intros k. apply perm9_lt, H. }
  clear H. induction Hall as [|k sigma Hk _ IH]; simpl; [done|].
  rewrite IH. f_equal. apply nth_zip_with; lia.
Qed.

Lemma compose_map (h : nat -> nat) f sigma :
  perm9 sigma -> length f = 9 ->
  compose (map h f) sigma = map h (compose f sigma).
Proof.
  intros H Hf. unfold compose. rewrite map_map. apply map_ext_in.
  intros k Hk%list_elem_of_In. apply (perm9_lt _ _ H) in Hk.
  rewrite (nth_indep _ 0 (h 0)) by (rewrite length_map; lia). apply map_nth.
Qed.

Lemma vneg_length s : length (vneg s) = length s.
Proof. unfold vneg. by rewrite length_map. Qed.

Lemma vadd_length f s : length f = 9 -> length s = 9 -> length (vadd f s) = 9.
Proof. intros Hf Hs. unfold vadd. rewrite length_zip_with. lia. Qed.

Lemma vsub_length f s : length f = 9 -> length s = 9 -> length (vsub f s) = 9.
Proof. intros. unfold vsub. apply vadd_length; [done|]. by rewrite vneg_length. Qed.

Lemma codes_length f g : length f = 9 -> length g = 9 -> length (codes f g) = 9.
Proof. intros Hf Hg. unfold codes. rewrite length_zip_with. lia. Qed.

Lemma compose_vadd f s sigma :
  perm9 sigma -> length f = 9 -> length s = 9 ->
  compose (vadd f s) sigma = vadd (compose f sigma) (compose s sigma).
Proof. apply compose_zip_with. Qed.

Lemma compose_vneg s sigma :
  perm9 sigma -> length s = 9 -> compose (vneg s) sigma = vneg (compose s sigma).
Proof. apply compose_map. Qed.

Lemma compose_vsub f s sigma :
  perm9 sigma -> length f = 9 -> length s = 9 ->
  compose (vsub f s) sigma = vsub (compose f sigma) (compose s sigma).
Proof.
  intros. unfold vsub. rewrite compose_vadd, compose_vneg; try done.
  by rewrite vneg_length.
Qed.

Lemma codes_compose f g sigma :
  perm9 sigma -> length f = 9 -> length g = 9 ->
  codes (compose f sigma) (compose g sigma) ≡ₚ codes f g.
Proof.
  intros H Hf Hg. unfold codes. rewrite <- compose_zip_with by done.
  apply compose_Permutation; [done|]. rewrite length_zip_with. lia.
Qed.

Lemma orthb_compose f g sigma :
  perm9 sigma -> length f = 9 -> length g = 9 ->
  orthb (compose f sigma) (compose g sigma) = orthb f g.
Proof. intros. unfold orthb. by apply nodupb_Permutation, codes_compose. Qed.

Lemma balancedb_Permutation f g : f ≡ₚ g -> balancedb f = balancedb g.
Proof. intros H. unfold balancedb. by rewrite !(cnt_Permutation _ _ _ H). Qed.

Lemma balancedb_compose f sigma :
  perm9 sigma -> length f = 9 -> balancedb (compose f sigma) = balancedb f.
Proof. intros. by apply balancedb_Permutation, compose_Permutation. Qed.

Lemma no3b_compose f g sigma :
  perm9 sigma -> length f = 9 -> length g = 9 ->
  no3b (compose f sigma) (compose g sigma) = no3b f g.
Proof.
  intros H Hf Hg. unfold no3b. generalize (seq 0 9) as cs.
  induction cs as [|c cs IH]; simpl; [done|].
  by rewrite IH, (cnt_Permutation _ _ _ (codes_compose f g sigma H Hf Hg)).
Qed.

Lemma aliveb_compose f g sigma :
  perm9 sigma -> length f = 9 -> length g = 9 ->
  aliveb (compose f sigma) (compose g sigma) = aliveb f g.
Proof. intros. unfold aliveb. by rewrite balancedb_compose, no3b_compose. Qed.

Lemma lab_compose f sigma : perm9 sigma -> lab f -> lab (compose f sigma).
Proof.
  intros H [Hlen HF]. split.
  - rewrite compose_length. by apply perm9_length.
  - by rewrite (compose_Permutation _ _ H Hlen).
Qed.

Lemma sign_compose s sigma : perm9 sigma -> sign s -> sign (compose s sigma).
Proof.
  intros H [Hlen HF]. split.
  - rewrite compose_length. by apply perm9_length.
  - by rewrite (compose_Permutation _ _ H Hlen).
Qed.

Lemma compose_inj f g sigma :
  perm9 sigma -> length f = 9 -> length g = 9 ->
  compose f sigma = compose g sigma -> f = g.
Proof.
  intros H Hf Hg Heq. apply (nth_ext _ _ 0 0); [congruence|].
  intros m Hm. rewrite Hf in Hm. destruct (perm9_surj _ _ H Hm) as (k & Hk & <-).
  assert (Hnth : forall h, nth k (compose h sigma) 0 = nth (nth k sigma 0) h 0).
  { intros h. unfold compose.
    rewrite (nth_indep _ 0 (nth 0 h 0)) by (rewrite length_map, (perm9_length _ H); lia).
    apply (map_nth (fun k => nth k h 0)). }
  by rewrite <- !Hnth, Heq.
Qed.

Lemma NoDup_signs : NoDup signs.
Proof.
  unfold signs. generalize 9. induction n as [|n IH]; simpl.
  - apply NoDup_singleton.
  - assert (Hin : forall x l ls,
      x :: l ∈ flat_map (fun l : list nat => [1 :: l; 2 :: l]) ls -> l ∈ ls).
    { intros x l ls (l' & Hl' & Hx)%list_elem_of_In%in_flat_map. simpl in Hx.
      apply list_elem_of_In. destruct Hx as [Hx|[Hx|[]]]; by injection Hx as _ <-. }
    induction IH as [|l ls Hl _ IH']; simpl; [constructor|].
    apply NoDup_cons. split; [|apply NoDup_cons; split; [|done]].
    + rewrite elem_of_cons. intros [?|?%Hin]; [discriminate | done].
    + intros ?%Hin. done.
Qed.

Lemma signs_compose sigma :
  perm9 sigma -> map (fun s => compose s sigma) signs ≡ₚ signs.
Proof.
  intros H. apply submseteq_length_Permutation.
  - apply NoDup_submseteq.
    + apply (NoDup_fmap_2_strong (fun s => compose s sigma)); [|apply NoDup_signs].
      intros s s' [Hs _]%elem_of_signs [Hs' _]%elem_of_signs. by apply compose_inj.
    + intros s' (s & <- & Hs%list_elem_of_In%elem_of_signs)%list_elem_of_In%in_map_iff.
      by apply elem_of_signs, sign_compose.
  - by rewrite length_map.
Qed.

(** ** Bijective boxes *)

Lemma sign_length s : sign s -> length s = 9.
Proof. by intros [? _]. Qed.

Lemma lab_length f : lab f -> length f = 9.
Proof. by intros [? _]. Qed.

Lemma code_inj a b a' b' :
  a < 3 -> b < 3 -> a' < 3 -> b' < 3 -> code a b = code a' b' -> a = a' /\ b = b'.
Proof.
  intros Ha Hb Ha' Hb'.
  destruct a as [|[|[|a]]], a' as [|[|[|a']]]; try lia; unfold code; lia.
Qed.

Lemma lab_nth f i : lab f -> nth i f 0 < 3.
Proof.
  intros [Hlen HF]. destruct (decide (i < length f)) as [Hi|Hi].
  - rewrite Forall_forall in HF. apply HF, list_elem_of_In, nth_In, Hi.
  - rewrite nth_overflow by lia. lia.
Qed.

Lemma lookup_nth (l : list nat) i : i < length l -> l !! i = Some (nth i l 0).
Proof.
  intros Hi. destruct (lookup_lt_is_Some_2 l i Hi) as [x Hx].
  by rewrite (nth_lookup_Some _ _ 0 _ Hx).
Qed.

Lemma codes_lookup f g i x :
  length f = 9 -> length g = 9 ->
  codes f g !! i = Some x <-> i < 9 /\ x = code (nth i f 0) (nth i g 0).
Proof.
  intros Hf Hg. split.
  - intros H. assert (Hi : i < 9).
    { apply lookup_lt_Some in H. by rewrite codes_length in H. }
    split; [done|]. apply (nth_lookup_Some _ _ 0) in H. rewrite <- H.
    apply nth_zip_with; lia.
  - intros [Hi ->]. rewrite lookup_nth by (rewrite codes_length; done || lia).
    f_equal. apply nth_zip_with; lia.
Qed.

Lemma orth_alt f g :
  lab f -> lab g ->
  orthb f g = true <->
  forall i j, i < 9 -> j < 9 -> nth i f 0 = nth j f 0 -> nth i g 0 = nth j g 0 -> i = j.
Proof.
  intros Hf Hg. unfold orthb. rewrite nodupb_spec, NoDup_alt.
  pose proof (proj1 Hf) as Hlf. pose proof (proj1 Hg) as Hlg. split.
  - intros H i j Hi Hj Hfe Hge. apply (H i j (code (nth i f 0) (nth i g 0))).
    + by apply codes_lookup.
    + apply codes_lookup; [done..|]. split; [done|]. by rewrite Hfe, Hge.
  - intros H i j x [Hi ->]%codes_lookup [Hj Hx]%codes_lookup; try done.
    apply code_inj in Hx as [? ?]; auto using lab_nth.
Qed.

Lemma elem_of_perms3 pi :
  pi ∈ perms3 -> forall a a', a < 3 -> a' < 3 ->
    nth a pi 0 < 3 /\ (nth a pi 0 = nth a' pi 0 -> a = a').
Proof.
  unfold perms3. rewrite !elem_of_cons, elem_of_nil.
  intros H a a' Ha Ha'.
  destruct a as [|[|[|a]]], a' as [|[|[|a']]]; try lia;
    repeat (destruct H as [->|H]; [simpl; split; [lia | try done; lia]|]); done.
Qed.

Lemma relabel_length pi f : length (relabel pi f) = length f.
Proof. unfold relabel. by rewrite length_map. Qed.

Lemma nth_relabel pi f i : i < length f -> nth i (relabel pi f) 0 = nth (nth i f 0) pi 0.
Proof.
  intros Hi. unfold relabel.
  rewrite (nth_indep _ 0 (nth 0 pi 0)) by (by rewrite length_map).
  apply (map_nth (fun a => nth a pi 0)).
Qed.

Lemma lab_relabel pi f : pi ∈ perms3 -> lab f -> lab (relabel pi f).
Proof.
  intros Hpi [Hlen HF]. split; [by rewrite relabel_length|].
  unfold relabel. apply Forall_forall. intros x (a & <- & Ha%list_elem_of_In)%list_elem_of_In%in_map_iff.
  rewrite Forall_forall in HF. apply (elem_of_perms3 pi Hpi a a); auto.
Qed.

Lemma orthb_relabel_l pi f g :
  pi ∈ perms3 -> lab f -> lab g -> orthb (relabel pi f) g = orthb f g.
Proof.
  intros Hpi Hf Hg. apply bool_eq_iff.
  rewrite !orth_alt by auto using lab_relabel.
  pose proof (lab_length _ Hf) as Hlen.
  split; intros H i j Hi Hj Hfe Hge; apply H; try done.
  - rewrite !nth_relabel by lia. by rewrite Hfe.
  - rewrite !nth_relabel in Hfe by lia.
    apply (elem_of_perms3 pi Hpi) in Hfe; auto using lab_nth.
Qed.

Lemma orthb_relabel_r pi f g :
  pi ∈ perms3 -> lab f -> lab g -> orthb f (relabel pi g) = orthb f g.
Proof.
  intros Hpi Hf Hg. apply bool_eq_iff.
  rewrite !orth_alt by auto using lab_relabel.
  pose proof (lab_length _ Hg) as Hlen.
  split; intros H i j Hi Hj Hfe Hge; apply H; try done.
  - rewrite !nth_relabel by lia. by rewrite Hge.
  - rewrite !nth_relabel in Hge by lia.
    apply (elem_of_perms3 pi Hpi) in Hge; auto using lab_nth.
Qed.

(** Closure of labelings under the operations. *)

Lemma add3_lt a b : a < 3 -> add3 a b < 3.
Proof. intros. destruct a as [|[|[|a]]], b as [|[|[|b]]]; simpl; lia. Qed.

Lemma lab_vadd f s : lab f -> length s = 9 -> lab (vadd f s).
Proof.
  intros [Hlen HF] Hs. split; [by apply vadd_length|].
  unfold vadd. clear Hlen Hs. revert s.
  induction HF as [|a f Ha _ IH]; intros [|b s]; simpl; constructor; auto using add3_lt.
Qed.

Lemma lab_vsub f s : lab f -> length s = 9 -> lab (vsub f s).
Proof. intros. apply lab_vadd; [done|]. by rewrite vneg_length. Qed.

Lemma sign_vneg s : sign s -> sign (vneg s).
Proof.
  intros [Hlen HF]. split; [by rewrite vneg_length|].
  unfold vneg. clear Hlen. induction HF as [|a s Ha _ IH]; simpl; constructor; [|done].
  destruct Ha as [->| ->]; simpl; auto.
Qed.

Lemma vneg_vneg s : vneg (vneg s) = s.
Proof.
  unfold vneg. rewrite map_map. rewrite <- (map_id s) at 2. apply map_ext.
  intros [|[|[|a]]]; done.
Qed.

Lemma vsub_vneg f s : vsub f (vneg s) = vadd f s.
Proof. unfold vsub. by rewrite vneg_vneg. Qed.

(** ** Counting the admitted options *)

Lemma signs_preimage sigma s' :
  perm9 sigma -> sign s' -> exists s, sign s /\ compose s sigma = s'.
Proof.
  intros H Hs'%elem_of_signs. rewrite <- (signs_compose sigma H) in Hs'.
  apply list_elem_of_In, in_map_iff in Hs' as (s & <- & Hs%list_elem_of_In%elem_of_signs).
  by exists s.
Qed.

Lemma anyb_signs_compose sigma (F F' : list nat -> bool) :
  perm9 sigma -> (forall t, sign t -> F' (compose t sigma) = F t) ->
  anyb F' signs = anyb F signs.
Proof.
  intros H HF. apply bool_eq_iff. rewrite !anyb_spec. split.
  - intros (t' & Ht'%elem_of_signs & HF').
    destruct (signs_preimage sigma t' H Ht') as (t & Ht & <-).
    exists t. split; [by apply elem_of_signs | by rewrite <- HF].
  - intros (t & Ht%elem_of_signs & HFt). exists (compose t sigma). split.
    + by apply elem_of_signs, sign_compose.
    + by rewrite HF.
Qed.

Lemma adm_compose sigma u p m :
  perm9 sigma -> length u = 9 -> length p = 9 -> length m = 9 ->
  adm (compose u sigma) (compose p sigma) (compose m sigma) = adm u p m.
Proof.
  intros H Hu Hp Hm. unfold adm. apply (anyb_signs_compose sigma); [done|].
  intros t [Ht _].
  rewrite <- compose_vadd, <- compose_vsub by done.
  rewrite !orthb_compose; auto using vadd_length, vsub_length.
Qed.

Lemma countb_Permutation {A} (P : A -> bool) l l' : l ≡ₚ l' -> countb P l = countb P l'.
Proof. intros H. unfold countb. by rewrite (filter_Permutation P _ _ H). Qed.

Lemma countb_map {A B} (g : A -> B) (P : B -> bool) l :
  countb P (map g l) = countb (fun x => P (g x)) l.
Proof. unfold countb. by rewrite filter_map_bool, length_map. Qed.

Lemma countb_ext_elem {A} (P Q : A -> bool) l :
  (forall x, x ∈ l -> P x = Q x) -> countb P l = countb Q l.
Proof. intros H. unfold countb. by rewrite (filterb_ext_elem P Q l H). Qed.

Lemma elem_of_options q s : s ∈ options q <-> sign s /\ balancedb (vadd q s) = true.
Proof. unfold options. by rewrite elem_of_filter_bool, elem_of_signs. Qed.

Lemma options_compose sigma q :
  perm9 sigma -> length q = 9 ->
  options (compose q sigma) ≡ₚ map (fun s => compose s sigma) (options q).
Proof.
  intros H Hq. unfold options.
  rewrite <- (filter_Permutation _ _ _ (signs_compose sigma H)).
  rewrite filter_map_bool.
  rewrite (filterb_ext_elem _ (fun s => balancedb (vadd q s)) signs); [done|].
  intros s [Hs _]%elem_of_signs.
  rewrite <- compose_vadd by done. apply balancedb_compose; auto using vadd_length.
Qed.

Lemma countb_options_compose sigma q (P P' : list nat -> bool) :
  perm9 sigma -> length q = 9 ->
  (forall s, sign s -> P' (compose s sigma) = P s) ->
  countb P' (options (compose q sigma)) = countb P (options q).
Proof.
  intros H Hq HP. rewrite (countb_Permutation _ _ _ (options_compose sigma q H Hq)).
  rewrite countb_map. apply countb_ext_elem. intros s [Hs _]%elem_of_options. by apply HP.
Qed.

Lemma options_length_compose sigma q :
  perm9 sigma -> length q = 9 -> length (options (compose q sigma)) = length (options q).
Proof. intros H Hq. by rewrite (options_compose sigma q H Hq), length_map. Qed.

Lemma deg1_compose sigma u p q :
  perm9 sigma -> length u = 9 -> length p = 9 -> length q = 9 ->
  deg1 (compose u sigma) (compose p sigma) (compose q sigma) = deg1 u p q.
Proof.
  intros H Hu Hp Hq. unfold deg1. apply countb_options_compose; [done..|].
  intros s [Hs _]. rewrite <- compose_vsub by done.
  apply adm_compose; auto using vsub_length.
Qed.

Lemma deg2_compose sigma u m q :
  perm9 sigma -> length u = 9 -> length m = 9 -> length q = 9 ->
  deg2 (compose u sigma) (compose m sigma) (compose q sigma) = deg2 u m q.
Proof.
  intros H Hu Hm Hq. unfold deg2. apply countb_options_compose; [done..|].
  intros s [Hs _]. rewrite <- compose_vadd by done.
  apply adm_compose; auto using vadd_length.
Qed.

Lemma dead_compose sigma u q :
  perm9 sigma -> length u = 9 -> length q = 9 ->
  dead (compose u sigma) (compose q sigma) = dead u q.
Proof.
  intros H Hu Hq. unfold dead. apply countb_options_compose; [done..|].
  intros s [Hs _]. rewrite <- compose_vsub by done.
  f_equal. apply aliveb_compose; auto using vsub_length.
Qed.

(** The value permutations leave [adm] unchanged. *)

Lemma adm_relabel pi u p m :
  pi ∈ perms3 -> lab u -> lab p -> lab m -> adm u p (relabel pi m) = adm u p m.
Proof.
  intros Hpi Hu Hp Hm. unfold adm. apply bool_eq_iff. rewrite !anyb_spec.
  split; intros (t & Ht & H); exists t; (split; [done|]);
    apply elem_of_signs in Ht as [Ht _];
    [rewrite orthb_relabel_l in H | rewrite orthb_relabel_l]; auto using lab_vsub.
Qed.

Lemma deg2_relabel pi u m q :
  pi ∈ perms3 -> lab u -> lab m -> lab q -> deg2 u (relabel pi m) q = deg2 u m q.
Proof.
  intros Hpi Hu Hm Hq. unfold deg2. apply countb_ext_elem.
  intros s [[Hs _] _]%elem_of_options. apply adm_relabel; auto using lab_vadd.
Qed.

(** The checkers compute [adm] from the list of admissible moves. *)

Lemma anyb_plusMoves u m x : anyb (orthb x) (plusMoves u m) = adm u x m.
Proof.
  unfold plusMoves, adm. apply bool_eq_iff. rewrite !anyb_spec. split.
  - intros (y & (t & <- & [Ht Hm]%list_elem_of_In%elem_of_filter_bool)%list_elem_of_In%in_map_iff & Hx).
    exists t. split; [done|]. by rewrite Hx, Hm.
  - intros (t & Ht & [Hx Hm]%andb_true_iff). exists (vadd u t). split; [|done].
    apply list_elem_of_In, in_map_iff. exists t. split; [done|].
    by apply list_elem_of_In, elem_of_filter_bool.
Qed.

Lemma anyb_minusMoves u p x : anyb (orthb x) (minusMoves u p) = adm u p x.
Proof.
  unfold minusMoves, adm. apply bool_eq_iff. rewrite !anyb_spec. split.
  - intros (y & (t & <- & [Ht Hm]%list_elem_of_In%elem_of_filter_bool)%list_elem_of_In%in_map_iff & Hx).
    exists t. split; [done|]. by rewrite Hx, Hm.
  - intros (t & Ht & [Hp Hx]%andb_true_iff). exists (vsub u t). split; [|done].
    apply list_elem_of_In, in_map_iff. exists t. split; [done|].
    by apply list_elem_of_In, elem_of_filter_bool.
Qed.

(** ** The finite checks, evaluated *)

Lemma eqlb_spec l k : eqlb l k = true -> l = k.
Proof.
  revert k. induction l as [|x l IH]; intros [|y k]; simpl; try done.
  destruct (Nat.eqb_spec x y); [|done]. intros ?%IH. congruence.
Qed.

Lemma is_perm9_spec sigma : is_perm9 sigma = true -> perm9 sigma.
Proof.
  unfold is_perm9. intros [Hlen%Nat.eqb_eq Hall]%andb_true_iff.
  symmetry. apply submseteq_length_Permutation.
  - apply NoDup_submseteq; [apply NoDup_seq|].
    intros m Hm. rewrite forallb_forall in Hall.
    by apply memb_spec, Hall, list_elem_of_In.
  - rewrite length_seq. lia.
Qed.

Lemma forallb_elem {A} (f : A -> bool) l x : forallb f l = true -> x ∈ l -> f x = true.
Proof. intros H Hx. rewrite forallb_forall in H. by apply H, list_elem_of_In. Qed.

Lemma sort_check_true : sort_check = true.
Proof. vm_compute. reflexivity. Qed.

Lemma block_check_true : block_check = true.
Proof. vm_compute. reflexivity. Qed.

Lemma block_orth_check_true : block_orth_check = true.
Proof. vm_compute. reflexivity. Qed.

Lemma canon_check_true : canon_check = true.
Proof. vm_compute. reflexivity. Qed.

Lemma side_check_true : side_check = true.
Proof. vm_compute. reflexivity. Qed.

Lemma deg1_check_true : deg1_check = true.
Proof. vm_compute. reflexivity. Qed.

Lemma deg2_check_true : deg2_check = true.
Proof. vm_compute. reflexivity. Qed.

Lemma dead_check_true : dead_check = true.
Proof. vm_compute. reflexivity. Qed.

Lemma options_check_true : options_check = true.
Proof. vm_compute. reflexivity. Qed.

Lemma sortperm_labs u :
  u ∈ labs -> is_perm9 (sortperm u) && eqlb (compose u (sortperm u)) base = true.
Proof.
  generalize sort_check_true. unfold sort_check. intros H Hu.
  exact (forallb_elem _ _ _ H Hu).
Qed.

Lemma blockperm_vecs m :
  m ∈ vecs [0; 1; 2] 9 ->
  is_perm9 (blockperm m) && eqlb (compose base (blockperm m)) base
    && sortedb (compose m (blockperm m)) = true.
Proof.
  generalize block_check_true. unfold block_check. intros H Hm.
  exact (forallb_elem _ _ _ H Hm).
Qed.

Lemma blockperm_orth m :
  m ∈ labs -> orthb m base = true -> compose m (blockperm m) = base2.
Proof.
  generalize block_orth_check_true. unfold block_orth_check. intros H Hm Ho.
  apply (forallb_elem _ _ _ H) in Hm. clear H. rewrite Ho in Hm.
  exact (eqlb_spec _ _ Hm).
Qed.

Lemma canon_labs m :
  m ∈ labs -> aliveb m base = true ->
  exists pi, pi ∈ perms3 /\ compose (relabel pi m) (blockperm (relabel pi m)) ∈ alive_reps.
Proof.
  generalize canon_check_true. unfold canon_check. intros H Hm Ha.
  apply (forallb_elem _ _ _ H) in Hm. clear H. rewrite Ha in Hm.
  apply anyb_spec in Hm as (pi & Hpi & Hm). exists pi. split; [exact Hpi|].
  apply anyb_spec in Hm as (r & Hr & Heq). apply eqlb_spec in Heq. rewrite Heq. exact Hr.
Qed.

Lemma side_labs p q :
  p ∈ side_reps -> q ∈ labs ->
  exists s, sign s /\ orthb (vadd base s) p = true /\ aliveb (vsub base s) q = true.
Proof.
  generalize side_check_true. unfold side_check. intros H Hp Hq.
  apply (forallb_elem _ _ _ H) in Hq. clear H.
  assert (Hin : List.filter (fun s => orthb (vadd base s) p) signs ∈ side_moves).
  { apply list_elem_of_In, in_map_iff. exists p. split; [reflexivity|].
    apply list_elem_of_In. exact Hp. }
  apply (forallb_elem _ _ _ Hq) in Hin. clear Hq.
  apply anyb_spec in Hin as (s & Hs & Ha).
  apply elem_of_filter_bool in Hs as [Hs Ho]. apply elem_of_signs in Hs.
  exists s. split; [exact Hs | split; [exact Ho | exact Ha]].
Qed.

Lemma deg1_labs q : q ∈ labs -> 32 <= deg1 base base2 q.
Proof.
  generalize deg1_check_true. unfold deg1_check. intros H Hq.
  apply (forallb_elem _ _ _ H), Nat.leb_le in Hq. clear H.
  rewrite countb_map in Hq. unfold deg1.
  rewrite (countb_ext_elem _ (fun s => anyb (orthb (vsub q s)) minus_moves)); [exact Hq|].
  intros s _. symmetry. apply anyb_minusMoves.
Qed.

Lemma deg2_labs m q : m ∈ alive_reps -> q ∈ labs -> 26 <= deg2 base m q.
Proof.
  generalize deg2_check_true. unfold deg2_check. intros H Hm Hq.
  apply (forallb_elem _ _ _ H) in Hq. clear H. cbv zeta in Hq.
  assert (Hin : plusMoves base m ∈ plus_moves).
  { apply list_elem_of_In, in_map_iff. exists m. split; [reflexivity|].
    apply list_elem_of_In. exact Hm. }
  apply (forallb_elem _ _ _ Hq), Nat.leb_le in Hin. clear Hq.
  rewrite countb_map in Hin. unfold deg2.
  rewrite (countb_ext_elem _ (fun s => anyb (orthb (vadd q s)) (plusMoves base m)));
    [exact Hin|].
  intros s _. symmetry. apply anyb_plusMoves.
Qed.

Lemma dead_labs q : q ∈ labs -> dead base q <= 8.
Proof.
  generalize dead_check_true. unfold dead_check. intros H Hq.
  apply (forallb_elem _ _ _ H), Nat.leb_le in Hq. exact Hq.
Qed.

Lemma options_base : length (options base) = 56.
Proof. generalize options_check_true. unfold options_check. intros H. exact (proj1 (Nat.eqb_eq _ _) H). Qed.

Lemma sortperm_spec u :
  lab u -> balancedb u = true -> perm9 (sortperm u) /\ compose u (sortperm u) = base.
Proof.
  intros Hu Hb. assert (Hin : u ∈ labs) by by apply elem_of_labs.
  apply sortperm_labs, andb_true_iff in Hin as [H1 H2].
  split; [by apply is_perm9_spec | by apply eqlb_spec].
Qed.

Lemma lab_vecs f : lab f <-> f ∈ vecs [0; 1; 2] 9.
Proof.
  unfold lab. rewrite elem_of_vecs. apply and_iff_compat_l, Forall_iff.
  intros x. rewrite !elem_of_cons, elem_of_nil. lia.
Qed.

Lemma blockperm_spec m :
  lab m ->
  perm9 (blockperm m) /\ compose base (blockperm m) = base /\ sortedb (compose m (blockperm m)) = true.
Proof.
  intros Hin%lab_vecs%blockperm_vecs.
  apply andb_true_iff in Hin as [[H1 H2]%andb_true_iff H3].
  split; [by apply is_perm9_spec | split; [by apply eqlb_spec | done]].
Qed.

(** Orthogonal labelings are balanced. *)

Definition rowOf (c : nat) : nat := match c with 0 | 1 | 2 => 0 | 3 | 4 | 5 => 1 | _ => 2 end.
Definition colOf (c : nat) : nat := match c with 0 | 3 | 6 => 0 | 1 | 4 | 7 => 1 | _ => 2 end.

Lemma codes_decode f g :
  length f = length g -> Forall (fun x => x < 3) f -> Forall (fun x => x < 3) g ->
  map rowOf (codes f g) = f /\ map colOf (codes f g) = g /\ Forall (fun c => c < 9) (codes f g).
Proof.
  intros Hlen Hf. revert g Hlen. induction Hf as [|a f Ha _ IH]; intros [|b g] Hlen Hg;
    try done.
  apply Forall_cons_iff in Hg as [Hb Hg]. simpl in Hlen.
  destruct (IH g ltac:(lia) Hg) as (IH1 & IH2 & IH3). simpl. rewrite IH1, IH2.
  split; [|split].
  - f_equal. destruct a as [|[|[|a]]], b as [|[|[|b]]]; try lia; done.
  - f_equal. destruct a as [|[|[|a]]], b as [|[|[|b]]]; try lia; done.
  - constructor; [|done]. destruct a as [|[|[|a]]]; unfold code; lia.
Qed.

Lemma orth_codes f g : lab f -> lab g -> orthb f g = true -> codes f g ≡ₚ seq 0 9.
Proof.
  intros [Hlf Hf] [Hlg Hg] H%nodupb_spec.
  destruct (codes_decode f g ltac:(congruence) Hf Hg) as (_ & _ & Hc).
  apply submseteq_length_Permutation.
  - apply NoDup_submseteq; [done|]. intros c Hin. rewrite Forall_forall in Hc.
    apply elem_of_seq. specialize (Hc c Hin). lia.
  - rewrite length_seq, codes_length; done.
Qed.

Lemma orth_balanced f g :
  lab f -> lab g -> orthb f g = true -> balancedb f = true /\ balancedb g = true.
Proof.
  intros Hf Hg H. pose proof (orth_codes f g Hf Hg H) as Hp.
  destruct Hf as [Hlf Hf], Hg as [Hlg Hg].
  destruct (codes_decode f g ltac:(congruence) Hf Hg) as (H1 & H2 & _). split.
  - rewrite <- H1, (balancedb_Permutation _ _ (Permutation_map rowOf Hp)). done.
  - rewrite <- H2, (balancedb_Permutation _ _ (Permutation_map colOf Hp)). done.
Qed.

(** *** The five counting bounds *)

Lemma options_length q : lab q -> balancedb q = true -> length (options q) = 56.
Proof.
  intros Hq Hb. destruct (sortperm_spec q Hq Hb) as [Hp Hc].
  rewrite <- (options_length_compose (sortperm q)), Hc by (done || by apply lab_length).
  exact options_base.
Qed.

Lemma dead_bound u q :
  lab u -> lab q -> balancedb u = true -> balancedb q = true -> dead u q <= 8.
Proof.
  intros Hu Hq Hbu Hbq. destruct (sortperm_spec u Hu Hbu) as [Hp Hc].
  rewrite <- (dead_compose (sortperm u)), Hc by (done || by apply lab_length).
  apply dead_labs, elem_of_labs. split; [by apply lab_compose|].
  rewrite balancedb_compose; done || by apply lab_length.
Qed.

(** The bounds carry over from [base] to any stack by renumbering the
    digits, and from the representatives to any rows by renaming labels. *)
Lemma lab_base : lab base.
Proof. split; [reflexivity | repeat constructor; lia]. Qed.

Lemma labs_compose sigma q :
  perm9 sigma -> lab q -> balancedb q = true -> compose q sigma ∈ labs.
Proof.
  intros H Hq Hb. apply elem_of_labs. split; [by apply lab_compose|].
  rewrite balancedb_compose; [exact Hb | exact H | by apply lab_length].
Qed.

Lemma deg1_bound u p q :
  lab u -> lab p -> lab q -> balancedb q = true -> orthb p u = true ->
  32 <= deg1 u p q.
Proof.
  intros Hu Hp Hq Hbq Ho.
  destruct (orth_balanced p u Hp Hu Ho) as [Hbp Hbu].
  pose proof (lab_length _ Hu) as Hlu. pose proof (lab_length _ Hp) as Hlp.
  pose proof (lab_length _ Hq) as Hlq.
  destruct (sortperm_spec u Hu Hbu) as [Hs1 Hc1].
  rewrite <- (deg1_compose (sortperm u) u p q), Hc1 by assumption.
  set (p1 := compose p (sortperm u)). set (q1 := compose q (sortperm u)).
  assert (Hp1 : p1 ∈ labs) by by apply labs_compose.
  assert (Hq1 : q1 ∈ labs) by by apply labs_compose.
  apply elem_of_labs in Hq1 as Hq1'. destruct Hq1' as [Hlq1 Hbq1].
  apply elem_of_labs in Hp1 as Hp1'. destruct Hp1' as [Hlp1 Hbp1].
  assert (Ho1 : orthb p1 base = true).
  { rewrite <- Hc1. unfold p1. rewrite orthb_compose; assumption. }
  destruct (blockperm_spec p1 Hlp1) as (Hs2 & Hc2 & _).
  pose proof (blockperm_orth p1 Hp1 Ho1) as Hc3.
  rewrite <- (deg1_compose (blockperm p1) base p1 q1), Hc2, Hc3;
    [|assumption|reflexivity|by apply lab_length|by apply lab_length].
  apply deg1_labs, labs_compose; assumption.
Qed.

Lemma deg2_bound u m q :
  lab u -> lab m -> lab q -> balancedb u = true -> balancedb q = true ->
  aliveb m u = true -> 26 <= deg2 u m q.
Proof.
  intros Hu Hm Hq Hbu Hbq Ha.
  pose proof (lab_length _ Hu) as Hlu. pose proof (lab_length _ Hm) as Hlm.
  pose proof (lab_length _ Hq) as Hlq.
  destruct (sortperm_spec u Hu Hbu) as [Hs1 Hc1].
  rewrite <- (deg2_compose (sortperm u) u m q), Hc1 by assumption.
  set (m1 := compose m (sortperm u)). set (q1 := compose q (sortperm u)).
  assert (Ha1 : aliveb m1 base = true).
  { rewrite <- Hc1. unfold m1. rewrite aliveb_compose; assumption. }
  assert (Hm1 : m1 ∈ labs).
  { apply elem_of_labs. split; [by apply lab_compose|].
    unfold aliveb in Ha1. by apply andb_true_iff in Ha1 as [? _]. }
  assert (Hq1 : q1 ∈ labs) by by apply labs_compose.
  apply elem_of_labs in Hq1 as Hq1'. destruct Hq1' as [Hlq1 Hbq1].
  apply elem_of_labs in Hm1 as Hm1'. destruct Hm1' as [Hlm1 Hbm1].
  destruct (canon_labs m1 Hm1 Ha1) as (pi & Hpi & Hrep).
  rewrite <- (deg2_relabel pi base m1 q1) by (assumption || apply lab_base).
  pose proof (lab_relabel pi m1 Hpi Hlm1) as Hlm'.
  destruct (blockperm_spec _ Hlm') as (Hs2 & Hc2 & _).
  rewrite <- (deg2_compose (blockperm (relabel pi m1)) base (relabel pi m1) q1), Hc2;
    [|assumption|reflexivity|by apply lab_length|by apply lab_length].
  apply deg2_labs; [assumption|]. apply labs_compose; assumption.
Qed.

Definition side (u p q : list nat) : Prop :=
  exists s, sign s /\ orthb (vadd u s) p = true /\ aliveb (vsub u s) q = true.

Lemma side_compose sigma u p q :
  perm9 sigma -> length u = 9 -> length p = 9 -> length q = 9 ->
  side (compose u sigma) (compose p sigma) (compose q sigma) -> side u p q.
Proof.
  intros H Hu Hp Hq (s' & Hs' & Ho & Ha).
  destruct (signs_preimage sigma s' H Hs') as (s & Hs & <-).
  pose proof (sign_length _ Hs) as Hls.
  rewrite <- compose_vadd in Ho by assumption.
  rewrite <- compose_vsub in Ha by assumption.
  rewrite orthb_compose in Ho by auto using vadd_length.
  rewrite aliveb_compose in Ha by auto using vsub_length.
  by exists s.
Qed.

Lemma first_side u p q :
  lab u -> lab p -> lab q ->
  balancedb u = true -> balancedb p = true -> balancedb q = true ->
  no3b u p = true -> side u p q.
Proof.
  intros Hu Hp Hq Hbu Hbp Hbq Hn.
  pose proof (lab_length _ Hu) as Hlu. pose proof (lab_length _ Hp) as Hlp.
  pose proof (lab_length _ Hq) as Hlq.
  destruct (sortperm_spec u Hu Hbu) as [Hs1 Hc1].
  apply (side_compose (sortperm u)); try assumption. rewrite Hc1.
  set (p1 := compose p (sortperm u)). set (q1 := compose q (sortperm u)).
  assert (Hp1 : p1 ∈ labs) by by apply labs_compose.
  assert (Hq1 : q1 ∈ labs) by by apply labs_compose.
  apply elem_of_labs in Hq1 as Hq1'. destruct Hq1' as [Hlq1 Hbq1].
  apply elem_of_labs in Hp1 as Hp1'. destruct Hp1' as [Hlp1 Hbp1].
  assert (Hn1 : no3b base p1 = true).
  { rewrite <- Hc1. unfold p1. rewrite no3b_compose; assumption. }
  destruct (blockperm_spec p1 Hlp1) as (Hs2 & Hc2 & Hsorted).
  apply (side_compose (blockperm p1));
    [assumption|reflexivity|by apply lab_length|by apply lab_length|].
  rewrite Hc2.
  destruct (side_labs (compose p1 (blockperm p1)) (compose q1 (blockperm p1)))
    as (s & Hs & Ho & Ha).
  - unfold side_reps. apply elem_of_filter_bool. split; [by apply labs_compose|].
    rewrite Hsorted. simpl. rewrite <- Hc2 at 1.
    rewrite no3b_compose; [assumption|assumption|reflexivity|by apply lab_length].
  - by apply labs_compose.
  - by exists s.
Qed.

(** *** Pigeonhole *)

Lemma countb_cons {A} (P : A -> bool) x l :
  countb P (x :: l) = (if P x then 1 else 0) + countb P l.
Proof. unfold countb. simpl. by destruct (P x). Qed.

Lemma countb_le_length {A} (P : A -> bool) l : countb P l <= length l.
Proof.
  induction l as [|x l IH]; [done|]. rewrite countb_cons. simpl. destruct (P x); lia.
Qed.

(** More elements pass [P] than pass [Q]: one passes [P] only. *)
Lemma pigeon_minus {A} (P Q : A -> bool) l :
  countb Q l < countb P l -> exists x, x ∈ l /\ P x = true /\ Q x = false.
Proof.
  induction l as [|x l IH]; [unfold countb; simpl; lia|].
  rewrite !countb_cons. destruct (P x) eqn:HP, (Q x) eqn:HQ; intros Hlt.
  - destruct IH as (y & ? & ?); [lia|]. exists y. split; [by right | done].
  - exists x. split; [left | done].
  - destruct IH as (y & ? & ?); [lia|]. exists y. split; [by right | done].
  - destruct IH as (y & ? & ?); [lia|]. exists y. split; [by right | done].
Qed.

(** [P] and [Q] together pass more often than the list is long: one
    element passes both. *)
Lemma pigeon_both {A} (P Q : A -> bool) l :
  length l < countb P l + countb Q l -> exists x, x ∈ l /\ P x = true /\ Q x = true.
Proof.
  induction l as [|x l IH]; [unfold countb; simpl; lia|].
  rewrite !countb_cons. simpl length.
  pose proof (countb_le_length P l). pose proof (countb_le_length Q l).
  destruct (P x) eqn:HP, (Q x) eqn:HQ; intros Hlt.
  - exists x. split; [left | done].
  - destruct IH as (y & ? & ?); [lia|]. exists y. split; [by right | done].
  - destruct IH as (y & ? & ?); [lia|]. exists y. split; [by right | done].
  - destruct IH as (y & ? & ?); [lia|]. exists y. split; [by right | done].
Qed.

(** ** The three bands *)

(** [core i0 j0 i1 j1 i2 j2]: the row labelings [i_a] and column labelings
    [j_a] of the three diagonal boxes admit sign vectors [s_a] (band [a])
    and [t_b] (stack [b]) that make the six remaining boxes bijective. *)
Definition core (i0 j0 i1 j1 i2 j2 : list nat) : Prop :=
  exists s0 s1 s2 t0 t1 t2,
    sign s0 /\ sign s1 /\ sign s2 /\ sign t0 /\ sign t1 /\ sign t2 /\
    orthb (vadd i0 s0) (vadd j1 t1) = true /\
    orthb (vadd i1 s1) (vadd j2 t2) = true /\
    orthb (vadd i2 s2) (vadd j0 t0) = true /\
    orthb (vsub i0 s0) (vsub j2 t2) = true /\
    orthb (vsub i1 s1) (vsub j0 t0) = true /\
    orthb (vsub i2 s2) (vsub j1 t1) = true.

Lemma adm_witness u p m :
  adm u p m = true ->
  exists t, sign t /\ orthb p (vadd u t) = true /\ orthb m (vsub u t) = true.
Proof.
  unfold adm. intros (t & Ht%elem_of_signs & [? ?]%andb_true_iff)%anyb_spec.
  by exists t.
Qed.

(** The statement is invariant under rotating the three bands, and under
    exchanging two of them when all signs are negated. *)
Lemma core_rot i0 j0 i1 j1 i2 j2 :
  core i0 j0 i1 j1 i2 j2 -> core i1 j1 i2 j2 i0 j0.
Proof.
  intros (s0 & s1 & s2 & t0 & t1 & t2 & H). exists s1, s2, s0, t1, t2, t0. tauto.
Qed.

Lemma core_mirror i0 j0 i1 j1 i2 j2 :
  core i0 j0 i1 j1 i2 j2 -> core i0 j0 i2 j2 i1 j1.
Proof.
  intros (s0 & s1 & s2 & t0 & t1 & t2 & H).
  exists (vneg s0), (vneg s2), (vneg s1), (vneg t0), (vneg t2), (vneg t1).
  rewrite !vsub_vneg. unfold vsub in H. intuition auto using sign_vneg.
Qed.

(** When the first band shares no block with the second stack, the signs
    are chosen band by band: [s0] fits the box of band 0 and stack 1 and
    keeps the other side of band 0 free of shared blocks; then at least 26
    options of band 1 pass stack 2 and at most 8 of them share a block
    with stack 0, which leaves a choice of [s1]; at last at least 32
    options of band 2 pass stack 1 and at least 26 pass stack 0, out of
    56, so one passes both. *)
Lemma triangle i0 j0 i1 j1 i2 j2 :
  lab i0 -> lab j0 -> lab i1 -> lab j1 -> lab i2 -> lab j2 ->
  balancedb i0 = true -> balancedb j0 = true -> balancedb i1 = true ->
  balancedb j1 = true -> balancedb i2 = true -> balancedb j2 = true ->
  no3b i0 j1 = true -> core i0 j0 i1 j1 i2 j2.
Proof.
  intros Li0 Lj0 Li1 Lj1 Li2 Lj2 Bi0 Bj0 Bi1 Bj1 Bi2 Bj2 Hgood.
  destruct (first_side i0 j1 j2) as (s0 & Hs0 & Ho0 & Ha0); try assumption.
  pose proof (sign_length _ Hs0) as Hl0.
  pose proof (deg1_bound j1 (vadd i0 s0) i2 Lj1 (lab_vadd _ _ Li0 Hl0) Li2 Bi2 Ho0) as HS.
  pose proof (deg2_bound j2 (vsub i0 s0) i1 Lj2 (lab_vsub _ _ Li0 Hl0) Li1 Bj2 Bi1 Ha0) as HS'.
  pose proof (dead_bound j0 i1 Lj0 Li1 Bj0 Bi1) as Hdead.
  destruct (pigeon_minus (fun s => adm j2 (vadd i1 s) (vsub i0 s0))
                         (fun s => negb (aliveb (vsub i1 s) j0)) (options i1))
    as (s1 & Hin1 & HS1 & Ha1).
  { unfold deg2 in HS'. unfold dead in Hdead. lia. }
  apply negb_false_iff in Ha1. apply elem_of_options in Hin1 as [Hs1 _].
  pose proof (sign_length _ Hs1) as Hl1.
  pose proof (deg2_bound j0 (vsub i1 s1) i2 Lj0 (lab_vsub _ _ Li1 Hl1) Li2 Bj0 Bi2 Ha1) as HT.
  destruct (pigeon_both (fun s => adm j1 (vadd i0 s0) (vsub i2 s))
                        (fun s => adm j0 (vadd i2 s) (vsub i1 s1)) (options i2))
    as (s2 & Hin2 & HS2 & HT2).
  { rewrite (options_length i2 Li2 Bi2). unfold deg1 in HS. unfold deg2 in HT. lia. }
  apply elem_of_options in Hin2 as [Hs2 _].
  apply adm_witness in HS1 as (t2 & Ht2 & H2a & H2b).
  apply adm_witness in HS2 as (t1 & Ht1 & H1a & H1b).
  apply adm_witness in HT2 as (t0 & Ht0 & H0a & H0b).
  exists s0, s1, s2, t0, t1, t2. tauto.
Qed.

(** ** Symmetries of the statement *)

Lemma orthb_sym f g : lab f -> lab g -> orthb f g = orthb g f.
Proof.
  intros Hf Hg. apply bool_eq_iff. rewrite !orth_alt by assumption.
  split; intros H i j Hi Hj H1 H2; by apply H.
Qed.

(** A value permutation is affine on [Z/3]: it commutes with adding a sign
    up to the twist of the sign. *)
Definition tw (rho : list nat) (x : nat) : nat :=
  add3 (nth (add3 0 x) rho 0) (neg1 (nth 0 rho 0)).

Definition twist (rho s : list nat) : list nat := map (tw rho) s.

Lemma tw_spec rho a x :
  rho ∈ perms3 -> a < 3 -> x = 1 \/ x = 2 ->
  nth (add3 a x) rho 0 = add3 (nth a rho 0) (tw rho x) /\
  tw rho (neg1 x) = neg1 (tw rho x) /\ (tw rho x = 1 \/ tw rho x = 2).
Proof.
  unfold perms3. rewrite !elem_of_cons, elem_of_nil. intros Hrho Ha Hx.
  destruct a as [|[|[|a]]]; try lia;
    destruct Hx as [-> | ->];
    repeat (destruct Hrho as [-> | Hrho]; [vm_compute; auto|]); done.
Qed.

Lemma twist_length rho s : length (twist rho s) = length s.
Proof. unfold twist. by rewrite length_map. Qed.

Lemma sign_twist rho s : rho ∈ perms3 -> sign s -> sign (twist rho s).
Proof.
  intros Hrho [Hlen HF]. split; [by rewrite twist_length|].
  unfold twist. clear Hlen. induction HF as [|x s Hx _ IH]; simpl; constructor; [|done].
  destruct (tw_spec rho 0 x Hrho) as (_ & _ & H3); [lia | done | done].
Qed.

Lemma twist_vneg rho s :
  rho ∈ perms3 -> sign s -> twist rho (vneg s) = vneg (twist rho s).
Proof.
  intros Hrho [_ HF]. unfold twist, vneg.
  induction HF as [|x s Hx _ IH]; simpl; [done|]. rewrite IH. f_equal.
  destruct (tw_spec rho 0 x Hrho) as (_ & H2 & _); [lia | done | done].
Qed.

Lemma relabel_vadd rho f s :
  rho ∈ perms3 -> lab f -> sign s ->
  relabel rho (vadd f s) = vadd (relabel rho f) (twist rho s).
Proof.
  intros Hrho [Hlf Hf] [Hls Hs]. unfold relabel, vadd, twist.
  clear Hlf Hls. revert s Hs. induction Hf as [|a f Ha _ IH]; intros s Hs; [done|].
  destruct Hs as [|x s Hx Hs]; [done|]. simpl. rewrite IH by done. f_equal.
  destruct (tw_spec rho a x Hrho) as (H1 & _ & _); done.
Qed.

Lemma relabel_vsub rho f s :
  rho ∈ perms3 -> lab f -> sign s ->
  relabel rho (vsub f s) = vsub (relabel rho f) (twist rho s).
Proof.
  intros Hrho Hf Hs. unfold vsub.
  rewrite relabel_vadd by auto using sign_vneg. by rewrite twist_vneg.
Qed.

(** Renaming the rows, or the columns, of a diagonal box. *)
Lemma core_relabel_i0 rho i0 j0 i1 j1 i2 j2 :
  rho ∈ perms3 -> lab i0 -> lab j1 -> lab j2 ->
  core i0 j0 i1 j1 i2 j2 -> core (relabel rho i0) j0 i1 j1 i2 j2.
Proof.
  intros Hrho Li0 Lj1 Lj2
    (s0 & s1 & s2 & t0 & t1 & t2 & Hs0 & Hs1 & Hs2 & Ht0 & Ht1 & Ht2 & H1 & H2 & H3 & H4 & H5 & H6).
  exists (twist rho s0), s1, s2, t0, t1, t2.
  rewrite <- relabel_vadd, <- relabel_vsub by assumption.
  rewrite !orthb_relabel_l by auto using lab_vadd, lab_vsub, sign_length.
  auto 15 using sign_twist.
Qed.

Lemma core_relabel_j0 rho i0 j0 i1 j1 i2 j2 :
  rho ∈ perms3 -> lab j0 -> lab i1 -> lab i2 ->
  core i0 j0 i1 j1 i2 j2 -> core i0 (relabel rho j0) i1 j1 i2 j2.
Proof.
  intros Hrho Lj0 Li1 Li2
    (s0 & s1 & s2 & t0 & t1 & t2 & Hs0 & Hs1 & Hs2 & Ht0 & Ht1 & Ht2 & H1 & H2 & H3 & H4 & H5 & H6).
  exists s0, s1, s2, (twist rho t0), t1, t2.
  rewrite <- relabel_vadd, <- relabel_vsub by assumption.
  rewrite !orthb_relabel_r by auto using lab_vadd, lab_vsub, sign_length.
  auto 15 using sign_twist.
Qed.

(** Renumbering the digits of an instance. *)
Lemma core_compose sigma i0 j0 i1 j1 i2 j2 :
  perm9 sigma ->
  length i0 = 9 -> length j0 = 9 -> length i1 = 9 ->
  length j1 = 9 -> length i2 = 9 -> length j2 = 9 ->
  core (compose i0 sigma) (compose j0 sigma) (compose i1 sigma)
       (compose j1 sigma) (compose i2 sigma) (compose j2 sigma) ->
  core i0 j0 i1 j1 i2 j2.
Proof.
  intros H Li0 Lj0 Li1 Lj1 Li2 Lj2
    (s0' & s1' & s2' & t0' & t1' & t2' & Hs0 & Hs1 & Hs2 & Ht0 & Ht1 & Ht2 & Hc).
  destruct (signs_preimage sigma s0' H Hs0) as (s0 & Hs0' & <-).
  destruct (signs_preimage sigma s1' H Hs1) as (s1 & Hs1' & <-).
  destruct (signs_preimage sigma s2' H Hs2) as (s2 & Hs2' & <-).
  destruct (signs_preimage sigma t0' H Ht0) as (t0 & Ht0' & <-).
  destruct (signs_preimage sigma t1' H Ht1) as (t1 & Ht1' & <-).
  destruct (signs_preimage sigma t2' H Ht2) as (t2 & Ht2' & <-).
  pose proof (sign_length _ Hs0'). pose proof (sign_length _ Hs1').
  pose proof (sign_length _ Hs2'). pose proof (sign_length _ Ht0').
  pose proof (sign_length _ Ht1'). pose proof (sign_length _ Ht2').
  rewrite <- !compose_vadd, <- !compose_vsub in Hc by assumption.
  rewrite !orthb_compose in Hc by auto using vadd_length, vsub_length.
  exists s0, s1, s2, t0, t1, t2. tauto.
Qed.

(** ** Instances where every band shares a block with every other stack *)

Lemma search_signs_sound i0 j0 i1 j1 i2 j2 :
  search_signs i0 j0 i1 j1 i2 j2 = true -> core i0 j0 i1 j1 i2 j2.
Proof.
  unfold search_signs. intros (s0 & [Hs0 _]%elem_of_options & H)%anyb_spec.
  cbv zeta in H. apply anyb_spec in H as (s1 & [Hs1 _]%elem_of_options & H).
  destruct (anyb _ (List.filter (fun t => orthb (vsub i0 s0) (vsub j2 t)) signs)) eqn:E2;
    [|discriminate].
  apply anyb_spec in E2 as (t2 & [Ht2 H4]%elem_of_filter_bool & H2).
  apply anyb_spec in H as (s2 & [Hs2 _]%elem_of_options & H).
  destruct (anyb _ (List.filter (fun t => orthb (vadd i0 s0) (vadd j1 t)) signs)) eqn:E1;
    [|discriminate].
  apply anyb_spec in E1 as (t1 & [Ht1 H1]%elem_of_filter_bool & H6).
  apply anyb_spec in H as (t0 & [Ht0 H5]%elem_of_filter_bool & H3).
  apply elem_of_signs in Ht0, Ht1, Ht2.
  exists s0, s1, s2, t0, t1, t2. tauto.
Qed.

Lemma shared_check_true : shared_check = true.
Proof. vm_compute. reflexivity. Qed.

Lemma norm_check_true : norm_check = true.
Proof. vm_compute. reflexivity. Qed.

Lemma shared_nlabs i1 j1 i2 j2 :
  i1 ∈ nlabs -> j1 ∈ nlabs -> i2 ∈ nlabs -> j2 ∈ nlabs ->
  orthb i1 j1 = true -> orthb i2 j2 = true ->
  no3b i1 base2 = false -> no3b base j1 = false ->
  no3b i2 base2 = false -> no3b i2 j1 = false ->
  no3b base j2 = false -> no3b i1 j2 = false ->
  core base base2 i1 j1 i2 j2.
Proof.
  generalize shared_check_true. unfold shared_check, shareb.
  intros H Hi1 Hj1 Hi2 Hj2 Ho1 Ho2 E1 E2 E3 E4 E5 E6.
  apply (forallb_elem _ _ _ H) in Hi1. clear H. rewrite E1 in Hi1. cbn [negb] in Hi1.
  apply (forallb_elem _ _ _ Hi1) in Hj1. clear Hi1. rewrite Ho1, E2 in Hj1. cbn [negb] in Hj1.
  apply (forallb_elem _ _ _ Hj1) in Hi2. clear Hj1. rewrite E3, E4 in Hi2. cbn [negb] in Hi2.
  apply (forallb_elem _ _ _ Hi2) in Hj2. clear Hi2. rewrite Ho2, E5, E6 in Hj2.
  cbn [negb] in Hj2.
  exact (search_signs_sound _ _ _ _ _ _ Hj2).
Qed.

Lemma normalise f :
  f ∈ labs ->
  exists pi rho, pi ∈ perms3 /\ rho ∈ perms3 /\
    relabel pi f ∈ nlabs /\ relabel rho (relabel pi f) = f.
Proof.
  generalize norm_check_true. unfold norm_check. intros H Hf.
  apply (forallb_elem _ _ _ H) in Hf. clear H.
  apply anyb_spec in Hf as (pi & Hpi & Hf).
  apply anyb_spec in Hf as (rho & Hrho & Hf).
  apply andb_true_iff in Hf as [Hn Hr].
  apply anyb_spec in Hn as (n & Hn & Heq). apply eqlb_spec in Heq, Hr.
  exists pi, rho. split; [exact Hpi|]. split; [exact Hrho|].
  split; [rewrite Heq; exact Hn | exact Hr].
Qed.

Lemma elem_of_nlabs f : f ∈ nlabs -> lab f /\ balancedb f = true.
Proof. unfold nlabs. intros [Hf _]%elem_of_filter_bool. by apply elem_of_labs. Qed.

(** One box off the diagonal whose row and column labelings share no
    block settles the instance, whichever box it is. *)
Lemma good_box i0 j0 i1 j1 i2 j2 :
  lab i0 -> lab j0 -> lab i1 -> lab j1 -> lab i2 -> lab j2 ->
  balancedb i0 = true -> balancedb j0 = true -> balancedb i1 = true ->
  balancedb j1 = true -> balancedb i2 = true -> balancedb j2 = true ->
  no3b i0 j1 = true \/ no3b i1 j2 = true \/ no3b i2 j0 = true \/
  no3b i0 j2 = true \/ no3b i1 j0 = true \/ no3b i2 j1 = true ->
  core i0 j0 i1 j1 i2 j2.
Proof.
  intros Li0 Lj0 Li1 Lj1 Li2 Lj2 Bi0 Bj0 Bi1 Bj1 Bi2 Bj2 [H|[H|[H|[H|[H|H]]]]].
  - by apply triangle.
  - apply core_rot, core_rot. by apply triangle.
  - apply core_rot. by apply triangle.
  - apply core_mirror. by apply triangle.
  - apply core_rot, core_rot, core_mirror. by apply triangle.
  - apply core_rot, core_mirror. by apply triangle.
Qed.

(** The instances whose first box is numbered row by row and whose other
    labelings are normal. *)
Lemma core_normal i1 j1 i2 j2 :
  i1 ∈ nlabs -> j1 ∈ nlabs -> i2 ∈ nlabs -> j2 ∈ nlabs ->
  orthb i1 j1 = true -> orthb i2 j2 = true ->
  core base base2 i1 j1 i2 j2.
Proof.
  intros Hi1 Hj1 Hi2 Hj2 Ho1 Ho2.
  destruct (elem_of_nlabs _ Hi1) as [Li1 Bi1]. destruct (elem_of_nlabs _ Hj1) as [Lj1 Bj1].
  destruct (elem_of_nlabs _ Hi2) as [Li2 Bi2]. destruct (elem_of_nlabs _ Hj2) as [Lj2 Bj2].
  assert (Lb2 : lab base2) by (split; [reflexivity | repeat constructor; lia]).
  destruct (no3b base j1) eqn:E1; [apply good_box; auto using lab_base|].
  destruct (no3b i1 j2) eqn:E2; [apply good_box; auto using lab_base|].
  destruct (no3b i2 base2) eqn:E3; [apply good_box; auto using lab_base|].
  destruct (no3b base j2) eqn:E4; [apply good_box; auto 7 using lab_base|].
  destruct (no3b i1 base2) eqn:E5; [apply good_box; auto 7 using lab_base|].
  destruct (no3b i2 j1) eqn:E6; [apply good_box; auto 7 using lab_base|].
  by apply shared_nlabs.
Qed.

(** Any three diagonal boxes admit a completion of the six other boxes. *)
Theorem core_exists i0 j0 i1 j1 i2 j2 :
  lab i0 -> lab j0 -> lab i1 -> lab j1 -> lab i2 -> lab j2 ->
  orthb i0 j0 = true -> orthb i1 j1 = true -> orthb i2 j2 = true ->
  core i0 j0 i1 j1 i2 j2.
Proof.
  intros Li0 Lj0 Li1 Lj1 Li2 Lj2 Ho0 Ho1 Ho2.
  destruct (orth_balanced _ _ Li0 Lj0 Ho0) as [Bi0 Bj0].
  destruct (orth_balanced _ _ Li1 Lj1 Ho1) as [Bi1 Bj1].
  destruct (orth_balanced _ _ Li2 Lj2 Ho2) as [Bi2 Bj2].
  destruct (sortperm_spec i0 Li0 Bi0) as [Hs1 Hc1].
  apply (core_compose (sortperm i0)); try (assumption || by apply lab_length).
  rewrite Hc1. set (s1 := sortperm i0) in *.
  assert (Hm : compose j0 s1 ∈ labs) by by apply labs_compose.
  assert (Lm : lab (compose j0 s1)) by by apply lab_compose.
  assert (Hom : orthb (compose j0 s1) base = true).
  { rewrite orthb_sym by auto using lab_base. rewrite <- Hc1.
    rewrite orthb_compose; assumption || by apply lab_length. }
  destruct (blockperm_spec _ Lm) as (Hs2 & Hc2 & _).
  pose proof (blockperm_orth _ Hm Hom) as Hc3.
  set (s2 := blockperm (compose j0 s1)) in *.
  apply (core_compose s2); try assumption;
    try (reflexivity || by apply lab_length, lab_compose).
  rewrite Hc2, Hc3.
  set (I1 := compose (compose i1 s1) s2). set (J1 := compose (compose j1 s1) s2).
  set (I2 := compose (compose i2 s1) s2). set (J2 := compose (compose j2 s1) s2).
  assert (LI1 : lab I1) by (apply lab_compose, lab_compose; assumption).
  assert (LJ1 : lab J1) by (apply lab_compose, lab_compose; assumption).
  assert (LI2 : lab I2) by (apply lab_compose, lab_compose; assumption).
  assert (LJ2 : lab J2) by (apply lab_compose, lab_compose; assumption).
  assert (HO1 : orthb I1 J1 = true).
  { unfold I1, J1. rewrite !orthb_compose; try assumption;
      first [by apply lab_length | by apply lab_length, lab_compose]. }
  assert (HO2 : orthb I2 J2 = true).
  { unfold I2, J2. rewrite !orthb_compose; try assumption;
      first [by apply lab_length | by apply lab_length, lab_compose]. }
  destruct (orth_balanced _ _ LI1 LJ1 HO1) as [BI1 BJ1].
  destruct (orth_balanced _ _ LI2 LJ2 HO2) as [BI2 BJ2].
  destruct (normalise I1) as (p1 & r1 & Hp1 & Hr1 & Hn1 & He1); [by apply elem_of_labs|].
  destruct (normalise J1) as (p2 & r2 & Hp2 & Hr2 & Hn2 & He2); [by apply elem_of_labs|].
  destruct (normalise I2) as (p3 & r3 & Hp3 & Hr3 & Hn3 & He3); [by apply elem_of_labs|].
  destruct (normalise J2) as (p4 & r4 & Hp4 & Hr4 & Hn4 & He4); [by apply elem_of_labs|].
  assert (Lb2 : lab base2) by (split; [reflexivity | repeat constructor; lia]).
  pose proof (lab_relabel _ _ Hp1 LI1) as LN1. pose proof (lab_relabel _ _ Hp2 LJ1) as LM1.
  pose proof (lab_relabel _ _ Hp3 LI2) as LN2. pose proof (lab_relabel _ _ Hp4 LJ2) as LM2.
  rewrite <- He1, <- He2, <- He3, <- He4.
  (* undo the four value permutations, one position at a time *)
  apply core_rot, core_rot, core_relabel_i0;
    [solve [auto using lab_base, lab_relabel] .. | apply core_rot].
  apply core_rot, core_rot, core_relabel_j0;
    [solve [auto using lab_base, lab_relabel] .. | apply core_rot].
  apply core_rot, core_relabel_i0;
    [solve [auto using lab_base, lab_relabel] .. | apply core_rot, core_rot].
  apply core_rot, core_relabel_j0;
    [solve [auto using lab_base, lab_relabel] .. | apply core_rot, core_rot].
  apply core_normal; try assumption.
  - rewrite orthb_relabel_l, orthb_relabel_r by assumption. exact HO1.
  - rewrite orthb_relabel_l, orthb_relabel_r by assumption. exact HO2.
Qed.

End BoxFacts.

(** * Properties of the generator *)

Module GeneratorFacts.

Import SudokuEngine EngineFacts SolverFacts Labels BoxFacts.

(** ** A grid from labelings *)

(** The digit, numbered from 0, that the labelings [rl] and [cl] of a box
    put at the offset [(r, c)]. *)
Definition digitAt (rl cl : list nat) (r c : nat) : nat :=
  match list_find (fun x => x = code r c) (codes rl cl) with
  | Some (k, _) => k
  | None => 0
  end.

Lemma code_lt r c : r < 3 -> c < 3 -> code r c < 9.
Proof. intros. destruct r as [|[|[|r]]]; unfold code; lia. Qed.

Lemma digitAt_spec rl cl r c :
  lab rl -> lab cl -> orthb rl cl = true -> r < 3 -> c < 3 ->
  digitAt rl cl r c < 9 /\
  nth (digitAt rl cl r c) rl 0 = r /\ nth (digitAt rl cl r c) cl 0 = c.
Proof.
  intros Hrl Hcl Ho Hr Hc. unfold digitAt.
  assert (Hin : code r c ∈ codes rl cl).
  { rewrite (orth_codes rl cl) by done. apply elem_of_seq. pose proof (code_lt r c). lia. }
  destruct (list_find_elem_of (fun x => x = code r c) _ _ Hin eq_refl) as [[k x] Hfind].
  rewrite Hfind. apply list_find_Some in Hfind as (Hlook & -> & _).
  apply codes_lookup in Hlook as [Hk Heq]; [|by apply lab_length..].
  apply code_inj in Heq as [-> ->]; auto using lab_nth.
Qed.

Lemma digitAt_unique rl cl k :
  lab rl -> lab cl -> orthb rl cl = true -> k < 9 ->
  digitAt rl cl (nth k rl 0) (nth k cl 0) = k.
Proof.
  intros Hrl Hcl Ho Hk.
  destruct (digitAt_spec rl cl (nth k rl 0) (nth k cl 0)) as (Hd & Hr & Hc);
    auto using lab_nth.
  by apply (proj1 (orth_alt rl cl Hrl Hcl) Ho).
Qed.

Section Labelled.

(** [rl a b] and [cl a b] are the row and column labelings of the box in
    band [a] and stack [b]. *)
Variables rl cl : nat -> nat -> list nat.

Hypothesis rl_lab : forall a b, a < 3 -> b < 3 -> lab (rl a b).
Hypothesis cl_lab : forall a b, a < 3 -> b < 3 -> lab (cl a b).
Hypothesis box_orth : forall a b, a < 3 -> b < 3 -> orthb (rl a b) (cl a b) = true.
Hypothesis row_distinct : forall a b b' k,
  a < 3 -> b < 3 -> b' < 3 -> k < 9 -> b <> b' -> nth k (rl a b) 0 <> nth k (rl a b') 0.
Hypothesis col_distinct : forall a a' b k,
  a < 3 -> a' < 3 -> b < 3 -> k < 9 -> a <> a' -> nth k (cl a b) 0 <> nth k (cl a' b) 0.

Definition labelledCell (R C : nat) : CellValue :=
  Some (S (digitAt (rl (R / 3) (C / 3)) (cl (R / 3) (C / 3)) (R mod 3) (C mod 3))).

Definition labelledGrid : SudokuGrid :=
  (fun R => (fun C => labelledCell R C) <$> seq 0 9) <$> seq 0 9.

Lemma cell_labelledGrid R C : R < 9 -> C < 9 -> cell labelledGrid R C = labelledCell R C.
Proof.
  intros HR HC. unfold cell, labelledGrid.
  rewrite list_lookup_fmap, lookup_seq_lt by done. cbn [fmap option_fmap option_map].
  by rewrite list_lookup_fmap, lookup_seq_lt.
Qed.

Lemma shape9_labelledGrid : shape9 labelledGrid.
Proof.
  split; [done|]. unfold labelledGrid. apply Forall_fmap, Forall_forall. by intros R _.
Qed.

Lemma labelledCell_inv R C n :
  R < 9 -> C < 9 -> labelledCell R C = Some n ->
  exists k, n = S k /\ k < 9 /\
    nth k (rl (R / 3) (C / 3)) 0 = R mod 3 /\ nth k (cl (R / 3) (C / 3)) 0 = C mod 3.
Proof.
  intros HR HC [= <-].
  assert (R / 3 < 3) by (apply Nat.Div0.div_lt_upper_bound; lia).
  assert (C / 3 < 3) by (apply Nat.Div0.div_lt_upper_bound; lia).
  pose proof (Nat.mod_upper_bound R 3 ltac:(lia)).
  pose proof (Nat.mod_upper_bound C 3 ltac:(lia)).
  eexists. split; [done|]. apply digitAt_spec; auto.
Qed.

Lemma is_solution_labelledGrid : is_solution labelledGrid.
Proof.
  pose proof shape9_labelledGrid as Hshape.
  split; [split; [done|]|split].
  - intros R C n Hcell.
    destruct (cell_Some_inside _ _ _ _ Hshape Hcell) as [HR HC].
    rewrite cell_labelledGrid in Hcell by done.
    apply labelledCell_inv in Hcell as (k & -> & Hk & _); [lia|done..].
  - intros R C HR HC. by rewrite cell_labelledGrid.
  - intros R C n HR HC Hcell. apply isValidMove_true; [done..|].
    intros R' C' (Hne & HR' & HC' & Hunit) Hcell'.
    rewrite cell_labelledGrid in Hcell, Hcell' by done.
    apply labelledCell_inv in Hcell as (k & -> & Hk & Hr & Hc); [|done..].
    apply labelledCell_inv in Hcell' as (k' & [= <-] & _ & Hr' & Hc'); [|done..].
    assert (R / 3 < 3) by (apply Nat.Div0.div_lt_upper_bound; lia).
    assert (C / 3 < 3) by (apply Nat.Div0.div_lt_upper_bound; lia).
    assert (R' / 3 < 3) by (apply Nat.Div0.div_lt_upper_bound; lia).
    assert (C' / 3 < 3) by (apply Nat.Div0.div_lt_upper_bound; lia).
    pose proof (Nat.div_mod_eq R 3). pose proof (Nat.div_mod_eq C 3).
    pose proof (Nat.div_mod_eq R' 3). pose proof (Nat.div_mod_eq C' 3).
    assert (Hsame : R' / 3 = R / 3 -> C' / 3 = C / 3 -> False).
    { intros Ea Eb. rewrite Ea, Eb in Hr', Hc'. apply Hne. f_equal; lia. }
    destruct Hunit as [->|[->|[Ea Eb]]]; [| |by apply Hsame].
    + destruct (decide (C' / 3 = C / 3)) as [Eb|Eb]; [by apply Hsame|].
      apply (row_distinct (R / 3) (C' / 3) (C / 3) k); auto. congruence.
    + destruct (decide (R' / 3 = R / 3)) as [Ea|Ea]; [by apply Hsame|].
      apply (col_distinct (R' / 3) (R / 3) (C / 3) k); auto. congruence.
Qed.

End Labelled.

(** ** The labelings of a filled box *)

(** The index at which the box [numbers] holds the digit [k + 1]. *)
Definition pos (numbers : list nat) (k : nat) : nat :=
  match list_find (fun d => d = S k) numbers with
  | Some (x, _) => x
  | None => 0
  end.

Definition rowLab (numbers : list nat) : list nat :=
  map (fun k => pos numbers k / 3) (seq 0 9).
Definition colLab (numbers : list nat) : list nat :=
  map (fun k => pos numbers k mod 3) (seq 0 9).

Lemma nth_map_seq (f : nat -> nat) n k : k < n -> nth k (map f (seq 0 n)) 0 = f k.
Proof.
  intros Hk. rewrite (nth_indep _ 0 (f 0)) by (by rewrite length_map, length_seq).
  rewrite map_nth, seq_nth by done. done.
Qed.

Section Box.

Variable numbers : list nat.
Hypothesis numbers_perm : numbers ≡ₚ seq 1 9.

Lemma pos_spec k : k < 9 -> pos numbers k < 9 /\ numbers !! pos numbers k = Some (S k).
Proof.
  intros Hk. unfold pos.
  assert (Hin : S k ∈ numbers) by (rewrite numbers_perm; apply elem_of_seq; lia).
  destruct (list_find_elem_of (fun d => d = S k) _ _ Hin eq_refl) as [[x d] Hfind].
  rewrite Hfind. apply list_find_Some in Hfind as (Hlook & -> & _).
  split; [|done]. apply lookup_lt_Some in Hlook. by rewrite numbers_perm in Hlook.
Qed.

Lemma pos_lookup x k : numbers !! x = Some (S k) -> pos numbers k = x.
Proof.
  intros Hx.
  assert (Hk : k < 9).
  { apply list_elem_of_lookup_2 in Hx. rewrite numbers_perm in Hx.
    apply elem_of_seq in Hx. lia. }
  destruct (pos_spec k Hk) as [_ Hp].
  assert (Hnd : NoDup numbers) by (rewrite numbers_perm; apply NoDup_seq).
  by apply (proj1 (NoDup_alt numbers) Hnd _ _ (S k)).
Qed.

Lemma lab_rowLab : lab (rowLab numbers).
Proof.
  split; [done|]. unfold rowLab. apply Forall_forall.
  intros x (k & <- & Hk%list_elem_of_In%elem_of_seq)%list_elem_of_In%in_map_iff.
  destruct (pos_spec k) as [Hp _]; [lia|]. apply Nat.Div0.div_lt_upper_bound. lia.
Qed.

Lemma lab_colLab : lab (colLab numbers).
Proof.
  split; [done|]. unfold colLab. apply Forall_forall.
  intros x (k & <- & Hk)%list_elem_of_In%in_map_iff.
  apply Nat.mod_upper_bound. lia.
Qed.

Lemma orthb_rowLab_colLab : orthb (rowLab numbers) (colLab numbers) = true.
Proof.
  apply orth_alt; [apply lab_rowLab | apply lab_colLab |].
  intros i j Hi Hj. unfold rowLab, colLab. rewrite !nth_map_seq by done.
  intros Hr Hc.
  destruct (pos_spec i Hi) as [_ Hpi]. destruct (pos_spec j Hj) as [_ Hpj].
  assert (Heq : pos numbers i = pos numbers j).
  { rewrite (Nat.div_mod_eq (pos numbers i) 3), (Nat.div_mod_eq (pos numbers j) 3). lia. }
  rewrite Heq in Hpi. congruence.
Qed.

(** The box holds at offset [(r, c)] the digit its labelings put there. *)
Lemma digitAt_box r c n :
  r < 3 -> c < 3 -> numbers !! (3 * r + c) = Some n ->
  Some (S (digitAt (rowLab numbers) (colLab numbers) r c)) = Some n.
Proof.
  intros Hr Hc Hn.
  assert (Hin : n ∈ seq 1 9) by (rewrite <- numbers_perm; by eapply list_elem_of_lookup_2).
  apply elem_of_seq in Hin. destruct n as [|k]; [lia|].
  apply pos_lookup in Hn as Hp. f_equal. f_equal.
  rewrite <- (digitAt_unique (rowLab numbers) (colLab numbers) k);
    auto using lab_rowLab, lab_colLab, orthb_rowLab_colLab; [|lia].
  unfold rowLab, colLab. rewrite !nth_map_seq by lia. rewrite Hp. f_equal.
  - rewrite Nat.mul_comm, Nat.div_add_l by lia. rewrite Nat.div_small by done. lia.
  - rewrite Nat.add_comm, Nat.mul_comm, Nat.Div0.mod_add. symmetry. by apply Nat.mod_small.
Qed.

End Box.

(** ** The grid the diagonal boxes are filled into *)

Definition boxRow (numbers : list nat) (r : nat) : list CellValue :=
  [numbers !! (3 * r); numbers !! (3 * r + 1); numbers !! (3 * r + 2)].

(** The empty grid with the boxes [n0], [n1] and [n2] on the diagonal. *)
Definition diagonalGrid (n0 n1 n2 : list nat) : SudokuGrid :=
  map (fun r => boxRow n0 r ++ replicate 6 None) (seq 0 3) ++
  map (fun r => replicate 3 None ++ boxRow n1 r ++ replicate 3 None) (seq 0 3) ++
  map (fun r => replicate 6 None ++ boxRow n2 r) (seq 0 3).

Definition pick {A} (a : nat) (x0 x1 x2 : A) : A :=
  match a with 0 => x0 | 1 => x1 | _ => x2 end.

Lemma shape9_diagonalGrid n0 n1 n2 : shape9 (diagonalGrid n0 n1 n2).
Proof. split; [done|]. repeat constructor. Qed.

Lemma cell_diagonalGrid n0 n1 n2 R C :
  R < 9 -> C < 9 ->
  cell (diagonalGrid n0 n1 n2) R C =
  if decide (R / 3 = C / 3) then pick (R / 3) n0 n1 n2 !! (3 * (R mod 3) + C mod 3) else None.
Proof.
  intros HR HC.
  do 9 (destruct R as [|R]; [do 9 (destruct C as [|C]; [reflexivity|]); lia|]); lia.
Qed.

(** The box in band [a] and stack [b] is the diagonal box (0), the box on
    the plus side (1) or the box on the minus side (2) of both. *)
Definition side_of (a b : nat) : nat :=
  if decide (b = a) then 0 else if decide (b = (a + 1) mod 3) then 1 else 2.

Definition shifted (c : nat) (x v : list nat) : list nat :=
  match c with 0 => x | 1 => vadd x v | _ => vsub x v end.

Lemma side_of_lt a b : side_of a b < 3.
Proof. unfold side_of. repeat case_decide; lia. Qed.

Lemma side_of_inj_r a b b' :
  a < 3 -> b < 3 -> b' < 3 -> b <> b' -> side_of a b <> side_of a b'.
Proof.
  intros Ha Hb Hb' Hne.
  destruct a as [|[|[|a]]], b as [|[|[|b]]], b' as [|[|[|b']]]; try lia; by vm_compute.
Qed.

Lemma side_of_inj_l a a' b :
  a < 3 -> a' < 3 -> b < 3 -> a <> a' -> side_of a b <> side_of a' b.
Proof.
  intros Ha Ha' Hb Hne.
  destruct a as [|[|[|a]]], a' as [|[|[|a']]], b as [|[|[|b]]]; try lia; by vm_compute.
Qed.

Lemma lab_shifted c x v : lab x -> sign v -> lab (shifted c x v).
Proof.
  intros Hx Hv. destruct c as [|[|c]]; simpl; auto using lab_vadd, lab_vsub, sign_length.
Qed.

Lemma sign_nth s k : sign s -> k < 9 -> nth k s 0 = 1 \/ nth k s 0 = 2.
Proof.
  intros [Hlen HF] Hk. rewrite Forall_forall in HF.
  apply HF, list_elem_of_In, nth_In. lia.
Qed.

Lemma shifted_distinct c c' x v k :
  lab x -> sign v -> k < 9 -> c < 3 -> c' < 3 -> c <> c' ->
  nth k (shifted c x v) 0 <> nth k (shifted c' x v) 0.
Proof.
  intros Hx Hv Hk Hc Hc' Hne.
  pose proof (lab_nth x k Hx) as Hxk. pose proof (sign_nth v k Hv Hk) as Hvk.
  pose proof (lab_length _ Hx) as Hlx. pose proof (sign_length _ Hv) as Hlv.
  assert (Ha : nth k (vadd x v) 0 = add3 (nth k x 0) (nth k v 0)).
  { apply nth_zip_with; lia. }
  assert (Hs : nth k (vsub x v) 0 = add3 (nth k x 0) (neg1 (nth k v 0))).
  { unfold vsub, vadd. rewrite nth_zip_with by (rewrite ?vneg_length; lia).
    f_equal. unfold vneg. exact (map_nth neg1 v 0 k). }
  destruct c as [|[|[|c]]], c' as [|[|[|c']]]; try lia; simpl; rewrite ?Ha, ?Hs;
    destruct (nth k x 0) as [|[|[|?]]]; try lia;
    destruct Hvk as [-> | ->]; simpl; lia.
Qed.

(** Three diagonal boxes that hold permutations of the digits extend to a
    full valid grid. *)
Lemma diagonal_completion n0 n1 n2 :
  n0 ≡ₚ seq 1 9 -> n1 ≡ₚ seq 1 9 -> n2 ≡ₚ seq 1 9 ->
  exists s, completion (diagonalGrid n0 n1 n2) s.
Proof.
  intros H0 H1 H2.
  destruct (core_exists (rowLab n0) (colLab n0) (rowLab n1) (colLab n1)
                        (rowLab n2) (colLab n2))
    as (s0 & s1 & s2 & t0 & t1 & t2 & Hs0 & Hs1 & Hs2 & Ht0 & Ht1 & Ht2 &
        C1 & C2 & C3 & C4 & C5 & C6);
    auto using lab_rowLab, lab_colLab, orthb_rowLab_colLab.
  set (rl := fun a b => shifted (side_of a b)
                (pick a (rowLab n0) (rowLab n1) (rowLab n2)) (pick a s0 s1 s2)).
  set (cl := fun a b => shifted (side_of a b)
                (pick b (colLab n0) (colLab n1) (colLab n2)) (pick b t0 t1 t2)).
  assert (Hli : forall a, lab (pick a (rowLab n0) (rowLab n1) (rowLab n2))).
  { intros [|[|a]]; simpl; auto using lab_rowLab. }
  assert (Hlj : forall b, lab (pick b (colLab n0) (colLab n1) (colLab n2))).
  { intros [|[|b]]; simpl; auto using lab_colLab. }
  assert (Hss : forall a, sign (pick a s0 s1 s2)) by (intros [|[|a]]; simpl; auto).
  assert (Hst : forall b, sign (pick b t0 t1 t2)) by (intros [|[|b]]; simpl; auto).
  exists (labelledGrid rl cl). split.
  - apply is_solution_labelledGrid.
    + intros a b _ _. by apply lab_shifted.
    + intros a b _ _. by apply lab_shifted.
    + intros a b Ha Hb. unfold rl, cl.
      destruct a as [|[|[|a]]], b as [|[|[|b]]]; try lia;
        cbn [pick shifted side_of]; first [by apply orthb_rowLab_colLab | assumption].
    + intros a b b' k Ha Hb Hb' Hk Hne. unfold rl.
      apply shifted_distinct; auto using side_of_lt, side_of_inj_r.
    + intros a a' b k Ha Ha' Hb Hk Hne. unfold cl.
      apply shifted_distinct; auto using side_of_lt, side_of_inj_l.
  - intros R C n Hcell.
    destruct (cell_Some_inside _ _ _ _ (shape9_diagonalGrid n0 n1 n2) Hcell) as [HR HC].
    rewrite cell_diagonalGrid in Hcell by done.
    rewrite cell_labelledGrid by done. unfold labelledCell.
    case_decide as Hab; [|done]. rewrite <- Hab.
    assert (Ha : R / 3 < 3) by (apply Nat.Div0.div_lt_upper_bound; lia).
    pose proof (Nat.mod_upper_bound R 3 ltac:(lia)).
    pose proof (Nat.mod_upper_bound C 3 ltac:(lia)).
    unfold rl, cl, side_of. rewrite decide_True by done. cbn [shifted].
    clear Hab. revert Hcell Ha. generalize (R / 3) as a. intros a Hcell Ha.
    destruct a as [|[|[|a]]]; try lia; cbn [pick] in *; by apply digitAt_box.
Qed.

(** ** fillRemaining *)

(** The cells the calls of [fillRemaining] work on, from the call at
    [(row, col)] to the call that returns [true] at once. *)
Fixpoint fillTrace (fuel row col : nat) : option (list (nat * nat)) :=
  match fuel with
  | 0 => None
  | S fuel' =>
    match fillTarget row col with
    | None => Some []
    | Some (r, c) =>
      match fillTrace fuel' r (c + 1) with
      | Some cells => Some ((r, c) :: cells)
      | None => None
      end
    end
  end.

(** The search of [fillRemaining] over an explicit list of cells. *)
Fixpoint fillList (cells : list (nat * nat)) (grid : SudokuGrid) : option (bool * SudokuGrid) :=
  match cells with
  | [] => Some (true, grid)
  | (r, c) :: rest => fillCandidates (fillList rest) r c candidates grid
  end.

(** The cells off the diagonal boxes, row by row. *)
Definition fillOrder : list (nat * nat) :=
  List.filter (fun '(r, c) => negb (r / 3 =? c / 3))
              (flat_map (fun r => map (fun c => (r, c)) (seq 0 9)) (seq 0 9)).

Lemma fillTrace_start : fillTrace search_fuel 0 BOX_SIZE = Some fillOrder.
Proof. vm_compute. reflexivity. Qed.

Lemma fillCandidates_ext rec1 rec2 r c nums grid :
  (forall g, rec1 g = rec2 g) ->
  fillCandidates rec1 r c nums grid = fillCandidates rec2 r c nums grid.
Proof.
  intros Hrec. revert grid. induction nums as [|num nums IH]; intros grid; [done|].
  cbn [fillCandidates]. rewrite Hrec.
  destruct (isValidMove grid r c (Some num)); [|apply IH].
  destruct (rec2 _) as [[[] g]|]; [done|apply IH|done].
Qed.

Lemma fillRemaining_fillList fuel row col cells grid :
  fillTrace fuel row col = Some cells ->
  fillRemaining fuel grid row col = fillList cells grid.
Proof.
  revert row col cells grid.
  induction fuel as [|fuel IH]; intros row col cells grid Htrace; [done|].
  cbn [fillTrace fillRemaining] in *.
  destruct (fillTarget row col) as [[r c]|]; [|by injection Htrace as <-].
  destruct (fillTrace fuel r (c + 1)) as [rest|] eqn:Erest; [|done].
  injection Htrace as <-. cbn [fillList].
  apply fillCandidates_ext. intros g. by apply IH.
Qed.

Lemma elem_of_fillOrder r c :
  (r, c) ∈ fillOrder <-> r < 9 /\ c < 9 /\ r / 3 <> c / 3.
Proof.
  unfold fillOrder. rewrite elem_of_filter_bool, list_elem_of_In, in_flat_map.
  rewrite negb_true_iff, Nat.eqb_neq. split.
  - intros [(r' & Hr'%in_seq & (c' & [= <- <-] & Hc'%in_seq)%in_map_iff) Hne]. lia.
  - intros (Hr & Hc & Hne). split; [|done]. exists r. split; [apply in_seq; lia|].
    apply in_map_iff. exists c. split; [done | apply in_seq; lia].
Qed.

Lemma NoDup_fillOrder : NoDup fillOrder.
Proof. apply (bool_decide_unpack (NoDup fillOrder)). vm_compute. exact I. Qed.

(** The contract of the search over [cells], all empty in [grid]: on
    [true] the cells are filled and nothing else has changed, on [false]
    the grid is as it was and has no completion. *)
Definition fill_pre (cells : list (nat * nat)) (grid : SudokuGrid) : Prop :=
  shape9 grid /\ forall r c, (r, c) ∈ cells -> r < 9 /\ c < 9 /\ cell grid r c = None.

Definition filled_from (cells : list (nat * nat)) (grid g' : SudokuGrid) : Prop :=
  shape9 g' /\ extends grid g' /\
  (forall r c, (r, c) ∈ cells -> cell g' r c <> None) /\
  (forall r c, (r, c) ∉ cells -> cell g' r c = cell grid r c) /\
  (digits_ok grid -> digits_ok g') /\ (conflict_free grid -> conflict_free g').

Definition fill_post (cells : list (nat * nat)) (grid : SudokuGrid)
    (out : bool * SudokuGrid) : Prop :=
  match out with
  | (true, g') => filled_from cells grid g'
  | (false, g') => g' = grid /\ forall s, ~ completion grid s
  end.

Lemma fillCandidates_spec recurse rest r c nums grid :
  (forall g, fill_pre rest g -> exists out, recurse g = Some out /\ fill_post rest g out) ->
  fill_pre ((r, c) :: rest) grid -> (r, c) ∉ rest ->
  (forall n, n ∈ nums -> 1 <= n <= 9) ->
  exists out, fillCandidates recurse r c nums grid = Some out /\
    match out with
    | (true, g') => filled_from ((r, c) :: rest) grid g'
    | (false, g') =>
      g' = grid /\
      forall s, completion grid s -> forall n, cell s r c = Some n -> n ∉ nums
    end.
Proof.
  intros Hrec [Hshape Hcells] Hnotin.
  destruct (Hcells r c ltac:(left)) as (Hr & Hc & Hnone).
  induction nums as [|num nums IH]; intros Hnums; cbn [fillCandidates].
  { eexists. split; [reflexivity|]. split; [done|]. intros s _ n _. apply not_elem_of_nil. }
  assert (forall n, n ∈ nums -> 1 <= n <= 9) as Hnums'.
  { intros n Hn. apply Hnums. by apply elem_of_cons; right. }
  destruct (IH Hnums') as (out & Hout & Hpost). clear IH.
  destruct (isValidMove grid r c (Some num)) eqn:Hvalid.
  - set (g1 := set_cell grid r c (Some num)).
    assert (shape9 g1) as Hg1 by (by apply shape9_set_cell).
    assert (fill_pre rest g1) as Hpre1.
    { split; [done|]. intros r' c' Hin.
      destruct (Hcells r' c' ltac:(by right)) as (Hr' & Hc' & Hnone').
      split; [done|]. split; [done|]. unfold g1. rewrite cell_set_cell_ne; [done..|].
      intros [= -> ->]. done. }
    destruct (Hrec g1 Hpre1) as ([[] g'] & -> & Hpost1); cbn [fill_post] in Hpost1.
    + destruct Hpost1 as (Hg' & Hext & Hfilled & Hsame & Hdig & Hfree).
      eexists. split; [reflexivity|].
      assert (cell g' r c = Some num) as Hcell.
      { apply Hext. by apply cell_set_cell_eq. }
      split; [done|]. split; [|split; [|split; [|split]]].
      * eapply extends_trans; [|exact Hext]. by apply extends_set_cell.
      * intros r' c' [[= -> ->]|Hin]%elem_of_cons; [by rewrite Hcell | by apply Hfilled].
      * intros r' c' Hnin. apply not_elem_of_cons in Hnin as [Hne Hnin].
        rewrite Hsame by done. unfold g1. by rewrite cell_set_cell_ne.
      * intros Hd. apply Hdig, digits_ok_set_cell; try done.
        apply Hnums. by apply elem_of_cons; left.
      * intros Hf. by apply Hfree, conflict_free_set_cell.
    + destruct Hpost1 as (-> & Hnone1).
      assert (set_cell g1 r c None = grid) as ->.
      { unfold g1. rewrite set_cell_set_cell, <- Hnone. by apply set_cell_cell. }
      exists out. split; [done|]. destruct out as [[] g'']; [done|].
      destruct Hpost as (-> & Hrest). split; [done|].
      intros s Hs n Hcell [->|Hin]%elem_of_cons; [|by eapply Hrest].
      apply (Hnone1 s). by apply completion_set_cell.
  - exists out. split; [done|]. destruct out as [[] g'']; [done|].
    destruct Hpost as (-> & Hrest). split; [done|].
    intros s Hs n Hcell [->|Hin]%elem_of_cons; [|by eapply Hrest].
    pose proof (completion_valid grid s r c num Hs Hr Hc Hcell). congruence.
Qed.

Lemma fillList_spec cells grid :
  NoDup cells -> fill_pre cells grid ->
  exists out, fillList cells grid = Some out /\ fill_post cells grid out.
Proof.
  intros Hnd. revert grid. induction Hnd as [|[r c] rest Hnotin Hnd IH]; intros grid Hpre.
  - exists (true, grid). split; [done|]. destruct Hpre as [Hshape _].
    split; [done|]. split; [apply extends_refl|].
    split; [by intros r c ?%elem_of_nil|]. done.
  - cbn [fillList].
    destruct (fillCandidates_spec (fillList rest) rest r c candidates grid)
      as (out & Hout & Hpost); try done; [intros n; apply elem_of_candidates|].
    exists out. split; [done|]. destruct out as [[] g']; [done|].
    destruct Hpost as (-> & Hrest). split; [done|]. intros s Hs.
    destruct Hpre as [Hshape Hcells]. destruct (Hcells r c ltac:(left)) as (Hr & Hc & _).
    pose proof Hs as [((_ & Hdig) & Hfull & _) _].
    destruct (cell s r c) as [n|] eqn:Hcell; [|by apply (Hfull r c)].
    apply (Hrest s Hs n Hcell). apply elem_of_candidates. by eapply Hdig.
Qed.

(** ** The rows, columns and boxes of a grid *)

Definition unitCells (grid : SudokuGrid) (ps : list (nat * nat)) : list CellValue :=
  map (fun '(r, c) => cell grid r c) ps.

Definition rowPositions (r : nat) : list (nat * nat) := map (fun c => (r, c)) (seq 0 9).
Definition colPositions (c : nat) : list (nat * nat) := map (fun r => (r, c)) (seq 0 9).
Definition boxPositions (b : nat) : list (nat * nat) :=
  flat_map (fun r => map (fun c => (r, c)) (seq (b mod 3 * 3) 3)) (seq (b / 3 * 3) 3).

(** Every row, column and box is a permutation of 1 to 9. *)
Definition units_valid (grid : SudokuGrid) : Prop :=
  forall i, i < 9 ->
    unitCells grid (rowPositions i) ≡ₚ Some <$> seq 1 9 /\
    unitCells grid (colPositions i) ≡ₚ Some <$> seq 1 9 /\
    unitCells grid (boxPositions i) ≡ₚ Some <$> seq 1 9.

Lemma unit_valid grid ps :
  is_solution grid -> NoDup ps -> length ps = 9 ->
  (forall p q, p ∈ ps -> q ∈ ps -> p <> q -> sees p.1 p.2 q.1 q.2) ->
  (forall p, p ∈ ps -> p.1 < 9 /\ p.2 < 9) ->
  unitCells grid ps ≡ₚ Some <$> seq 1 9.
Proof.
  intros ((Hshape & Hdig) & Hfull & Hfree) Hnd Hlen Hsees Hin.
  apply submseteq_length_Permutation.
  - apply NoDup_submseteq.
    + unfold unitCells. apply (NoDup_fmap_2_strong (fun '(r, c) => cell grid r c)); [|done].
      intros [r c] [r' c'] Hp Hq Heq.
      destruct (decide ((r, c) = (r', c'))) as [|Hne]; [done|exfalso].
      destruct (Hin _ Hp) as [Hr Hc]. simpl in Hr, Hc.
      destruct (cell grid r c) as [n|] eqn:Hcell; [|by apply (Hfull r c)].
      pose proof (Hfree r c n Hr Hc Hcell) as Hvalid.
      rewrite isValidMove_true in Hvalid by done.
      apply (Hvalid r' c'); [|done]. by apply (Hsees (r, c) (r', c')).
    + intros v (p & <- & Hp%list_elem_of_In)%list_elem_of_In%in_map_iff.
      destruct p as [r c]. destruct (Hin _ Hp) as [Hr Hc]. simpl in Hr, Hc.
      destruct (cell grid r c) as [n|] eqn:Hcell; [|by destruct (Hfull r c Hr Hc)].
      apply list_elem_of_fmap. exists n. split; [done|]. apply elem_of_seq.
      specialize (Hdig r c n Hcell). lia.
  - unfold unitCells. rewrite length_fmap, length_map, length_seq. lia.
Qed.

Lemma elem_of_rowPositions i p : p ∈ rowPositions i <-> p.1 = i /\ p.2 < 9.
Proof.
  unfold rowPositions. rewrite list_elem_of_In, in_map_iff. split.
  - intros (c & <- & Hc%in_seq). simpl. lia.
  - intros [<- Hc]. exists p.2. split; [by destruct p | apply in_seq; lia].
Qed.

Lemma elem_of_colPositions i p : p ∈ colPositions i <-> p.1 < 9 /\ p.2 = i.
Proof.
  unfold colPositions. rewrite list_elem_of_In, in_map_iff. split.
  - intros (r & <- & Hr%in_seq). simpl. lia.
  - intros [Hr <-]. exists p.1. split; [by destruct p | apply in_seq; lia].
Qed.

Lemma elem_of_boxPositions i p :
  i < 9 -> p ∈ boxPositions i <-> p.1 < 9 /\ p.2 < 9 /\ p.1 / 3 = i / 3 /\ p.2 / 3 = i mod 3.
Proof.
  intros Hi. unfold boxPositions. rewrite list_elem_of_In, in_flat_map.
  assert (Hm : i mod 3 < 3) by (apply Nat.mod_upper_bound; lia).
  assert (Hd : i / 3 < 3) by (apply Nat.Div0.div_lt_upper_bound; lia).
  split.
  - intros (r & Hr%in_seq & (c & <- & Hc%in_seq)%in_map_iff). simpl.
    repeat split; try lia.
    + symmetry. apply (Nat.div_unique r 3 (i / 3) (r - i / 3 * 3)); lia.
    + symmetry. apply (Nat.div_unique c 3 (i mod 3) (c - i mod 3 * 3)); lia.
  - intros (Hr & Hc & Hrd & Hcd). exists p.1.
    pose proof (Nat.div_mod_eq p.1 3). pose proof (Nat.div_mod_eq p.2 3).
    pose proof (Nat.mod_upper_bound p.1 3 ltac:(lia)).
    pose proof (Nat.mod_upper_bound p.2 3 ltac:(lia)).
    split; [apply in_seq; lia|]. apply in_map_iff. exists p.2.
    split; [by destruct p | apply in_seq; lia].
Qed.

Lemma NoDup_positions i :
  i < 9 -> NoDup (rowPositions i) /\ NoDup (colPositions i) /\ NoDup (boxPositions i).
Proof.
  intros Hi. do 9 (destruct i as [|i]; [
    split; [|split]; match goal with |- NoDup ?l =>
      apply (bool_decide_unpack (NoDup l)); vm_compute; exact I end|]).
  lia.
Qed.

Lemma length_positions i :
  i < 9 -> length (rowPositions i) = 9 /\ length (colPositions i) = 9 /\
           length (boxPositions i) = 9.
Proof.
  intros Hi. do 9 (destruct i as [|i]; [by vm_compute|]). lia.
Qed.

Lemma sees_pair (p q : nat * nat) :
  p <> q -> q.1 < 9 -> q.2 < 9 ->
  q.1 = p.1 \/ q.2 = p.2 \/ (q.1 / 3 = p.1 / 3 /\ q.2 / 3 = p.2 / 3) ->
  sees p.1 p.2 q.1 q.2.
Proof.
  intros Hne H1 H2 Hunit. split; [|done]. destruct p, q. simpl. congruence.
Qed.

Lemma is_solution_units grid : is_solution grid -> units_valid grid.
Proof.
  intros Hsol i Hi.
  destruct (NoDup_positions i Hi) as (N1 & N2 & N3).
  destruct (length_positions i Hi) as (L1 & L2 & L3).
  split; [|split]; apply unit_valid; try done.
  - intros p q [Hp1 Hp2]%elem_of_rowPositions [Hq1 Hq2]%elem_of_rowPositions Hne.
    apply sees_pair; [done|lia..].
  - intros p [Hp1 Hp2]%elem_of_rowPositions. lia.
  - intros p q [Hp1 Hp2]%elem_of_colPositions [Hq1 Hq2]%elem_of_colPositions Hne.
    apply sees_pair; [done|lia..].
  - intros p [Hp1 Hp2]%elem_of_colPositions. lia.
  - intros p q Hp Hq Hne. apply elem_of_boxPositions in Hp, Hq; [|done..].
    apply sees_pair; [done|lia..].
  - intros p Hp. apply elem_of_boxPositions in Hp; [|done]. lia.
Qed.

(** ** shuffleArray *)

Lemma swap_inside {A} (l : list A) i j :
  i < length l -> j < length l -> swap l i j ≡ₚ l /\ length (swap l i j) = length l.
Proof.
  intros Hi Hj. unfold swap.
  destruct (lookup_lt_is_Some_2 l i Hi) as [x Hx].
  destruct (lookup_lt_is_Some_2 l j Hj) as [y Hy].
  rewrite Hx, Hy. split; [by apply Permutation_insert_swap|].
  by rewrite !length_insert.
Qed.

Section Random.

Variable rnd : nat -> Q.

(** [Math.random()] returns a number in the range 0 to less than 1. *)
Hypothesis rnd_range : forall n, (0 <= rnd n)%Q /\ (rnd n < 1)%Q.

Lemma randomIndex_lt k n : 0 < n -> randomIndex rnd k n < n.
Proof.
  intros Hn. unfold randomIndex. destruct (rnd_range k) as [H0 H1].
  set (x := (rnd k * inject_Z (Z.of_nat n))%Q).
  assert (Hpos : (0 < inject_Z (Z.of_nat n))%Q).
  { change (inject_Z 0 < inject_Z (Z.of_nat n))%Q. rewrite <- Zlt_Qlt. lia. }
  assert (Hx0 : (0 <= x)%Q) by (apply Qmult_le_0_compat; [done | by apply Qlt_le_weak]).
  assert (Hx1 : (x < inject_Z (Z.of_nat n))%Q).
  { unfold x. rewrite <- (Qmult_1_l (inject_Z (Z.of_nat n))) at 2.
    by apply Qmult_lt_compat_r. }
  assert (Hf0 : (0 <= Qfloor x)%Z).
  { change 0%Z with (Qfloor 0). by apply Qfloor_resp_le. }
  assert (Hf1 : (Qfloor x < Z.of_nat n)%Z).
  { rewrite Zlt_Qlt. eapply Qle_lt_trans; [apply Qfloor_le | done]. }
  lia.
Qed.

Lemma shuffle_from_Permutation {A} i k (l : list A) :
  i < length l -> (shuffle_from rnd i k l).1 ≡ₚ l.
Proof.
  revert k l. induction i as [|i IH]; intros k l Hi; [done|].
  cbn [shuffle_from].
  assert (Hj : randomIndex rnd k (S i + 1) < length l).
  { pose proof (randomIndex_lt k (S i + 1) ltac:(lia)). lia. }
  destruct (swap_inside l (S i) _ Hi Hj) as [Hperm Hlen].
  rewrite IH by lia. done.
Qed.

Lemma shuffleArray_Permutation {A} k (l : list A) : (shuffleArray rnd k l).1 ≡ₚ l.
Proof.
  unfold shuffleArray. destruct l as [|x l]; [done|].
  apply shuffle_from_Permutation. simpl. lia.
Qed.

(** ** generateCompleteSolution *)

Lemma fillDiagonalBoxes_eq k :
  exists n0 n1 n2 k',
    fillDiagonalBoxes rnd k createEmptyGrid = (diagonalGrid n0 n1 n2, k') /\
    n0 ≡ₚ seq 1 9 /\ n1 ≡ₚ seq 1 9 /\ n2 ≡ₚ seq 1 9.
Proof.
  unfold fillDiagonalBoxes. cbn [fold_left]. unfold fillBox.
  pose proof (shuffleArray_Permutation k (seq 1 9)) as H0.
  destruct (shuffleArray rnd k (seq 1 9)) as [n0 k1].
  pose proof (shuffleArray_Permutation k1 (seq 1 9)) as H1.
  destruct (shuffleArray rnd k1 (seq 1 9)) as [n1 k2].
  pose proof (shuffleArray_Permutation k2 (seq 1 9)) as H2.
  destruct (shuffleArray rnd k2 (seq 1 9)) as [n2 k3].
  exists n0, n1, n2, k3. split; [|done]. reflexivity.
Qed.

Lemma digits_ok_diagonalGrid n0 n1 n2 :
  n0 ≡ₚ seq 1 9 -> n1 ≡ₚ seq 1 9 -> n2 ≡ₚ seq 1 9 -> digits_ok (diagonalGrid n0 n1 n2).
Proof.
  intros H0 H1 H2 R C n Hcell.
  destruct (cell_Some_inside _ _ _ _ (shape9_diagonalGrid n0 n1 n2) Hcell) as [HR HC].
  rewrite cell_diagonalGrid in Hcell by done. case_decide; [|done].
  apply list_elem_of_lookup_2 in Hcell.
  assert (Hin : n ∈ seq 1 9).
  { destruct (R / 3) as [|[|a]]; cbn [pick] in Hcell; by rewrite ?H0, ?H1, ?H2 in Hcell. }
  apply elem_of_seq in Hin. lia.
Qed.

Lemma full_diagonal n0 n1 n2 R C :
  n0 ≡ₚ seq 1 9 -> n1 ≡ₚ seq 1 9 -> n2 ≡ₚ seq 1 9 ->
  R < 9 -> C < 9 -> R / 3 = C / 3 -> cell (diagonalGrid n0 n1 n2) R C <> None.
Proof.
  intros H0 H1 H2 HR HC Hab. rewrite cell_diagonalGrid, decide_True by done.
  pose proof (Nat.mod_upper_bound R 3 ltac:(lia)).
  pose proof (Nat.mod_upper_bound C 3 ltac:(lia)).
  assert (Hlen : length (pick (R / 3) n0 n1 n2) = 9).
  { destruct (R / 3) as [|[|a]]; simpl; by rewrite ?H0, ?H1, ?H2. }
  intros Hnone%lookup_ge_None. lia.
Qed.

(** The fill of the grid with three diagonal boxes returns [true] and
    leaves a full valid grid. *)
Lemma fillRemaining_diagonal n0 n1 n2 :
  n0 ≡ₚ seq 1 9 -> n1 ≡ₚ seq 1 9 -> n2 ≡ₚ seq 1 9 ->
  exists grid,
    fillRemaining search_fuel (diagonalGrid n0 n1 n2) 0 BOX_SIZE = Some (true, grid) /\
    is_solution grid.
Proof.
  intros H0 H1 H2. rewrite (fillRemaining_fillList _ _ _ _ _ fillTrace_start).
  set (g0 := diagonalGrid n0 n1 n2).
  assert (Hshape : shape9 g0) by apply shape9_diagonalGrid.
  destruct (fillList_spec fillOrder g0 NoDup_fillOrder) as ([b g'] & -> & Hpost).
  { split; [done|]. intros r c (Hr & Hc & Hne)%elem_of_fillOrder.
    split; [done|]. split; [done|]. unfold g0.
    by rewrite cell_diagonalGrid, decide_False. }
  destruct (diagonal_completion n0 n1 n2 H0 H1 H2) as [s Hs].
  destruct b; [|by destruct Hpost as [_ Hno]; destruct (Hno s)].
  destruct Hpost as (Hg' & Hext & Hfilled & Hsame & Hdig & Hfree).
  exists g'. split; [done|]. split; [split; [done|]|split].
  - by apply Hdig, digits_ok_diagonalGrid.
  - intros R C HR HC. destruct (decide (R / 3 = C / 3)) as [Hab|Hab].
    + rewrite Hsame; [by apply full_diagonal|]. rewrite elem_of_fillOrder. lia.
    + apply Hfilled, elem_of_fillOrder. done.
  - apply Hfree. intros R C n HR HC Hcell.
    apply (completion_valid g0 s R C n Hs HR HC). destruct Hs as [_ Hexts]. by apply Hexts.
Qed.

(** The solution [generatePuzzle] starts from. *)
Lemma generateCompleteSolution_solution (k : nat) :
  exists grid k', generateCompleteSolution rnd k = Some (grid, k') /\ is_solution grid.
Proof.
  unfold generateCompleteSolution.
  destruct (fillDiagonalBoxes_eq k) as (n0 & n1 & n2 & k' & -> & H0 & H1 & H2).
  destruct (fillRemaining_diagonal n0 n1 n2 H0 H1 H2) as (grid & -> & Hsol).
  by exists grid, k'.
Qed.

(** C2.  With [Math.random] in its range, [generateCompleteSolution]
    returns a grid; the call of [fillRemaining] on the grid with the three
    diagonal boxes returns [true], and the grid it leaves is full, holds
    the numbers 1 to 9 and has no conflict: every row, every column and
    every box is a permutation of 1 to 9. *)
Theorem generateCompleteSolution_valid (k : nat) :
  exists grid k',
    generateCompleteSolution rnd k = Some (grid, k') /\
    fillRemaining search_fuel (fillDiagonalBoxes rnd k createEmptyGrid).1 0 BOX_SIZE
      = Some (true, grid) /\
    is_solution grid /\ units_valid grid.
Proof.
  unfold generateCompleteSolution.
  destruct (fillDiagonalBoxes_eq k) as (n0 & n1 & n2 & k' & -> & H0 & H1 & H2).
  cbn [fst].
  destruct (fillRemaining_diagonal n0 n1 n2 H0 H1 H2) as (grid & -> & Hsol).
  exists grid, k'. split; [done|]. split; [done|]. split; [done|].
  intros i Hi. by apply is_solution_units.
Qed.

End Random.

Lemma generateCompleteSolution_valid_witness :
  (forall n : nat, (0 <= 0)%Q /\ (0 < 1)%Q) /\
  exists grid k',
    generateCompleteSolution (fun _ => 0%Q) 0 = Some (grid, k') /\
    fillRemaining search_fuel (fillDiagonalBoxes (fun _ => 0%Q) 0 createEmptyGrid).1 0 BOX_SIZE
      = Some (true, grid) /\
    is_solution grid /\ units_valid grid.
Proof.
  split.
  - intros n. split; [apply Qle_refl | reflexivity].
  - apply (generateCompleteSolution_valid (fun _ => 0%Q)).
    intros n. split; [apply Qle_refl | reflexivity].
Defined.

End GeneratorFacts.

(** * Properties of the puzzles *)

Module PuzzleFacts.

Import SudokuEngine EngineFacts SolverFacts GeneratorFacts.

(** ** findAllSolutions *)

(** What a call of [findAllSolutions] adds to the list of solutions: new
    completions of the grid, each once, and all of them unless the list
    has reached the bound. *)
Definition found (grid : SudokuGrid) (solutions : list SudokuGrid) (maxSolutions : nat)
    (new : list SudokuGrid) : Prop :=
  NoDup new /\ (forall s, s ∈ new -> completion grid s) /\
  (length (solutions ++ new) < maxSolutions -> forall s, completion grid s -> s ∈ new).

Definition find_post (grid : SudokuGrid) (solutions : list SudokuGrid) (maxSolutions : nat)
    (out : SudokuGrid * list SudokuGrid) : Prop :=
  out.1 = grid /\ exists new, out.2 = solutions ++ new /\ found grid solutions maxSolutions new.

Lemma findCandidates_spec recurse fuel maxSolutions p nums grid solutions :
  (forall g sols, shape9 g -> digits_ok g -> conflict_free g -> empties g < fuel ->
     exists out, recurse g sols = Some out /\ find_post g sols maxSolutions out) ->
  shape9 grid -> digits_ok grid -> conflict_free grid ->
  row p < 9 -> col p < 9 -> cell grid (row p) (col p) = None -> empties grid <= fuel ->
  NoDup nums -> (forall n, n ∈ nums -> 1 <= n <= 9) ->
  exists out, findCandidates recurse p nums grid solutions = Some out /\
    out.1 = grid /\ exists new, out.2 = solutions ++ new /\ NoDup new /\
      (forall s, s ∈ new ->
         completion grid s /\ exists n, n ∈ nums /\ cell s (row p) (col p) = Some n) /\
      (length (solutions ++ new) < maxSolutions ->
       forall s n, completion grid s -> cell s (row p) (col p) = Some n -> n ∈ nums -> s ∈ new).
Proof.
  intros Hrec Hshape Hdig Hfree Hr Hc Hnone Hfuel Hnd. revert solutions.
  induction Hnd as [|num nums Hnotin Hnd IH]; intros solutions Hnums; cbn [findCandidates].
  { eexists. split; [reflexivity|]. split; [done|]. exists []. rewrite app_nil_r.
    split; [done|]. split; [constructor|]. split.
    - by intros s ?%elem_of_nil.
    - by intros _ s n _ _ ?%elem_of_nil. }
  assert (forall n, n ∈ nums -> 1 <= n <= 9) as Hnums'.
  { intros n Hn. apply Hnums. by apply elem_of_cons; right. }
  destruct (isValidMove grid (row p) (col p) (Some num)) eqn:Hvalid.
  - set (g1 := set_cell grid (row p) (col p) (Some num)).
    assert (shape9 g1) as Hg1 by (by apply shape9_set_cell).
    assert (digits_ok g1) as Hd1.
    { apply digits_ok_set_cell; try done. apply Hnums. by apply elem_of_cons; left. }
    assert (conflict_free g1) as Hf1 by (by apply conflict_free_set_cell).
    assert (empties g1 < fuel) as Hfuel1.
    { pose proof (empties_set_cell grid (row p) (col p) num Hshape Hr Hc Hnone) as He.
      fold g1 in He. lia. }
    destruct (Hrec g1 solutions Hg1 Hd1 Hf1 Hfuel1)
      as ([g1' sols1] & -> & Heq & new1 & Hsols1 & Hnd1 & Hcomp1 & Hall1).
    simpl in Heq, Hsols1. subst g1' sols1.
    assert (set_cell g1 (row p) (col p) None = grid) as ->.
    { unfold g1. rewrite set_cell_set_cell, <- Hnone. by apply set_cell_cell. }
    destruct (IH (solutions ++ new1) Hnums')
      as (out & -> & Hout1 & new2 & Hout2 & Hnd2 & Hcomp2 & Hall2).
    eexists. split; [reflexivity|]. split; [done|]. exists (new1 ++ new2).
    split; [by rewrite Hout2, app_assoc|].
    assert (Hcell1 : forall s, s ∈ new1 ->
              completion grid s /\ cell s (row p) (col p) = Some num).
    { intros s Hs. by apply completion_unset, Hcomp1. }
    split; [|split].
    + apply NoDup_app. split; [done|]. split; [|done].
      intros s Hs1 Hs2. destruct (Hcell1 s Hs1) as [_ Hc1].
      destruct (Hcomp2 s Hs2) as [_ (n & Hn & Hc2)]. congruence.
    + intros s [Hs|Hs]%elem_of_app.
      * destruct (Hcell1 s Hs) as [? ?]. split; [done|]. exists num. split; [left | done].
      * destruct (Hcomp2 s Hs) as [? (n & Hn & ?)]. split; [done|].
        exists n. split; [by right | done].
    + intros Hlen s n Hs Hcell [->|Hin]%elem_of_cons; apply elem_of_app.
      * left. apply Hall1; [|by apply completion_set_cell].
        rewrite !length_app in *. lia.
      * right. apply (Hall2 ltac:(by rewrite <- app_assoc) s n); done.
  - destruct (IH solutions Hnums')
      as (out & -> & Hout1 & new2 & Hout2 & Hnd2 & Hcomp2 & Hall2).
    eexists. split; [reflexivity|]. split; [done|]. exists new2.
    split; [done|]. split; [done|]. split.
    + intros s Hs. destruct (Hcomp2 s Hs) as [? (n & Hn & ?)]. split; [done|].
      exists n. split; [by right | done].
    + intros Hlen s n Hs Hcell [->|Hin]%elem_of_cons; [|by apply (Hall2 Hlen s n)].
      pose proof (completion_valid grid s (row p) (col p) num Hs Hr Hc Hcell). congruence.
Qed.

Lemma completion_full grid s : shape9 grid -> full grid -> completion grid s -> s = grid.
Proof.
  intros Hshape Hfull [((Hs & _) & _) Hext]. apply grid_ext; [done..|].
  intros r c Hr Hc. destruct (cell grid r c) as [n|] eqn:Hcell; [by apply Hext|].
  by destruct (Hfull r c Hr Hc).
Qed.

Lemma findAllSolutions_spec fuel maxSolutions grid solutions :
  shape9 grid -> digits_ok grid -> conflict_free grid -> empties grid < fuel ->
  exists out, findAllSolutions fuel grid solutions maxSolutions = Some out /\
              find_post grid solutions maxSolutions out.
Proof.
  revert grid solutions.
  induction fuel as [|fuel IH]; intros grid solutions Hshape Hdig Hfree Hfuel; [lia|].
  cbn [findAllSolutions]. destruct (maxSolutions <=? length solutions) eqn:Emax.
  { apply Nat.leb_le in Emax. eexists. split; [reflexivity|]. split; [done|].
    exists []. rewrite app_nil_r. split; [done|]. split; [constructor|]. split.
    - by intros s ?%elem_of_nil.
    - rewrite app_nil_r. lia. }
  destruct (firstEmpty grid) as [p|] eqn:Efirst.
  - apply firstEmpty_Some in Efirst as (Hr & Hc & Hnone).
    assert (Hrec : forall g sols, shape9 g -> digits_ok g -> conflict_free g ->
              empties g < fuel ->
              exists out, findAllSolutions fuel g sols maxSolutions = Some out /\
                          find_post g sols maxSolutions out).
    { intros g sols. apply IH. }
    assert (Hcand : forall n, n ∈ candidates -> 1 <= n <= 9).
    { intros n. apply elem_of_candidates. }
    destruct (findCandidates_spec
                (fun g sols => findAllSolutions fuel g sols maxSolutions)
                fuel maxSolutions p candidates grid solutions
                Hrec Hshape Hdig Hfree Hr Hc Hnone ltac:(lia) (NoDup_seq 1 9) Hcand)
      as (out & Hout & Hout1 & new & Hout2 & Hnd & Hcomp & Hall).
    exists out. split; [done|]. split; [done|]. exists new. split; [done|].
    split; [done|]. split; [intros s Hs; by apply Hcomp|].
    intros Hlen s Hs. pose proof Hs as [((_ & Hdigs) & Hfull & _) _].
    destruct (cell s (row p) (col p)) as [n|] eqn:Hcell; [|by destruct (Hfull _ _ Hr Hc)].
    apply (Hall Hlen s n); [done..|]. apply elem_of_candidates. by eapply Hdigs.
  - apply firstEmpty_None in Efirst.
    eexists. split; [reflexivity|]. split; [done|]. rewrite cloneGrid_id.
    exists [grid]. split; [done|]. split; [apply NoDup_singleton|]. split.
    + intros s ->%list_elem_of_singleton. split; [|apply extends_refl]. done.
    + intros _ s Hs. apply list_elem_of_singleton. by apply completion_full.
Qed.

(** A grid has exactly one completion. *)
Definition unique_completion (grid s : SudokuGrid) : Prop :=
  completion grid s /\ forall s', completion grid s' -> s' = s.

Lemma countSolutions_spec grid :
  wf_grid grid -> conflict_free grid ->
  exists n, countSolutions grid 2 = Some n /\
            hasUniqueSolution grid = Some (n =? 1) /\
            (n = 1 <-> exists s, unique_completion grid s).
Proof.
  intros [Hshape Hdig] Hfree. unfold countSolutions, hasUniqueSolution.
  rewrite cloneGrid_id.
  destruct (findAllSolutions_spec search_fuel 2 grid [] Hshape Hdig Hfree)
    as ([g' sols] & -> & _ & new & Hsols & Hnd & Hcomp & Hall).
  { pose proof (empties_le grid). unfold search_fuel, GRID_SIZE. lia. }
  simpl in Hsols. subst sols. simpl in Hall.
  exists (length new). split; [done|]. split; [done|]. split.
  - intros Hlen. destruct new as [|s [|s' new]]; try done.
    exists s. split; [apply Hcomp; left|].
    intros s' Hs'. apply Hall in Hs'; [|simpl; lia].
    by apply list_elem_of_singleton in Hs'.
  - intros (s & Hs & Huniq).
    destruct new as [|s1 [|s2 new]]; [|done|].
    + specialize (Hall ltac:(simpl; lia) s Hs). by apply elem_of_nil in Hall.
    + assert (s1 = s) by (apply Huniq, Hcomp; left).
      assert (s2 = s) by (apply Huniq, Hcomp; right; left).
      subst. apply NoDup_cons in Hnd as [Hnd _]. destruct Hnd. left.
Qed.

(** ** generatePuzzle *)

(** A grid with a completion holds numbers 1 to 9 and has no conflict. *)
Lemma completion_wf grid s :
  shape9 grid -> completion grid s -> wf_grid grid /\ conflict_free grid.
Proof.
  intros Hshape Hs. pose proof Hs as [((_ & Hdig) & _) Hext]. split; [split; [done|]|].
  - intros r c n Hcell. apply (Hdig r c). by apply Hext.
  - intros r c n Hr Hc Hcell. apply (completion_valid grid s r c n Hs Hr Hc). by apply Hext.
Qed.

Lemma unique_completion_count grid s :
  shape9 grid -> unique_completion grid s ->
  countSolutions grid 2 = Some 1 /\ hasUniqueSolution grid = Some true.
Proof.
  intros Hshape Huniq. destruct (completion_wf grid s Hshape (proj1 Huniq)) as [Hwf Hfree].
  destruct (countSolutions_spec grid Hwf Hfree) as (n & Hcount & Hhas & Hiff).
  assert (n = 1) as -> by (apply Hiff; by exists s). done.
Qed.

Lemma is_solution_unique solution : is_solution solution -> unique_completion solution solution.
Proof.
  intros Hsol. split; [split; [done | apply extends_refl]|].
  intros s Hs. destruct Hsol as ((Hshape & _) & Hfull & _). by apply completion_full.
Qed.

(** One iteration of the removal loop keeps the invariant: the puzzle has
    exactly one completion, the solution. *)
Lemma removeCells_spec cellsToRemove positions solution puzzle removed :
  (forall pos, pos ∈ positions -> row pos < 9 /\ col pos < 9) ->
  shape9 puzzle -> unique_completion puzzle solution ->
  exists puzzle' removed',
    removeCells cellsToRemove positions puzzle removed = Some (puzzle', removed') /\
    shape9 puzzle' /\ unique_completion puzzle' solution.
Proof.
  revert puzzle removed.
  induction positions as [|pos positions IH]; intros puzzle removed Hpos Hshape Huniq;
    cbn [removeCells].
  { by exists puzzle, removed. }
  destruct (cellsToRemove <=? removed); [by exists puzzle, removed|].
  destruct (Hpos pos ltac:(left)) as [Hr Hc].
  assert (Hpos' : forall q, q ∈ positions -> row q < 9 /\ col q < 9).
  { intros q Hq. apply Hpos. by right. }
  set (cleared := set_cell puzzle (row pos) (col pos) None).
  assert (Hsc : shape9 cleared) by (by apply shape9_set_cell).
  assert (Hcc : completion cleared solution).
  { destruct Huniq as [[Hsol Hext] _]. split; [done|].
    intros r c n. unfold cleared. rewrite cell_set_cell by done.
    case_decide; [done | apply Hext]. }
  destruct (completion_wf cleared solution Hsc Hcc) as [Hwf Hfree].
  destruct (countSolutions_spec cleared Hwf Hfree) as (n & _ & -> & Hiff).
  destruct (Nat.eqb_spec n 1) as [->|Hne].
  - apply IH; [done..|]. destruct (proj1 Hiff eq_refl) as (s & Hs & Hall).
    assert (s = solution) as -> by (symmetry; by apply Hall). by split.
  - assert (set_cell cleared (row pos) (col pos) (cell puzzle (row pos) (col pos)) = puzzle)
      as ->.
    { unfold cleared. rewrite set_cell_set_cell. by apply set_cell_cell. }
    by apply IH.
Qed.

Section Random.

Variable rnd : nat -> Q.

Hypothesis rnd_range : forall n, (0 <= rnd n)%Q /\ (rnd n < 1)%Q.

(** C1.  With [Math.random] in its range, [generatePuzzle] returns a
    puzzle and a solution for every difficulty.  The solution is a full
    valid grid.  After every number of iterations of the removal loop (the
    loop run on a prefix of the shuffled positions) the puzzle has exactly
    one completion, which is the solution, and the bounded count of its
    solutions is 1; so has the puzzle returned. *)
Theorem generatePuzzle_unique (k : nat) (difficulty : Difficulty) :
  exists solution k1,
    generateCompleteSolution rnd k = Some (solution, k1) /\
    is_solution solution /\
    (forall i, exists puzzle removed,
       removeCells (getCellsToRemove difficulty)
                   (take i (shuffleArray rnd k1 getAllPositions).1)
                   (cloneGrid solution) 0 = Some (puzzle, removed) /\
       unique_completion puzzle solution /\ countSolutions puzzle 2 = Some 1) /\
    exists puzzle k2,
      generatePuzzle rnd k difficulty = Some (puzzle, solution, k2) /\
      unique_completion puzzle solution /\ countSolutions puzzle 2 = Some 1.
Proof.
  destruct (generateCompleteSolution_solution rnd rnd_range k)
    as (solution & k1 & Hgen & Hsol).
  exists solution, k1. split; [done|]. split; [done|].
  pose proof Hsol as ((Hshape & _) & _).
  assert (Hloop : forall positions,
    (forall pos, pos ∈ positions -> row pos < 9 /\ col pos < 9) ->
    exists puzzle removed,
      removeCells (getCellsToRemove difficulty) positions (cloneGrid solution) 0
        = Some (puzzle, removed) /\
      unique_completion puzzle solution /\ countSolutions puzzle 2 = Some 1).
  { intros positions Hpos. rewrite cloneGrid_id.
    destruct (removeCells_spec (getCellsToRemove difficulty) positions solution solution 0
                Hpos Hshape (is_solution_unique solution Hsol))
      as (puzzle & removed & Hrem & Hsp & Huniq).
    exists puzzle, removed. split; [done|]. split; [done|].
    by apply (unique_completion_count puzzle solution). }
  assert (Hpos : forall pos, pos ∈ (shuffleArray rnd k1 getAllPositions).1 ->
                             row pos < 9 /\ col pos < 9).
  { intros pos Hin. rewrite (shuffleArray_Permutation rnd rnd_range) in Hin.
    by apply elem_of_getAllPositions. }
  split.
  - intros i. apply Hloop. intros pos Hin. by apply Hpos, (subseteq_take i).
  - unfold generatePuzzle. rewrite Hgen.
    destruct (shuffleArray rnd k1 getAllPositions) as [shuffled k2] eqn:Eshuf.
    destruct (Hloop shuffled Hpos) as (puzzle & removed & -> & Huniq & Hcount).
    by exists puzzle, k2.
Qed.

End Random.

Lemma generatePuzzle_unique_witness :
  (forall n : nat, (0 <= 0)%Q /\ (0 < 1)%Q) /\
  exists solution k1,
    generateCompleteSolution (fun _ => 0%Q) 0 = Some (solution, k1) /\
    is_solution solution /\
    (forall i, exists puzzle removed,
       removeCells (getCellsToRemove easy)
                   (take i (shuffleArray (fun _ => 0%Q) k1 getAllPositions).1)
                   (cloneGrid solution) 0 = Some (puzzle, removed) /\
       unique_completion puzzle solution /\ countSolutions puzzle 2 = Some 1) /\
    exists puzzle k2,
      generatePuzzle (fun _ => 0%Q) 0 easy = Some (puzzle, solution, k2) /\
      unique_completion puzzle solution /\ countSolutions puzzle 2 = Some 1.
Proof.
  split.
  - intros n. split; [apply Qle_refl | reflexivity].
  - apply (generatePuzzle_unique (fun _ => 0%Q)).
    intros n. split; [apply Qle_refl | reflexivity].
Defined.

End PuzzleFacts.

(** * Further properties of the engine *)

Module EngineLaws.

Import SudokuEngine EngineFacts SolverFacts GeneratorFacts PuzzleFacts.

(** ** validateGrid *)

#[local] Existing Instance in_conflict_dec.

Lemma conflicts_validateGrid grid :
  conflicts (validateGrid grid) = filter (in_conflict grid) getAllPositions.
Proof. unfold validateGrid. by rewrite validate_fold. Qed.

Lemma elem_of_conflicts grid p :
  p ∈ conflicts (validateGrid grid) <->
  row p < 9 /\ col p < 9 /\
  exists n, cell grid (row p) (col p) = Some n /\
            isValidMove grid (row p) (col p) (Some n) = false.
Proof.
  rewrite conflicts_validateGrid, list_elem_of_filter, elem_of_getAllPositions.
  unfold in_conflict. tauto.
Qed.

(** X1.  The cells [validateGrid] reports come in pairs: a reported cell
    holds a number that also stands in another cell of its row, column or
    box, and that other cell is reported as well.  So the list of
    conflicts never has exactly one element. *)
Theorem validateGrid_conflicts_paired (grid : SudokuGrid) (p : Position) :
  p ∈ conflicts (validateGrid grid) ->
  exists q n,
    q ∈ conflicts (validateGrid grid) /\ q <> p /\
    sees (row p) (col p) (row q) (col q) /\
    cell grid (row p) (col p) = Some n /\ cell grid (row q) (col q) = Some n.
Proof.
  intros (Hr & Hc & n & Hcell & Hbad)%elem_of_conflicts.
  apply isValidMove_false in Hbad as (r & c & Hsees & Hcell'); [|done..].
  exists (mkPosition r c), n. cbn [row col].
  pose proof Hsees as (Hne & Hr' & Hc' & _).
  split; [|split; [|done]].
  - apply elem_of_conflicts. cbn [row col]. split; [done|]. split; [done|].
    exists n. split; [done|]. apply isValidMove_false; [done..|].
    exists (row p), (col p). split; [by apply sees_sym | done].
  - intros <-. by apply Hne.
Qed.

Lemma validateGrid_conflicts_paired_witness :
  mkPosition 0 0 ∈ conflicts (validateGrid all_ones) /\
  exists q n,
    q ∈ conflicts (validateGrid all_ones) /\ q <> mkPosition 0 0 /\
    sees 0 0 (row q) (col q) /\
    cell all_ones 0 0 = Some n /\ cell all_ones (row q) (col q) = Some n.
Proof.
  assert (H : mkPosition 0 0 ∈ conflicts (validateGrid all_ones)).
  { apply (bool_decide_unpack _). vm_compute. exact I. }
  split; [exact H | exact (validateGrid_conflicts_paired all_ones (mkPosition 0 0) H)].
Defined.

(** X2.  The placement check does not look at the cell itself, so it
    can be asked before or after the number is written; and after a
    number is written into a cell, [validateGrid] reports that cell
    exactly when [isValidMove] rejects the number there. *)
Theorem validateGrid_after_write (grid : SudokuGrid) (r c n : nat) (v : CellValue) :
  shape9 grid -> r < 9 -> c < 9 ->
  isValidMove (set_cell grid r c v) r c (Some n) = isValidMove grid r c (Some n) /\
  (mkPosition r c ∈ conflicts (validateGrid (set_cell grid r c (Some n))) <->
   isValidMove grid r c (Some n) = false).
Proof.
  intros Hshape Hr Hc.
  assert (Hsame : forall w, isValidMove (set_cell grid r c w) r c (Some n)
                            = isValidMove grid r c (Some n)).
  { intros w. apply BoxFacts.bool_eq_iff. rewrite <- !not_false_iff_true.
    rewrite !isValidMove_false by done.
    split; intros Hno (r' & c' & Hsees & Hcell); apply Hno; exists r', c';
      (split; [done|]); pose proof Hsees as (Hne & _);
      [rewrite cell_set_cell_ne | rewrite cell_set_cell_ne in Hcell]; try done;
      intros [= -> ->]; by apply Hne. }
  split; [apply Hsame|]. rewrite elem_of_conflicts. cbn [row col].
  rewrite cell_set_cell_eq by done. split.
  - intros (_ & _ & m & [= <-] & Hbad). by rewrite Hsame in Hbad.
  - intros Hbad. split; [done|]. split; [done|]. exists n. split; [done|].
    by rewrite Hsame.
Qed.

Lemma validateGrid_after_write_witness :
  shape9 createEmptyGrid /\ 0 < 9 /\ 1 < 9 /\
  isValidMove (set_cell createEmptyGrid 0 1 None) 0 1 (Some 5)
    = isValidMove createEmptyGrid 0 1 (Some 5) /\
  (mkPosition 0 1 ∈ conflicts (validateGrid (set_cell createEmptyGrid 0 1 (Some 5))) <->
   isValidMove createEmptyGrid 0 1 (Some 5) = false).
Proof.
  split; [exact shape9_createEmptyGrid|]. split; [lia|]. split; [lia|].
  apply (validateGrid_after_write createEmptyGrid 0 1 5 None shape9_createEmptyGrid); lia.
Defined.

Lemma validateGrid_completed grid :
  isCompleted (validateGrid grid) = true <-> full grid /\ conflict_free grid.
Proof.
  unfold validateGrid. rewrite validate_fold. cbn [fst snd isCompleted app].
  rewrite andb_true_iff, !Nat.eqb_eq, Nat.add_0_l.
  change (GRID_SIZE * GRID_SIZE) with (length getAllPositions).
  rewrite length_filter_all, Forall_forall. split.
  - intros [Hnil%nil_length_inv Hfull]. split.
    + intros r c Hr Hc. apply (Hfull (mkPosition r c)). by apply elem_of_getAllPositions.
    + intros r c n Hr Hc Hcell.
      destruct (isValidMove grid r c (Some n)) eqn:Hvalid; [done|exfalso].
      assert (Hin : mkPosition r c ∈ filter (in_conflict grid) getAllPositions).
      { apply list_elem_of_filter. split; [by exists n|by apply elem_of_getAllPositions]. }
      rewrite Hnil in Hin. by apply elem_of_nil in Hin.
  - intros [Hfull Hfree]. split.
    + destruct (filter (in_conflict grid) getAllPositions) as [|p l] eqn:E; [done|exfalso].
      assert (Hin : p ∈ filter (in_conflict grid) getAllPositions) by (rewrite E; left).
      apply list_elem_of_filter in Hin as [(n & Hcell & Hbad) [Hr Hc]%elem_of_getAllPositions].
      rewrite (Hfree _ _ _ Hr Hc Hcell) in Hbad. done.
    + intros p [Hr Hc]%elem_of_getAllPositions. by apply Hfull.
Qed.

Lemma elem_of_unitCells grid ps v :
  v ∈ unitCells grid ps <-> exists r c, (r, c) ∈ ps /\ cell grid r c = v.
Proof.
  unfold unitCells. rewrite list_elem_of_In, in_map_iff. split.
  - intros ([r c] & <- & Hin%list_elem_of_In). eauto.
  - intros (r & c & Hin%list_elem_of_In & <-). by exists (r, c).
Qed.

(** A grid whose rows, columns and boxes are permutations of 1 to 9 is a
    solution. *)
Lemma units_is_solution grid : shape9 grid -> units_valid grid -> is_solution grid.
Proof.
  intros Hshape Hunits.
  assert (Hrow : forall r c, r < 9 -> c < 9 -> exists n, cell grid r c = Some n /\ 1 <= n <= 9).
  { intros r c Hr Hc. destruct (Hunits r Hr) as (Hperm & _).
    assert (Hin : cell grid r c ∈ unitCells grid (rowPositions r)).
    { apply elem_of_unitCells. exists r, c. split; [|done].
      apply elem_of_rowPositions. done. }
    rewrite Hperm in Hin. apply list_elem_of_fmap in Hin as (n & Heq & Hn%elem_of_seq).
    exists n. split; [done | lia]. }
  split; [split; [done|]|split].
  - intros r c n Hcell. destruct (cell_Some_inside _ _ _ _ Hshape Hcell) as [Hr Hc].
    destruct (Hrow r c Hr Hc) as (m & Hm & Hrange). congruence.
  - intros r c Hr Hc. destruct (Hrow r c Hr Hc) as (m & -> & _). done.
  - intros r c n Hr Hc Hcell. apply isValidMove_true; [done..|].
    intros r' c' (Hne & Hr' & Hc' & Hunit) Hcell'.
    assert (Hdistinct : forall ps, NoDup ps -> unitCells grid ps ≡ₚ Some <$> seq 1 9 ->
              (r, c) ∈ ps -> (r', c') ∈ ps -> False).
    { intros ps Hnd Hperm Hp Hq.
      assert (Hndu : NoDup (unitCells grid ps)).
      { rewrite Hperm. apply (NoDup_fmap_2 _). apply NoDup_seq. }
      apply list_elem_of_lookup in Hp as [i Hi], Hq as [j Hj].
      assert (i = j) as ->.
      { apply (NoDup_lookup _ i j (Some n) Hndu); unfold unitCells;
          rewrite list_lookup_fmap; [rewrite Hi | rewrite Hj]; simpl; by f_equal. }
      rewrite Hi in Hj. injection Hj as -> ->. by apply Hne. }
    destruct Hunit as [->|[->|[Hbr Hbc]]].
    + destruct (Hunits r Hr) as (Hperm & _). destruct (NoDup_positions r Hr) as (Hnd & _).
      apply (Hdistinct _ Hnd Hperm); by apply elem_of_rowPositions.
    + destruct (Hunits c Hc) as (_ & Hperm & _).
      destruct (NoDup_positions c Hc) as (_ & Hnd & _).
      apply (Hdistinct _ Hnd Hperm); by apply elem_of_colPositions.
    + set (b := 3 * (r / 3) + c / 3).
      assert (r / 3 < 3) by (apply Nat.Div0.div_lt_upper_bound; lia).
      assert (c / 3 < 3) by (apply Nat.Div0.div_lt_upper_bound; lia).
      assert (Hb : b < 9) by (unfold b; lia).
      assert (Hbd : b / 3 = r / 3).
      { unfold b. symmetry. apply (Nat.div_unique _ 3 (r / 3) (c / 3)); lia. }
      assert (Hbm : b mod 3 = c / 3).
      { unfold b. symmetry. apply (Nat.mod_unique _ 3 (r / 3) (c / 3)); lia. }
      destruct (Hunits b Hb) as (_ & _ & Hperm).
      destruct (NoDup_positions b Hb) as (_ & _ & Hnd).
      apply (Hdistinct _ Hnd Hperm); (apply elem_of_boxPositions; [done|]);
        cbn [fst snd]; rewrite Hbd, Hbm; repeat split; first [done | lia].
Qed.

(** X3.  On a 9x9 grid, [validateGrid] reports completion with numbers 1
    to 9 exactly when every row, every column and every box is a
    permutation of 1 to 9. *)
Theorem validateGrid_completed_iff (grid : SudokuGrid) :
  shape9 grid ->
  (isCompleted (validateGrid grid) = true /\ digits_ok grid <-> units_valid grid).
Proof.
  intros Hshape. rewrite validateGrid_completed. split.
  - intros [[Hfull Hfree] Hdig]. by apply is_solution_units.
  - intros Hunits. destruct (units_is_solution grid Hshape Hunits) as ((_ & Hdig) & Hfull & Hfree).
    done.
Qed.

Lemma validateGrid_completed_iff_witness :
  shape9 createEmptyGrid /\
  (isCompleted (validateGrid createEmptyGrid) = true /\ digits_ok createEmptyGrid
   <-> units_valid createEmptyGrid).
Proof.
  split; [apply shape9_createEmptyGrid|].
  apply (validateGrid_completed_iff createEmptyGrid shape9_createEmptyGrid).
Defined.

(** ** solvePuzzle *)

Lemma solvePuzzle_unique grid s :
  shape9 grid -> unique_completion grid s -> solvePuzzle grid = Some (true, s).
Proof.
  intros Hshape [Hs Huniq]. destruct (completion_wf grid s Hshape Hs) as [[_ Hdig] Hfree].
  unfold solvePuzzle. rewrite cloneGrid_id.
  destruct (solveRecursive_spec search_fuel grid grid) as ([[b w'] res'] & -> & Hpost);
    [done..| |].
  { pose proof (empties_le grid). unfold search_fuel, GRID_SIZE. lia. }
  destruct b; cbn [solve_post] in Hpost.
  - destruct Hpost as (-> & Hw' & Hfull & Hext & Hdig' & Hfree').
    f_equal. f_equal. apply Huniq. split; [|done]. split; [split|]; auto.
  - destruct Hpost as (_ & _ & Hnone). by destruct (Hnone s).
Qed.

(** ** findAllSolutions *)

Lemma findCandidates_length recurse maxSolutions p nums grid solutions out :
  (forall g sols o, recurse g sols = Some o ->
     length o.2 <= Nat.max maxSolutions (length sols)) ->
  findCandidates recurse p nums grid solutions = Some out ->
  length out.2 <= Nat.max maxSolutions (length solutions).
Proof.
  intros Hrec. revert grid solutions.
  induction nums as [|num nums IH]; intros grid solutions; cbn [findCandidates].
  { intros [= <-]. simpl. lia. }
  destruct (isValidMove grid (row p) (col p) (Some num)); [|apply IH].
  destruct (recurse _ solutions) as [[g sols]|] eqn:Erec; [|done].
  apply Hrec in Erec. simpl in Erec. intros Hout%IH. lia.
Qed.

(** The search never collects more solutions than the bound allows. *)
Lemma findAllSolutions_length fuel grid solutions maxSolutions out :
  findAllSolutions fuel grid solutions maxSolutions = Some out ->
  length out.2 <= Nat.max maxSolutions (length solutions).
Proof.
  revert grid solutions out.
  induction fuel as [|fuel IH]; intros grid solutions out; [done|].
  cbn [findAllSolutions]. destruct (Nat.leb_spec maxSolutions (length solutions)) as [Hle|Hlt].
  { intros [= <-]. simpl. lia. }
  destruct (firstEmpty grid) as [p|].
  - apply findCandidates_length. intros g sols o. apply IH.
  - intros [= <-]. simpl. rewrite length_app. simpl. lia.
Qed.

(** The empty grid. *)
Lemma cell_createEmptyGrid r c : cell createEmptyGrid r c = None.
Proof.
  unfold cell, createEmptyGrid, GRID_SIZE.
  destruct (replicate 9 (replicate 9 None) !! r) as [cells|] eqn:Er; [|done].
  apply lookup_replicate in Er as [-> _].
  destruct (replicate 9 None !! c) as [v|] eqn:Ec; [|done].
  by apply lookup_replicate in Ec as [-> _].
Qed.

Lemma wf_createEmptyGrid : wf_grid createEmptyGrid.
Proof.
  split; [apply shape9_createEmptyGrid|]. intros r c n. by rewrite cell_createEmptyGrid.
Qed.

Lemma conflict_free_createEmptyGrid : conflict_free createEmptyGrid.
Proof. intros r c n _ _. by rewrite cell_createEmptyGrid. Qed.

(** X4.  On a 9x9 grid of numbers 1 to 9 without conflicts,
    [findAllSolutions] returns with the grid as it found it and appends
    distinct completions of the grid to the list; the list never grows
    beyond the bound, and while it stays below the bound every completion
    has been appended. *)
Theorem findAllSolutions_collects (grid : SudokuGrid) (solutions : list SudokuGrid)
    (maxSolutions : nat) :
  wf_grid grid -> conflict_free grid ->
  exists new,
    findAllSolutions search_fuel grid solutions maxSolutions = Some (grid, solutions ++ new) /\
    length (solutions ++ new) <= Nat.max maxSolutions (length solutions) /\
    NoDup new /\ (forall s, s ∈ new -> completion grid s) /\
    (length (solutions ++ new) < maxSolutions -> forall s, completion grid s -> s ∈ new).
Proof.
  intros [Hshape Hdig] Hfree.
  destruct (findAllSolutions_spec search_fuel maxSolutions grid solutions Hshape Hdig Hfree)
    as ([g' sols] & Hfind & Hgrid & new & Hsols & Hnd & Hcomp & Hall).
  { pose proof (empties_le grid). unfold search_fuel, GRID_SIZE. lia. }
  pose proof (findAllSolutions_length _ _ _ _ _ Hfind) as Hlen.
  simpl in Hgrid, Hsols, Hlen. subst g' sols.
  exists new. done.
Qed.

Lemma findAllSolutions_collects_witness :
  wf_grid createEmptyGrid /\ conflict_free createEmptyGrid /\
  exists new,
    findAllSolutions search_fuel createEmptyGrid [] 2 = Some (createEmptyGrid, [] ++ new) /\
    length ([] ++ new) <= Nat.max 2 (length (@nil SudokuGrid)) /\
    NoDup new /\ (forall s, s ∈ new -> completion createEmptyGrid s) /\
    (length ([] ++ new) < 2 -> forall s, completion createEmptyGrid s -> s ∈ new).
Proof.
  split; [apply wf_createEmptyGrid|]. split; [apply conflict_free_createEmptyGrid|].
  apply (findAllSolutions_collects createEmptyGrid [] 2
           wf_createEmptyGrid conflict_free_createEmptyGrid).
Defined.

(** X5.  On a 9x9 grid of numbers 1 to 9 without conflicts,
    [hasUniqueSolution] returns, and it returns [true] exactly when the
    grid has one and only one completion. *)
Theorem hasUniqueSolution_iff (grid : SudokuGrid) :
  wf_grid grid -> conflict_free grid ->
  exists b, hasUniqueSolution grid = Some b /\
            (b = true <-> exists s, unique_completion grid s).
Proof.
  intros Hwf Hfree.
  destruct (countSolutions_spec grid Hwf Hfree) as (n & _ & Hhas & Hiff).
  exists (n =? 1). split; [done|]. by rewrite Nat.eqb_eq.
Qed.

Lemma hasUniqueSolution_iff_witness :
  wf_grid createEmptyGrid /\ conflict_free createEmptyGrid /\
  exists b, hasUniqueSolution createEmptyGrid = Some b /\
            (b = true <-> exists s, unique_completion createEmptyGrid s).
Proof.
  split; [apply wf_createEmptyGrid|]. split; [apply conflict_free_createEmptyGrid|].
  apply (hasUniqueSolution_iff createEmptyGrid wf_createEmptyGrid conflict_free_createEmptyGrid).
Defined.

(** ** The removal loop *)

Lemma empties_full grid : full grid -> empties grid = 0.
Proof.
  intros Hfull. unfold empties.
  destruct (filter _ getAllPositions) as [|p l] eqn:E; [done|exfalso].
  assert (Hin : p ∈ filter (fun p => cell grid (row p) (col p) = None) getAllPositions)
    by (rewrite E; left).
  apply list_elem_of_filter in Hin as [Hnone [Hr Hc]%elem_of_getAllPositions].
  by apply (Hfull _ _ Hr Hc).
Qed.

Lemma empties_clear grid r c n :
  shape9 grid -> r < 9 -> c < 9 -> cell grid r c = Some n ->
  empties (set_cell grid r c None) = S (empties grid).
Proof.
  intros Hshape Hr Hc Hcell.
  rewrite (empties_set_cell (set_cell grid r c None) r c n);
    [|by apply shape9_set_cell|done..|by apply cell_set_cell_eq].
  rewrite set_cell_set_cell, <- Hcell, set_cell_cell; done.
Qed.

(** Every number from 1 to 9 stands in every row of a solution. *)
Lemma solution_row_has s r n :
  is_solution s -> r < 9 -> 1 <= n <= 9 -> exists c, c < 9 /\ cell s r c = Some n.
Proof.
  intros Hsol Hr Hn. destruct (is_solution_units s Hsol r Hr) as (Hperm & _).
  assert (Hin : Some n ∈ unitCells s (rowPositions r)).
  { rewrite Hperm. apply list_elem_of_fmap. exists n. split; [done|].
    apply elem_of_seq. lia. }
  apply elem_of_unitCells in Hin as (r' & c & [Hr' Hc]%elem_of_rowPositions & Hcell).
  simpl in Hr', Hc. subst r'. eauto.
Qed.

(** A solution with one cell cleared has that solution as its only
    completion. *)
Lemma unique_completion_clear solution r c :
  is_solution solution -> r < 9 -> c < 9 ->
  unique_completion (set_cell solution r c None) solution.
Proof.
  intros Hsol Hr Hc. pose proof Hsol as ((Hshape & Hdig) & Hfull & Hfree).
  assert (Hext : extends (set_cell solution r c None) solution).
  { intros r' c' n. rewrite cell_set_cell by done. by case_decide. }
  split; [done|]. intros s' [Hsol' Hext'].
  pose proof Hsol' as ((Hshape' & Hdig') & Hfull' & Hfree').
  apply grid_ext; [done..|]. intros r' c' Hr' Hc'.
  destruct (decide ((r', c') = (r, c))) as [[= -> ->]|Hne].
  2:{ destruct (cell solution r' c') as [n|] eqn:Hcell; [|by destruct (Hfull r' c')].
      apply Hext'. by rewrite cell_set_cell_ne. }
  clear Hr' Hc'.
  destruct (cell s' r c) as [n'|] eqn:Hcell'; [|by destruct (Hfull' r c)].
  destruct (solution_row_has solution r n' Hsol Hr) as (c1 & Hc1 & Hcell).
  { specialize (Hdig' r c n' Hcell'). lia. }
  destruct (decide (c1 = c)) as [->|Hne]; [done|exfalso].
  assert (Hs' : cell s' r c1 = Some n').
  { apply Hext'. rewrite cell_set_cell_ne; [done|congruence]. }
  specialize (Hfree' r c n' Hr Hc Hcell'). rewrite isValidMove_true in Hfree' by done.
  apply (Hfree' r c1); [|done]. split; [congruence|]. split; [done|]. split; [done|]. by left.
Qed.

(** The removal loop keeps the puzzle uniquely solvable and counts the
    cells it has cleared. *)
Lemma removeCells_count cellsToRemove positions solution puzzle removed :
  NoDup positions ->
  (forall pos, pos ∈ positions ->
     row pos < 9 /\ col pos < 9 /\ cell puzzle (row pos) (col pos) <> None) ->
  shape9 puzzle -> unique_completion puzzle solution ->
  exists puzzle' removed',
    removeCells cellsToRemove positions puzzle removed = Some (puzzle', removed') /\
    shape9 puzzle' /\ unique_completion puzzle' solution /\
    empties puzzle' + removed = empties puzzle + removed' /\
    removed <= removed' /\ (removed <= cellsToRemove -> removed' <= cellsToRemove).
Proof.
  intros Hnd. revert puzzle removed.
  induction Hnd as [|pos positions Hnotin Hnd IH]; intros puzzle removed Hpos Hshape Huniq;
    cbn [removeCells].
  { exists puzzle, removed. do 3 (split; [done|]). lia. }
  destruct (Nat.leb_spec cellsToRemove removed) as [Hle|Hlt].
  { exists puzzle, removed. do 3 (split; [done|]). lia. }
  destruct (Hpos pos ltac:(left)) as (Hr & Hc & Hsome).
  destruct (cell puzzle (row pos) (col pos)) as [n|] eqn:Hcell; [clear Hsome|done].
  set (cleared := set_cell puzzle (row pos) (col pos) None).
  assert (Hsc : shape9 cleared) by (by apply shape9_set_cell).
  assert (Hcc : completion cleared solution).
  { destruct Huniq as [[Hsol Hext] _]. split; [done|].
    intros r c m. unfold cleared. rewrite cell_set_cell by done.
    case_decide; [done | apply Hext]. }
  destruct (completion_wf cleared solution Hsc Hcc) as [Hwf Hfree].
  destruct (countSolutions_spec cleared Hwf Hfree) as (k & _ & -> & Hiff).
  destruct (Nat.eqb_spec k 1) as [->|Hne].
  - destruct (IH cleared (S removed)) as (puzzle' & removed' & -> & Hs' & Hu' & He & Hm & Hb).
    + intros q Hq. destruct (Hpos q ltac:(by right)) as (Hqr & Hqc & Hqs).
      split; [done|]. split; [done|]. unfold cleared. rewrite cell_set_cell_ne; [done|].
      intros [= Hrow Hcol]. apply Hnotin. destruct q, pos. simpl in *. by subst.
    + done.
    + destruct (proj1 Hiff eq_refl) as (s & Hs & Hall).
      assert (s = solution) as -> by (symmetry; by apply Hall). by split.
    + exists puzzle', removed'. split; [done|]. split; [done|]. split; [done|].
      pose proof (empties_clear puzzle (row pos) (col pos) n Hshape Hr Hc Hcell) as Hec.
      fold cleared in Hec. lia.
  - assert (set_cell cleared (row pos) (col pos) (Some n) = puzzle) as ->.
    { unfold cleared. rewrite set_cell_set_cell, <- Hcell. by apply set_cell_cell. }
    apply IH; [|done..]. intros q Hq. apply Hpos. by right.
Qed.

(** ** getHint, shuffleArray and the generator *)

Section Random.

Variable rnd : nat -> Q.

Lemma shuffle_from_draws {A} i k (l : list A) : (shuffle_from rnd i k l).2 = k + i.
Proof.
  revert k l. induction i as [|i IH]; intros k l; cbn [shuffle_from]; [simpl; lia|].
  rewrite IH. lia.
Qed.

Lemma shuffleArray_draws {A} k (l : list A) : (shuffleArray rnd k l).2 = k + (length l - 1).
Proof. apply shuffle_from_draws. Qed.

(** A hint is a position on the board whose cell is empty. *)
Lemma getHint_Some k grid solution p :
  (getHint rnd k grid solution).1 = Some p ->
  row p < 9 /\ col p < 9 /\ cell grid (row p) (col p) = None /\
  (getHint rnd k grid solution).2 = S k.
Proof.
  unfold getHint.
  destruct (filter _ getAllPositions) as [|p0 l] eqn:E; [done|]. cbn [fst snd].
  intros Hp%list_elem_of_lookup_2. rewrite <- E in Hp.
  apply list_elem_of_filter in Hp as [Hnone [Hr Hc]%elem_of_getAllPositions]. done.
Qed.

(** [Math.random()] returns a number in the range 0 to less than 1. *)
Hypothesis rnd_range : forall n, (0 <= rnd n)%Q /\ (rnd n < 1)%Q.

(** X6.  [shuffleArray] returns a permutation of its argument, so no
    element is lost or doubled, and makes one draw for each element but
    the first. *)
Theorem shuffleArray_spec {A : Type} (k : nat) (array : list A) :
  (shuffleArray rnd k array).1 ≡ₚ array /\
  length (shuffleArray rnd k array).1 = length array /\
  (shuffleArray rnd k array).2 = k + (length array - 1).
Proof.
  pose proof (shuffleArray_Permutation rnd rnd_range k array) as Hperm.
  split; [done|]. split; [by rewrite Hperm | apply shuffleArray_draws].
Qed.

(** X7.  On a 9x9 grid [getHint] returns [null], without a draw, exactly
    when no cell of the grid is empty; otherwise it makes one draw and
    returns a position on the board whose cell is empty. *)
Theorem getHint_empty_cell (k : nat) (grid solution : SudokuGrid) :
  shape9 grid ->
  ((getHint rnd k grid solution).1 = None <-> full grid) /\
  (full grid -> getHint rnd k grid solution = (None, k)) /\
  (forall p, (getHint rnd k grid solution).1 = Some p ->
     row p < 9 /\ col p < 9 /\ cell grid (row p) (col p) = None /\
     (getHint rnd k grid solution).2 = S k).
Proof.
  intros _.
  assert (Hnone : full grid -> getHint rnd k grid solution = (None, k)).
  { intros Hfull. unfold getHint.
    destruct (filter _ getAllPositions) as [|p l] eqn:E; [done|exfalso].
    assert (Hin : p ∈ filter (fun p => cell grid (row p) (col p) = None) getAllPositions)
      by (rewrite E; left).
    apply list_elem_of_filter in Hin as [Hp [Hr Hc]%elem_of_getAllPositions].
    by apply (Hfull _ _ Hr Hc). }
  split; [|split; [done | apply getHint_Some]].
  split; [|by intros ->%Hnone]. unfold getHint.
  destruct (filter _ getAllPositions) as [|p0 l] eqn:E.
  - intros _ r c Hr Hc Hcell.
    assert (Hp : mkPosition r c ∈
                 filter (fun p => cell grid (row p) (col p) = None) getAllPositions).
    { apply list_elem_of_filter. split; [done | by apply elem_of_getAllPositions]. }
    rewrite E in Hp. by apply elem_of_nil in Hp.
  - pose proof (randomIndex_lt rnd rnd_range k (length (p0 :: l)) ltac:(simpl; lia)) as Hlt.
    destruct (lookup_lt_is_Some_2 _ _ Hlt) as [p Hp]. by rewrite Hp.
Qed.

Lemma fillDiagonalBoxes_shuffles k :
  fillDiagonalBoxes rnd k createEmptyGrid =
  (diagonalGrid (shuffleArray rnd k (seq 1 9)).1 (shuffleArray rnd (k + 8) (seq 1 9)).1
                (shuffleArray rnd (k + 16) (seq 1 9)).1, k + 24).
Proof.
  unfold fillDiagonalBoxes. cbn [fold_left]. unfold fillBox.
  pose proof (shuffleArray_draws k (seq 1 9)) as D0.
  destruct (shuffleArray rnd k (seq 1 9)) as [n0 k1]. simpl in D0. subst k1.
  pose proof (shuffleArray_draws (k + 8) (seq 1 9)) as D1.
  destruct (shuffleArray rnd (k + 8) (seq 1 9)) as [n1 k2]. simpl in D1. subst k2.
  replace (k + 8 + 8) with (k + 16) by lia.
  pose proof (shuffleArray_draws (k + 16) (seq 1 9)) as D2.
  destruct (shuffleArray rnd (k + 16) (seq 1 9)) as [n2 k3]. simpl in D2. subst k3.
  replace (k + 16 + 8) with (k + 24) by lia. reflexivity.
Qed.

(** X8.  [generateCompleteSolution] makes 24 draws, and the three boxes
    on the diagonal of the grid it returns hold, row by row, the three
    shuffles of 1 to 9 drawn at the start: the fill of the other cells
    never changes them. *)
Theorem generateCompleteSolution_diagonal (k : nat) :
  exists grid,
    generateCompleteSolution rnd k = Some (grid, k + 24) /\
    forall b i j, b < 3 -> i < 3 -> j < 3 ->
      cell grid (3 * b + i) (3 * b + j) =
      (shuffleArray rnd (k + 8 * b) (seq 1 9)).1 !! (3 * i + j).
Proof.
  unfold generateCompleteSolution. rewrite fillDiagonalBoxes_shuffles.
  set (n0 := (shuffleArray rnd k (seq 1 9)).1).
  set (n1 := (shuffleArray rnd (k + 8) (seq 1 9)).1).
  set (n2 := (shuffleArray rnd (k + 16) (seq 1 9)).1).
  assert (H0 : n0 ≡ₚ seq 1 9) by apply (shuffleArray_Permutation rnd rnd_range).
  assert (H1 : n1 ≡ₚ seq 1 9) by apply (shuffleArray_Permutation rnd rnd_range).
  assert (H2 : n2 ≡ₚ seq 1 9) by apply (shuffleArray_Permutation rnd rnd_range).
  destruct (fillRemaining_diagonal n0 n1 n2 H0 H1 H2) as (grid & Hfill & Hsol).
  rewrite Hfill. exists grid. split; [done|].
  rewrite (fillRemaining_fillList _ _ _ _ _ fillTrace_start) in Hfill.
  destruct (fillList_spec fillOrder (diagonalGrid n0 n1 n2) NoDup_fillOrder)
    as (out & Hout & Hpost).
  { split; [apply shape9_diagonalGrid|]. intros r c (Hr & Hc & Hne)%elem_of_fillOrder.
    split; [done|]. split; [done|]. by rewrite cell_diagonalGrid, decide_False. }
  rewrite Hfill in Hout. injection Hout as <-.
  destruct Hpost as (_ & _ & _ & Hsame & _).
  intros b i j Hb Hi Hj.
  assert (Hrd : (3 * b + i) / 3 = b) by (symmetry; apply (Nat.div_unique _ 3 b i); lia).
  assert (Hcd : (3 * b + j) / 3 = b) by (symmetry; apply (Nat.div_unique _ 3 b j); lia).
  assert (Hrm : (3 * b + i) mod 3 = i) by (symmetry; apply (Nat.mod_unique _ 3 b i); lia).
  assert (Hcm : (3 * b + j) mod 3 = j) by (symmetry; apply (Nat.mod_unique _ 3 b j); lia).
  rewrite Hsame by (rewrite elem_of_fillOrder; lia).
  rewrite cell_diagonalGrid by lia. rewrite decide_True by lia.
  rewrite Hrd, Hrm, Hcm.
  destruct b as [|[|[|b]]]; [| | |lia]; cbn [pick]; unfold n0, n1, n2;
    repeat f_equal; lia.
Qed.

Lemma generateCompleteSolution_draws k grid k' :
  generateCompleteSolution rnd k = Some (grid, k') -> k' = k + 24.
Proof.
  unfold generateCompleteSolution. rewrite fillDiagonalBoxes_shuffles.
  destruct (fillRemaining _ _ _ _) as [[b g]|]; [|done]. by intros [= _ <-].
Qed.

(** What [generatePuzzle] returns. *)
Lemma generatePuzzle_result k difficulty :
  exists puzzle solution,
    generatePuzzle rnd k difficulty = Some (puzzle, solution, k + 104) /\
    is_solution solution /\ shape9 puzzle /\ unique_completion puzzle solution /\
    1 <= empties puzzle <= getCellsToRemove difficulty.
Proof.
  destruct (generateCompleteSolution_solution rnd rnd_range k)
    as (solution & k1 & Hgen & Hsol).
  pose proof (generateCompleteSolution_draws _ _ _ Hgen) as ->.
  pose proof Hsol as ((Hshape & Hdig) & Hfull & Hfree).
  unfold generatePuzzle. rewrite Hgen, cloneGrid_id.
  pose proof (shuffleArray_Permutation rnd rnd_range (k + 24) getAllPositions) as Hperm.
  pose proof (shuffleArray_draws (k + 24) getAllPositions) as Hdraws.
  destruct (shuffleArray rnd (k + 24) getAllPositions) as [shuffled k2].
  cbn [fst snd] in Hperm, Hdraws. rewrite length_getAllPositions in Hdraws.
  assert (k2 = k + 104) as -> by lia. clear Hdraws.
  assert (Hpos : forall pos, pos ∈ shuffled ->
            row pos < 9 /\ col pos < 9 /\ cell solution (row pos) (col pos) <> None).
  { intros pos Hin. rewrite Hperm in Hin. apply elem_of_getAllPositions in Hin as [Hr Hc].
    split; [done|]. split; [done|]. by apply Hfull. }
  assert (Hnd : NoDup shuffled) by (rewrite Hperm; apply NoDup_getAllPositions).
  assert (Htarget : 40 <= getCellsToRemove difficulty) by (destruct difficulty; simpl; lia).
  destruct shuffled as [|pos shuffled].
  { apply Permutation_length in Hperm. by rewrite length_getAllPositions in Hperm. }
  destruct (Hpos pos ltac:(left)) as (Hr & Hc & _).
  apply NoDup_cons in Hnd as [Hnotin Hnd].
  pose proof (unique_completion_clear solution (row pos) (col pos) Hsol Hr Hc) as Hclear.
  set (cleared := set_cell solution (row pos) (col pos) None) in *.
  assert (Hsc : shape9 cleared) by (by apply shape9_set_cell).
  cbn [removeCells]. fold cleared.
  destruct (Nat.leb_spec (getCellsToRemove difficulty) 0) as [Hle|_]; [lia|].
  destruct (unique_completion_count cleared solution Hsc Hclear) as [_ ->].
  destruct (removeCells_count (getCellsToRemove difficulty) shuffled solution cleared 1)
    as (puzzle & removed & -> & Hsp & Hup & He & Hm & Hb); [done| |done..|].
  { intros q Hq. destruct (Hpos q ltac:(by right)) as (Hqr & Hqc & Hqs).
    split; [done|]. split; [done|]. unfold cleared. rewrite cell_set_cell_ne; [done|].
    intros [= Hrow Hcol]. apply Hnotin. destruct q, pos. simpl in *. by subst. }
  exists puzzle, solution. split; [done|]. split; [done|]. split; [done|]. split; [done|].
  destruct (cell solution (row pos) (col pos)) as [n|] eqn:Hcell; [|by destruct (Hfull _ _ Hr Hc)].
  pose proof (empties_clear solution _ _ n Hshape Hr Hc Hcell) as Hec. fold cleared in Hec.
  rewrite (empties_full solution Hfull) in Hec. lia.
Qed.

(** X9.  [generatePuzzle] returns a puzzle with at least one empty cell
    and at most as many empty cells as the difficulty asks to remove (40,
    50 or 60), after 104 draws. *)
Theorem generatePuzzle_empties (k : nat) (difficulty : Difficulty) :
  exists puzzle solution,
    generatePuzzle rnd k difficulty = Some (puzzle, solution, k + 104) /\
    1 <= empties puzzle <= getCellsToRemove difficulty.
Proof.
  destruct (generatePuzzle_result k difficulty) as (puzzle & solution & Hgen & _ & _ & _ & He).
  by exists puzzle, solution.
Qed.

(** X10.  Solving a generated puzzle gives back the solution it was
    generated with: [solvePuzzle] returns [true] on the puzzle of
    [generatePuzzle] and leaves the stored solution in the grid. *)
Theorem solvePuzzle_generated (k : nat) (difficulty : Difficulty) :
  exists puzzle solution k',
    generatePuzzle rnd k difficulty = Some (puzzle, solution, k') /\
    solvePuzzle puzzle = Some (true, solution).
Proof.
  destruct (generatePuzzle_result k difficulty)
    as (puzzle & solution & Hgen & _ & Hshape & Huniq & _).
  exists puzzle, solution, (k + 104). split; [done|]. by apply solvePuzzle_unique.
Qed.

End Random.

(** A source of draws that always returns 0. *)
Definition zero_draws : nat -> Q := fun _ => 0%Q.

Lemma zero_draws_range : forall n, (0 <= zero_draws n)%Q /\ (zero_draws n < 1)%Q.
Proof. intros n. split; [apply Qle_refl | reflexivity]. Qed.

Lemma shuffleArray_spec_witness :
  (forall n, (0 <= zero_draws n)%Q /\ (zero_draws n < 1)%Q) /\
  (shuffleArray zero_draws 0 [1; 2; 3]).1 ≡ₚ [1; 2; 3] /\
  length (shuffleArray zero_draws 0 [1; 2; 3]).1 = length [1; 2; 3] /\
  (shuffleArray zero_draws 0 [1; 2; 3]).2 = 0 + (length [1; 2; 3] - 1).
Proof.
  split; [exact zero_draws_range|].
  apply (shuffleArray_spec zero_draws zero_draws_range 0 [1; 2; 3]).
Defined.

Lemma getHint_empty_cell_witness :
  (forall n, (0 <= zero_draws n)%Q /\ (zero_draws n < 1)%Q) /\
  shape9 createEmptyGrid /\
  ((getHint zero_draws 0 createEmptyGrid createEmptyGrid).1 = None <-> full createEmptyGrid) /\
  (full createEmptyGrid -> getHint zero_draws 0 createEmptyGrid createEmptyGrid = (None, 0)) /\
  (forall p, (getHint zero_draws 0 createEmptyGrid createEmptyGrid).1 = Some p ->
     row p < 9 /\ col p < 9 /\ cell createEmptyGrid (row p) (col p) = None /\
     (getHint zero_draws 0 createEmptyGrid createEmptyGrid).2 = 1).
Proof.
  split; [exact zero_draws_range|]. split; [exact shape9_createEmptyGrid|].
  apply (getHint_empty_cell zero_draws zero_draws_range 0 createEmptyGrid createEmptyGrid
           shape9_createEmptyGrid).
Defined.

Lemma generateCompleteSolution_diagonal_witness :
  (forall n, (0 <= zero_draws n)%Q /\ (zero_draws n < 1)%Q) /\
  exists grid,
    generateCompleteSolution zero_draws 0 = Some (grid, 0 + 24) /\
    forall b i j, b < 3 -> i < 3 -> j < 3 ->
      cell grid (3 * b + i) (3 * b + j) =
      (shuffleArray zero_draws (0 + 8 * b) (seq 1 9)).1 !! (3 * i + j).
Proof.
  split; [exact zero_draws_range|].
  apply (generateCompleteSolution_diagonal zero_draws zero_draws_range 0).
Defined.

Lemma generatePuzzle_empties_witness :
  (forall n, (0 <= zero_draws n)%Q /\ (zero_draws n < 1)%Q) /\
  exists puzzle solution,
    generatePuzzle zero_draws 0 hard = Some (puzzle, solution, 0 + 104) /\
    1 <= empties puzzle <= getCellsToRemove hard.
Proof.
  split; [exact zero_draws_range|].
  apply (generatePuzzle_empties zero_draws zero_draws_range 0 hard).
Defined.

Lemma solvePuzzle_generated_witness :
  (forall n, (0 <= zero_draws n)%Q /\ (zero_draws n < 1)%Q) /\
  exists puzzle solution k',
    generatePuzzle zero_draws 0 medium = Some (puzzle, solution, k') /\
    solvePuzzle puzzle = Some (true, solution).
Proof.
  split; [exact zero_draws_range|].
  apply (solvePuzzle_generated zero_draws zero_draws_range 0 medium).
Defined.

End EngineLaws.

(** * Further properties of the game session *)

Module SessionLaws.

Import SudokuEngine GameManager EngineFacts SolverFacts PuzzleFacts SessionFacts EngineLaws.

#[local] Existing Instance in_conflict_dec.

(** ** The state, the timer and the completion flag *)

(** The interval timer is set exactly while the game is in play, and the
    session is flagged as completed exactly in the state [completed]. *)
Definition state_ok (m : Manager) : Prop :=
  (timerInterval m = true <-> gameState m = playing) /\
  (forall gd, gameData m = Some gd -> (gameCompleted gd = true <-> gameState m = completed)).

Lemma state_ok_makeMove m r c value now doneAt :
  state_ok m -> state_ok (fst (makeMove m r c value now doneAt)).
Proof.
  intros Hok. pose proof Hok as [Htimer Hflag]. unfold makeMove.
  destruct (gameData m) as [gd|] eqn:Egd; [|done].
  case_bool_decide as Hstate; [|done].
  destruct (js_nth (originalGrid gd) r) as [ocells|]; [|done].
  destruct (js_nth ocells c) as [[k|]|]; [done| |done].
  destruct (js_nth (grid gd) r) as [cells|]; [|done].
  destruct (js_nth cells c) as [previous|]; [|done].
  destruct (isCompleted _); cbn [fst].
  - split; [done|]. unfold completeGame. cbn. intros gd' [= <-]. done.
  - split; [done|]. cbn. intros gd' [= <-]. cbn. apply Hflag. done.
Qed.

Lemma state_ok_undoMove m : state_ok m -> state_ok (fst (undoMove m)).
Proof.
  intros Hok. pose proof Hok as [Htimer Hflag]. unfold undoMove.
  destruct (gameData m) as [gd|] eqn:Egd; [|done].
  destruct (pop (moveHistory gd)) as [[history lastMove]|]; [|done].
  cbn [grid dropLastMove].
  destruct (_ !! _); [destruct (_ <? _)|]; (split; [done|]);
    cbn; intros gd' [= <-]; cbn; by apply Hflag.
Qed.

Lemma state_ok_step m op : state_ok m -> state_ok (step m op).
Proof.
  intros Hok. destruct op as [r c value now doneAt| |now|now|k| |now]; cbn [step]; try done.
  - by apply state_ok_makeMove.
  - by apply state_ok_undoMove.
  - pose proof Hok as [Htimer Hflag]. unfold pauseGame. case_bool_decide as Hstate; [|done].
    split; [done|]. cbn. intros gd Hgd. rewrite (Hflag gd Hgd), Hstate. done.
  - pose proof Hok as [Htimer Hflag]. unfold resumeGame. case_bool_decide as Hstate; [|done].
    split.
    + by destruct (0 <? _)%Z.
    + intros gd Hgd. assert (gameData m = Some gd) as Hgd'.
      { revert Hgd. by destruct (0 <? _)%Z. }
      rewrite (Hflag gd Hgd'), Hstate. by destruct (0 <? _)%Z.
  - pose proof Hok as [Htimer Hflag]. unfold timerTick.
    destruct (gameData m) as [gd|] eqn:Egd; [|done].
    case_bool_decide as Hstate; [|done].
    split; [done|]. cbn. intros gd' [= <-]. cbn. by apply Hflag.
Qed.

(** X11.  The timer is set exactly while the game is in play, and the
    session is flagged as completed exactly in the state [completed]:
    this holds for a new manager, after [startNewGame] and after
    [dispose], and every call keeps it. *)
Theorem timer_runs_iff_playing :
  state_ok initial /\
  (forall m, state_ok (dispose m)) /\
  (forall rnd m k level idAt createdAt' startAt m' k',
     startNewGame rnd m k level idAt createdAt' startAt = Some (m', k') -> state_ok m') /\
  (forall ops m, state_ok m -> state_ok (run ops m)).
Proof.
  split; [done|]. split; [done|]. split.
  - intros rnd m k level idAt createdAt' startAt m' k'. unfold startNewGame.
    destruct (generatePuzzle rnd k level) as [[[puzzle solved] k1]|]; [|done].
    intros [= <- _]. split; [done|]. cbn. intros gd [= <-]. done.
  - intros ops. unfold run. induction ops as [|op ops IH]; intros m Hok; [done|].
    cbn [fold_left]. by apply IH, state_ok_step.
Qed.

(** ** A completed game *)

Lemma completed_step m op :
  gameState m = completed ->
  gameState (step m op) = completed /\
  timerInterval (step m op) = timerInterval m /\
  startTime (step m op) = startTime m /\ pausedTime (step m op) = pausedTime m /\
  timeElapsed <$> gameData (step m op) = timeElapsed <$> gameData m /\
  gameCompleted <$> gameData (step m op) = gameCompleted <$> gameData m /\
  solution <$> gameData (step m op) = solution <$> gameData m.
Proof.
  intros Hstate. destruct op as [r c value now doneAt| |now|now|k| |now]; cbn [step]; try done.
  - unfold makeMove. destruct (gameData m) as [gd|] eqn:Egd; [|by cbn [fst]; rewrite Egd].
    rewrite bool_decide_eq_false_2 by congruence. cbn [fst]. by rewrite Egd.
  - unfold undoMove. destruct (gameData m) as [gd|] eqn:Egd; [|by cbn [fst]; rewrite Egd].
    destruct (pop (moveHistory gd)) as [[history lastMove]|]; [|by cbn [fst]; rewrite Egd].
    cbn [grid dropLastMove]. destruct (_ !! _); [destruct (_ <? _)|]; done.
  - unfold pauseGame. by rewrite bool_decide_eq_false_2 by congruence.
  - unfold resumeGame. by rewrite bool_decide_eq_false_2 by congruence.
  - unfold timerTick. destruct (gameData m) as [gd|] eqn:Egd; [|by rewrite Egd].
    rewrite bool_decide_eq_false_2 by congruence. by rewrite Egd.
Qed.

(** A completed session on a full board of ones. *)
Definition completed_manager : Manager :=
  {| gameData := Some
       {| id := (0%Z, 0%Q); grid := all_ones; solution := all_ones;
          originalGrid := createEmptyGrid; difficulty := easy; timeElapsed := 12%Z;
          moveHistory := []; gameCompleted := true; createdAt := 0%Z |};
     gameState := completed; startTime := 1%Z; pausedTime := 0%Z; timerInterval := false |}.

(** X12.  Within a session the state [completed] is final: no sequence
    of moves, undos, pauses, resumes, hints, validations and timer ticks
    leaves it or changes the timer, the start time, the recorded time,
    the completion flag or the solution, and every further move is
    refused with [false].  Only the two calls that end the session leave
    it: [dispose] goes to [menu], and [startNewGame] puts a new session
    in play. *)
Theorem completed_is_final (m : Manager) (ops : list Op) :
  gameState m = completed ->
  gameState (run ops m) = completed /\
  timerInterval (run ops m) = timerInterval m /\
  startTime (run ops m) = startTime m /\ pausedTime (run ops m) = pausedTime m /\
  timeElapsed <$> gameData (run ops m) = timeElapsed <$> gameData m /\
  gameCompleted <$> gameData (run ops m) = gameCompleted <$> gameData m /\
  solution <$> gameData (run ops m) = solution <$> gameData m /\
  (forall r c value now doneAt,
     makeMove (run ops m) r c value now doneAt = (run ops m, Returned false)) /\
  gameState (dispose (run ops m)) = menu /\ gameData (dispose (run ops m)) = None /\
  (forall rnd k level idAt createdAt' startAt m' k',
     startNewGame rnd (run ops m) k level idAt createdAt' startAt = Some (m', k') ->
     gameState m' = playing /\ timerInterval m' = true /\
     gameCompleted <$> gameData m' = Some false /\ moveHistory <$> gameData m' = Some []).
Proof.
  intros Hstate.
  assert (Hlast : forall m0,
    gameState (dispose m0) = menu /\ gameData (dispose m0) = None /\
    (forall rnd k level idAt createdAt' startAt m' k',
       startNewGame rnd m0 k level idAt createdAt' startAt = Some (m', k') ->
       gameState m' = playing /\ timerInterval m' = true /\
       gameCompleted <$> gameData m' = Some false /\ moveHistory <$> gameData m' = Some [])).
  { intros m0. split; [done|]. split; [done|].
    intros rnd k level idAt createdAt' startAt m' k'. unfold startNewGame.
    destruct (generatePuzzle rnd k level) as [[[puzzle solved] k1]|]; [|done].
    by intros [= <- _]. }
  revert m Hstate. unfold run.
  induction ops as [|op ops IH]; intros m Hstate; cbn [fold_left].
  { do 7 (split; [done|]). split; [|apply Hlast].
    intros r c value now doneAt. unfold makeMove.
    destruct (gameData m); [|done]. by rewrite bool_decide_eq_false_2 by congruence. }
  destruct (completed_step m op Hstate) as (H1 & H2 & H3 & H4 & H5 & H6 & H7).
  destruct (IH (step m op) H1) as (I1 & I2 & I3 & I4 & I5 & I6 & I7 & I8 & I9).
  rewrite I2, I3, I4, I5, I6, I7. done.
Qed.

Lemma completed_is_final_witness :
  gameState completed_manager = completed /\
  gameState (run [OpUndoMove; OpResumeGame 5; OpTimerTick 9] completed_manager) = completed /\
  timeElapsed <$> gameData (run [OpUndoMove; OpResumeGame 5; OpTimerTick 9] completed_manager)
    = Some 12%Z /\
  gameState (dispose (run [OpUndoMove; OpResumeGame 5; OpTimerTick 9] completed_manager))
    = menu.
Proof.
  split; [reflexivity|].
  destruct (completed_is_final completed_manager [OpUndoMove; OpResumeGame 5; OpTimerTick 9]
              eq_refl) as (H1 & _ & _ & _ & H5 & _ & _ & _ & H9 & _).
  split; [exact H1|]. split; [exact H5 | exact H9].
Defined.

(** ** The move that ends the game *)

(** X13.  An accepted move ends the game exactly when the grid it leaves
    is full and free of conflicts.  The game then goes to [completed], the
    timer is cleared, and the session is flagged and gets the time
    elapsed at that moment; otherwise the state, the timer, the flag and
    the recorded time are as before. *)
Theorem makeMove_completes_iff (m m1 : Manager) (r c : Z) (value : CellValue) (now doneAt : Z) :
  makeMove m r c value now doneAt = (m1, Returned true) ->
  exists gd gd1,
    gameData m = Some gd /\ gameData m1 = Some gd1 /\
    grid gd1 = set_cell (grid gd) (Z.to_nat r) (Z.to_nat c) value /\
    (gameState m1 = completed <-> full (grid gd1) /\ conflict_free (grid gd1)) /\
    (gameState m1 = completed ->
       gameCompleted gd1 = true /\ timerInterval m1 = false /\
       timeElapsed gd1 = getCurrentTimeElapsed m doneAt) /\
    (gameState m1 <> completed ->
       gameState m1 = playing /\ gameCompleted gd1 = gameCompleted gd /\
       timerInterval m1 = timerInterval m /\ timeElapsed gd1 = timeElapsed gd).
Proof.
  unfold makeMove. destruct (gameData m) as [gd|] eqn:Egd; [|done].
  case_bool_decide as Hstate; [|done].
  destruct (js_nth (originalGrid gd) r) as [ocells|]; [|done].
  destruct (js_nth ocells c) as [[k|]|]; [done| |done].
  destruct (js_nth (grid gd) r) as [cells|]; [|done].
  destruct (js_nth cells c) as [previous|]; [|done].
  destruct (isCompleted _) eqn:Edone; unfold validateGame in Edone;
    cbn [gameData setGameData] in Edone; intros [= <-].
  - apply validateGrid_completed in Edone. cbn [grid recordMove] in Edone.
    eexists _, _. do 3 (split; [reflexivity|]). cbn.
    split; [done|]. split; [done|]. done.
  - apply not_true_iff_false in Edone. rewrite validateGrid_completed in Edone.
    cbn [grid recordMove] in Edone.
    eexists _, _. do 3 (split; [reflexivity|]). cbn. rewrite Hstate.
    split; [split; [done|]; intros ?; by destruct Edone|].
    split; [done|]. done.
Qed.

Lemma makeMove_completes_iff_witness :
  makeMove sample_manager 0 0 (Some 5) 3 4 =
    (fst (makeMove sample_manager 0 0 (Some 5) 3 4), Returned true) /\
  exists gd gd1,
    gameData sample_manager = Some gd /\
    gameData (fst (makeMove sample_manager 0 0 (Some 5) 3 4)) = Some gd1 /\
    grid gd1 = set_cell (grid gd) (Z.to_nat 0) (Z.to_nat 0) (Some 5) /\
    (gameState (fst (makeMove sample_manager 0 0 (Some 5) 3 4)) = completed <->
       full (grid gd1) /\ conflict_free (grid gd1)) /\
    (gameState (fst (makeMove sample_manager 0 0 (Some 5) 3 4)) = completed ->
       gameCompleted gd1 = true /\
       timerInterval (fst (makeMove sample_manager 0 0 (Some 5) 3 4)) = false /\
       timeElapsed gd1 = getCurrentTimeElapsed sample_manager 4) /\
    (gameState (fst (makeMove sample_manager 0 0 (Some 5) 3 4)) <> completed ->
       gameState (fst (makeMove sample_manager 0 0 (Some 5) 3 4)) = playing /\
       gameCompleted gd1 = gameCompleted gd /\
       timerInterval (fst (makeMove sample_manager 0 0 (Some 5) 3 4)) =
         timerInterval sample_manager /\
       timeElapsed gd1 = timeElapsed gd).
Proof.
  assert (H : makeMove sample_manager 0 0 (Some 5) 3 4 =
              (fst (makeMove sample_manager 0 0 (Some 5) 3 4), Returned true))
    by (vm_compute; reflexivity).
  split; [exact H|].
  exact (makeMove_completes_iff sample_manager _ 0 0 (Some 5) 3 4 H).
Defined.

(** X14.  [makeMove] does not check the rules of the game: whether a move
    is accepted does not depend on the value, so a number in conflict with
    its row, column or box is written like any other.  The validation
    that follows reports the cell exactly when [isValidMove] rejects the
    number on the grid before the move. *)
Theorem makeMove_accepts_conflicts (m m1 : Manager) (gd : GameData) (r c : Z) (n : nat)
    (now doneAt : Z) :
  gameData m = Some gd -> shape9 (grid gd) ->
  (forall value value', snd (makeMove m r c value now doneAt)
                        = snd (makeMove m r c value' now doneAt)) /\
  (makeMove m r c (Some n) now doneAt = (m1, Returned true) ->
   (mkPosition (Z.to_nat r) (Z.to_nat c) ∈ conflicts (validateGame m1) <->
    isValidMove (grid gd) (Z.to_nat r) (Z.to_nat c) (Some n) = false)).
Proof.
  intros Egd Hshape. split.
  - intros value value'. unfold makeMove. rewrite Egd.
    case_bool_decide; [|done].
    destruct (js_nth (originalGrid gd) r) as [ocells|]; [|done].
    destruct (js_nth ocells c) as [[k|]|]; [done| |done].
    destruct (js_nth (grid gd) r) as [cells|]; [|done].
    destruct (js_nth cells c) as [previous|]; [|done].
    by do 2 destruct (isCompleted _).
  - unfold makeMove. rewrite Egd.
    case_bool_decide as Hstate; [|done].
    destruct (js_nth (originalGrid gd) r) as [ocells|]; [|done].
    destruct (js_nth ocells c) as [[k|]|]; [done| |done].
    destruct (js_nth (grid gd) r) as [cells|] eqn:Erow; [|done].
    destruct (js_nth cells c) as [previous|] eqn:Ecol; [|done].
    apply js_nth_Some in Erow as [_ Erow], Ecol as [_ Ecol].
    assert (Hr : Z.to_nat r < 9).
    { destruct Hshape as [<- _]. by eapply lookup_lt_Some. }
    assert (Hc : Z.to_nat c < 9).
    { destruct Hshape as [_ Hrows]. rewrite Forall_forall in Hrows.
      rewrite <- (Hrows cells) by (apply list_elem_of_lookup; eauto).
      by eapply lookup_lt_Some. }
    assert (Hin : mkPosition (Z.to_nat r) (Z.to_nat c) ∈
                  conflicts (validateGrid (set_cell (grid gd) (Z.to_nat r) (Z.to_nat c) (Some n)))
                  <-> isValidMove (grid gd) (Z.to_nat r) (Z.to_nat c) (Some n) = false).
    { rewrite elem_of_conflicts. cbn [row col]. rewrite cell_set_cell_eq by done.
      assert (Hsame : isValidMove (set_cell (grid gd) (Z.to_nat r) (Z.to_nat c) (Some n))
                                  (Z.to_nat r) (Z.to_nat c) (Some n)
                      = false <-> isValidMove (grid gd) (Z.to_nat r) (Z.to_nat c) (Some n) = false).
      { rewrite !isValidMove_false by done.
        split; intros (r' & c' & Hsees & Hcell); exists r', c'; (split; [done|]);
          pose proof Hsees as (Hne & _);
          [rewrite cell_set_cell_ne in Hcell | rewrite cell_set_cell_ne]; try done;
          intros [= -> ->]; by apply Hne. }
      rewrite <- Hsame. split.
      - by intros (_ & _ & k & [= <-] & Hbad).
      - intros Hbad. split; [done|]. split; [done|]. by exists n. }
    by destruct (isCompleted _); intros [= <-].
Qed.

Lemma makeMove_accepts_conflicts_witness :
  gameData given_manager = Some given_session /\ shape9 (grid given_session) /\
  (forall value value', snd (makeMove given_manager 0 1 value 3 4)
                        = snd (makeMove given_manager 0 1 value' 3 4)) /\
  (makeMove given_manager 0 1 (Some 7) 3 4
     = (fst (makeMove given_manager 0 1 (Some 7) 3 4), Returned true) ->
   (mkPosition (Z.to_nat 0) (Z.to_nat 1) ∈
      conflicts (validateGame (fst (makeMove given_manager 0 1 (Some 7) 3 4))) <->
    isValidMove (grid given_session) (Z.to_nat 0) (Z.to_nat 1) (Some 7) = false)).
Proof.
  assert (Hshape : shape9 (grid given_session))
    by apply shape9_set_cell, shape9_createEmptyGrid.
  split; [reflexivity|]. split; [exact Hshape|].
  exact (makeMove_accepts_conflicts given_manager _ given_session 0 1 7 3 4 eq_refl Hshape).
Defined.

(** ** The givens and the move history *)

(** The grid after the moves of [history] are taken back, last move
    first. *)
Definition rewind (g : SudokuGrid) (history : list Move) : SudokuGrid :=
  fold_right (fun mv acc => set_cell acc (row (position mv)) (col (position mv))
                                     (previousValue mv)) g history.

(** What every call keeps of a session: the two grids are 9x9, the grid
    holds the givens, the recorded moves lie on cells that are not given,
    and taking all of them back leads to the puzzle. *)
Definition session_inv (gd : GameData) : Prop :=
  shape9 (grid gd) /\ shape9 (originalGrid gd) /\
  extends (originalGrid gd) (grid gd) /\
  Forall (fun mv => row (position mv) < 9 /\ col (position mv) < 9 /\
                    cell (originalGrid gd) (row (position mv)) (col (position mv)) = None)
         (moveHistory gd) /\
  rewind (grid gd) (moveHistory gd) = originalGrid gd.

(** A session as [startNewGame] creates it. *)
Definition fresh (gd : GameData) : Prop :=
  shape9 (grid gd) /\ originalGrid gd = grid gd /\ moveHistory gd = [].

Lemma fresh_session_inv gd : fresh gd -> session_inv gd.
Proof.
  intros (Hshape & Horig & Hhist). unfold session_inv. rewrite Horig, Hhist.
  split; [done|]. split; [done|]. split; [apply extends_refl|]. split; [constructor|done].
Qed.

Lemma rewind_snoc g history mv :
  rewind g (history ++ [mv]) =
  rewind (set_cell g (row (position mv)) (col (position mv)) (previousValue mv)) history.
Proof. unfold rewind. by rewrite fold_right_app. Qed.

Lemma js_nth_cell (g : SudokuGrid) (r c : Z) cells v :
  shape9 g -> js_nth g r = Some cells -> js_nth cells c = Some v ->
  Z.to_nat r < 9 /\ Z.to_nat c < 9 /\ cell g (Z.to_nat r) (Z.to_nat c) = v.
Proof.
  intros [Hlen Hrows] [_ Hr]%js_nth_Some [_ Hc]%js_nth_Some.
  assert (length cells = 9) as Hcells.
  { rewrite Forall_forall in Hrows. apply Hrows, list_elem_of_lookup. eauto. }
  apply lookup_lt_Some in Hr as Hr9, Hc as Hc9.
  split; [lia|]. split; [lia|]. unfold cell. by rewrite Hr, Hc.
Qed.

(** The session a manager holds has the given puzzle and solution and
    satisfies the invariant. *)
Definition holds_session (g0 s0 : SudokuGrid) (m : Manager) : Prop :=
  exists gd, gameData m = Some gd /\ originalGrid gd = g0 /\ solution gd = s0 /\
             session_inv gd.

Lemma holds_session_makeMove g0 s0 m r c value now doneAt :
  holds_session g0 s0 m -> holds_session g0 s0 (fst (makeMove m r c value now doneAt)).
Proof.
  intros Hm. pose proof Hm as (gd & Egd & Horig & Hsol & Hs9 & Ho9 & Hext & Hhist & Hrew).
  unfold makeMove. rewrite Egd.
  case_bool_decide as Hstate; [|done].
  destruct (js_nth (originalGrid gd) r) as [ocells|] eqn:Eorow; [|done].
  destruct (js_nth ocells c) as [[k|]|] eqn:Eocol; [done| |done].
  destruct (js_nth (grid gd) r) as [cells|] eqn:Erow; [|done].
  destruct (js_nth cells c) as [previous|] eqn:Ecol; [|done].
  destruct (js_nth_cell _ _ _ _ _ Ho9 Eorow Eocol) as (Hr & Hc & Hnone).
  destruct (js_nth_cell _ _ _ _ _ Hs9 Erow Ecol) as (_ & _ & Hprev).
  set (mv := {| position := _; previousValue := previous |}).
  assert (Hinv : session_inv (recordMove gd (Z.to_nat r) (Z.to_nat c) value mv)).
  { unfold session_inv. cbn [grid originalGrid moveHistory recordMove].
    split; [by apply shape9_set_cell|]. split; [done|]. split; [|split].
    - intros r' c' n Hcell. rewrite cell_set_cell_ne; [by apply Hext|].
      intros [= -> ->]. congruence.
    - apply Forall_app. split; [done|]. apply Forall_singleton. by cbn.
    - rewrite rewind_snoc. cbn [position previousValue row col mv].
      rewrite set_cell_set_cell, <- Hprev, set_cell_cell; done. }
  destruct (isCompleted _); cbn [fst]; eexists; (split; [reflexivity|]); done.
Qed.

Lemma holds_session_undoMove g0 s0 m :
  holds_session g0 s0 m ->
  holds_session g0 s0 (fst (undoMove m)) /\
  (canUndo m = true -> snd (undoMove m) = Returned true) /\
  forall gd history mv, gameData m = Some gd -> moveHistory gd = history ++ [mv] ->
    exists gd', gameData (fst (undoMove m)) = Some gd' /\ moveHistory gd' = history /\
      grid gd' = set_cell (grid gd) (row (position mv)) (col (position mv)) (previousValue mv).
Proof.
  intros Hm. pose proof Hm as (gd & Egd & Horig & Hsol & Hs9 & Ho9 & Hext & Hhist & Hrew).
  unfold undoMove, canUndo. rewrite Egd.
  destruct (pop (moveHistory gd)) as [[history lastMove]|] eqn:Epop.
  2:{ apply pop_None in Epop. rewrite Epop. split; [done|]. split; [done|].
      intros gd' history mv [= <-] Hh. rewrite Epop in Hh. by destruct history. }
  apply pop_Some in Epop. rewrite Epop in Hhist, Hrew.
  apply Forall_app in Hhist as [Hhist (Hr & Hc & Hnone)%Forall_singleton].
  cbn [grid dropLastMove]. pose proof Hs9 as [Hlen Hrows].
  destruct (lookup_lt_is_Some_2 (grid gd) (row (position lastMove))) as [cells Hcells]; [lia|].
  rewrite Hcells.
  assert (length cells = 9) as Hcells9.
  { rewrite Forall_forall in Hrows. apply Hrows, list_elem_of_lookup. eauto. }
  rewrite (proj2 (Nat.ltb_lt _ _)) by lia. cbn [fst snd]. split; [|split; [done|]].
  - eexists. split; [reflexivity|]. split; [done|]. split; [done|].
    unfold session_inv. cbn [grid originalGrid moveHistory restoreCell dropLastMove].
    split; [by apply shape9_set_cell|]. split; [done|]. split; [|split; [done|]].
    + intros r' c' n Hcell. rewrite cell_set_cell_ne; [by apply Hext|].
      intros [= -> ->]. congruence.
    + by rewrite rewind_snoc in Hrew.
  - intros gd' history' mv [= <-] Hh. rewrite Epop in Hh.
    apply app_inj_tail in Hh as [<- <-]. eexists. split; [reflexivity|]. done.
Qed.

Lemma holds_session_step g0 s0 m op : holds_session g0 s0 m -> holds_session g0 s0 (step m op).
Proof.
  intros Hm. destruct op as [r c value now doneAt| |now|now|k| |now]; cbn [step]; try done.
  - by apply holds_session_makeMove.
  - by apply holds_session_undoMove.
  - unfold pauseGame. by case_bool_decide.
  - unfold resumeGame. case_bool_decide; [|done]. by destruct (0 <? _)%Z.
  - destruct Hm as (gd & Egd & Hrest). unfold timerTick. rewrite Egd.
    case_bool_decide; [|by exists gd]. eexists. split; [reflexivity|]. done.
Qed.

Lemma holds_session_run g0 s0 ops m : holds_session g0 s0 m -> holds_session g0 s0 (run ops m).
Proof.
  unfold run. revert m. induction ops as [|op ops IH]; intros m Hm; [done|].
  cbn [fold_left]. by apply IH, holds_session_step.
Qed.

Lemma fresh_holds_session m gd :
  gameData m = Some gd -> fresh gd -> holds_session (originalGrid gd) (solution gd) m.
Proof. intros Egd Hfresh. exists gd. by auto using fresh_session_inv. Qed.

Lemma sample_session_fresh : fresh sample_session.
Proof. split; [apply shape9_createEmptyGrid|done]. Qed.

(** X15.  The givens stay in the grid: after any sequence of calls on a
    session as [startNewGame] creates it, every cell that the puzzle gives
    still holds its number in the current grid, and every recorded move
    lies on a cell of the board that the puzzle leaves empty. *)
Theorem givens_never_change (m : Manager) (gd : GameData) (ops : list Op) :
  gameData m = Some gd -> fresh gd ->
  exists gd',
    gameData (run ops m) = Some gd' /\
    shape9 (grid gd') /\
    (forall r c n, cell (grid gd) r c = Some n -> cell (grid gd') r c = Some n) /\
    (forall mv, mv ∈ moveHistory gd' ->
       row (position mv) < 9 /\ col (position mv) < 9 /\
       cell (grid gd) (row (position mv)) (col (position mv)) = None).
Proof.
  intros Egd Hfresh. pose proof Hfresh as (_ & Horig & _).
  destruct (holds_session_run _ _ ops m (fresh_holds_session m gd Egd Hfresh))
    as (gd' & Egd' & Horig' & _ & Hs9 & _ & Hext & Hhist & _).
  rewrite Horig' in Hext, Hhist. rewrite Horig in Hext, Hhist.
  exists gd'. split; [done|]. split; [done|]. split; [done|].
  by apply Forall_forall.
Qed.

Lemma givens_never_change_witness :
  gameData given_manager = Some given_session /\ fresh given_session /\
  exists gd',
    gameData (run [OpMakeMove 0 0 (Some 3) 5 6; OpMakeMove 0 1 (Some 3) 7 8; OpUndoMove]
                  given_manager) = Some gd' /\
    shape9 (grid gd') /\
    (forall r c n, cell (grid given_session) r c = Some n -> cell (grid gd') r c = Some n) /\
    (forall mv, mv ∈ moveHistory gd' ->
       row (position mv) < 9 /\ col (position mv) < 9 /\
       cell (grid given_session) (row (position mv)) (col (position mv)) = None).
Proof.
  assert (Hfresh : fresh given_session).
  { split; [apply shape9_set_cell, shape9_createEmptyGrid | done]. }
  split; [reflexivity|]. split; [exact Hfresh|].
  exact (givens_never_change given_manager given_session _ eq_refl Hfresh).
Defined.

(** [undoMove], [n] times. *)
Definition undoAll (n : nat) (m : Manager) : Manager :=
  Nat.iter n (fun m' => fst (undoMove m')) m.

Lemma undoAll_rewind g0 s0 n m gd :
  holds_session g0 s0 m -> gameData m = Some gd -> length (moveHistory gd) = n ->
  exists gd', gameData (undoAll n m) = Some gd' /\ moveHistory gd' = [] /\
              grid gd' = rewind (grid gd) (moveHistory gd).
Proof.
  revert m gd. induction n as [|n IH]; intros m gd Hm Egd Hlen.
  { apply nil_length_inv in Hlen. exists gd. by rewrite Hlen. }
  destruct (moveHistory gd) as [|mv0 h0] eqn:Ehist using rev_ind; [done|]. clear IHh0.
  rewrite length_app in Hlen. simpl in Hlen.
  destruct (holds_session_undoMove g0 s0 m Hm) as (Hm' & _ & Hundo).
  destruct (Hundo gd h0 mv0 Egd Ehist) as (gd1 & Egd1 & Hh1 & Hg1).
  destruct (IH (fst (undoMove m)) gd1 Hm' Egd1 ltac:(rewrite Hh1; lia))
    as (gd' & Egd' & Hh' & Hg').
  exists gd'. unfold undoAll in *. rewrite Nat.iter_succ_r. split; [done|]. split; [done|].
  by rewrite Hg', Hh1, Hg1, rewind_snoc.
Qed.

(** X16.  Undo leads back to the puzzle: after any sequence of calls on a
    session as [startNewGame] creates it, taking back as many moves as the
    history holds leaves the puzzle grid and an empty history. *)
Theorem undo_all_restores (m : Manager) (gd : GameData) (ops : list Op) :
  gameData m = Some gd -> fresh gd ->
  exists gd' gd'',
    gameData (run ops m) = Some gd' /\
    gameData (undoAll (length (moveHistory gd')) (run ops m)) = Some gd'' /\
    grid gd'' = grid gd /\ moveHistory gd'' = [] /\
    canUndo (undoAll (length (moveHistory gd')) (run ops m)) = false.
Proof.
  intros Egd Hfresh. pose proof Hfresh as (_ & Horig & _).
  pose proof (holds_session_run _ _ ops m (fresh_holds_session m gd Egd Hfresh)) as Hm'.
  pose proof Hm' as (gd' & Egd' & Horig' & _ & _ & _ & _ & _ & Hrew).
  destruct (undoAll_rewind _ _ _ _ gd' Hm' Egd' eq_refl) as (gd'' & Egd'' & Hh'' & Hg'').
  exists gd', gd''. split; [done|]. split; [done|].
  split; [by rewrite Hg'', Hrew, Horig', Horig|]. split; [done|].
  unfold canUndo. by rewrite Egd'', Hh''.
Qed.

Lemma undo_all_restores_witness :
  gameData sample_manager = Some sample_session /\ fresh sample_session /\
  exists gd' gd'',
    gameData (run [OpMakeMove 0 0 (Some 3) 5 6; OpMakeMove 4 4 (Some 3) 7 8] sample_manager)
      = Some gd' /\
    gameData (undoAll (length (moveHistory gd'))
                (run [OpMakeMove 0 0 (Some 3) 5 6; OpMakeMove 4 4 (Some 3) 7 8] sample_manager))
      = Some gd'' /\
    grid gd'' = grid sample_session /\ moveHistory gd'' = [] /\
    canUndo (undoAll (length (moveHistory gd'))
               (run [OpMakeMove 0 0 (Some 3) 5 6; OpMakeMove 4 4 (Some 3) 7 8] sample_manager))
      = false.
Proof.
  split; [reflexivity|]. split; [exact sample_session_fresh|].
  exact (undo_all_restores sample_manager sample_session _ eq_refl sample_session_fresh).
Defined.

(** X17.  [canUndo] tells whether [undoMove] will take a move back: on a
    session reached from a fresh one, [undoMove] returns [true] when
    [canUndo] is [true] and [false] when it is [false]. *)
Theorem canUndo_undoMove (m : Manager) (gd : GameData) (ops : list Op) :
  gameData m = Some gd -> fresh gd ->
  snd (undoMove (run ops m)) = Returned (canUndo (run ops m)).
Proof.
  intros Egd Hfresh.
  pose proof (holds_session_run _ _ ops m (fresh_holds_session m gd Egd Hfresh)) as Hm'.
  destruct (holds_session_undoMove _ _ _ Hm') as (_ & Htrue & _).
  destruct (canUndo (run ops m)) eqn:Ecan; [by apply Htrue|].
  apply undoMove_false. destruct Hm' as (gd' & Egd' & _). right. exists gd'. split; [done|].
  unfold canUndo in Ecan. rewrite Egd' in Ecan.
  apply negb_false_iff, Nat.eqb_eq in Ecan. by apply nil_length_inv.
Qed.

Lemma canUndo_undoMove_witness :
  gameData sample_manager = Some sample_session /\ fresh sample_session /\
  snd (undoMove (run [OpMakeMove 0 0 (Some 3) 5 6] sample_manager)) =
    Returned (canUndo (run [OpMakeMove 0 0 (Some 3) 5 6] sample_manager)).
Proof.
  split; [reflexivity|]. split; [exact sample_session_fresh|].
  exact (canUndo_undoMove sample_manager sample_session _ eq_refl sample_session_fresh).
Defined.

(** ** Hints *)

Lemma cell_js_nth (g : SudokuGrid) (r c : nat) :
  shape9 g -> r < 9 -> c < 9 ->
  exists cells, js_nth g (Z.of_nat r) = Some cells /\
                js_nth cells (Z.of_nat c) = Some (cell g r c).
Proof.
  intros Hshape Hr Hc.
  destruct (js_nth_shape9_row g (Z.of_nat r) Hshape ltac:(lia)) as (cells & Hcells & Hlen).
  exists cells. split; [done|]. apply js_nth_Some in Hcells as [_ Hcells].
  rewrite Nat2Z.id in Hcells. apply js_nth_Some. split; [lia|]. rewrite Nat2Z.id.
  unfold cell. rewrite Hcells.
  destruct (lookup_lt_is_Some_2 cells c ltac:(lia)) as [v Hv]. by rewrite Hv.
Qed.

(** X18.  A hint can be played: while the game is in play, a move at the
    position that [getHint] returns is accepted, whatever value it
    enters; the position is not a given of the puzzle. *)
Theorem hint_is_playable (rnd : nat -> Q) (m : Manager) (gd : GameData) (ops : list Op)
    (k : nat) (p : Position) :
  gameData m = Some gd -> fresh gd ->
  gameState (run ops m) = playing ->
  (GameManager.getHint rnd (run ops m) k).1 = Some p ->
  cell (grid gd) (row p) (col p) = None /\
  forall value now doneAt,
    snd (makeMove (run ops m) (Z.of_nat (row p)) (Z.of_nat (col p)) value now doneAt)
    = Returned true.
Proof.
  intros Egd Hfresh Hstate Hhint.
  destruct (holds_session_run _ _ ops m (fresh_holds_session m gd Egd Hfresh))
    as (gd' & Egd' & Horig' & _ & Hs9 & Ho9 & Hext & _ & _).
  unfold GameManager.getHint in Hhint. rewrite Egd' in Hhint.
  apply getHint_Some in Hhint as (Hr & Hc & Hnone & _).
  assert (Hgiven : cell (originalGrid gd') (row p) (col p) = None).
  { destruct (cell (originalGrid gd') (row p) (col p)) as [n|] eqn:Hcell; [|done].
    apply Hext in Hcell. congruence. }
  split.
  { destruct Hfresh as (_ & <- & _). by rewrite <- Horig'. }
  intros value now doneAt. unfold makeMove. rewrite Egd', bool_decide_eq_true_2 by done.
  destruct (cell_js_nth _ _ _ Ho9 Hr Hc) as (ocells & -> & ->). rewrite Hgiven.
  destruct (cell_js_nth _ _ _ Hs9 Hr Hc) as (cells & -> & ->).
  by destruct (isCompleted _).
Qed.

Lemma hint_is_playable_witness :
  gameData sample_manager = Some sample_session /\ fresh sample_session /\
  gameState (run [] sample_manager) = playing /\
  (GameManager.getHint zero_draws (run [] sample_manager) 0).1 = Some (mkPosition 0 0) /\
  cell (grid sample_session) 0 0 = None /\
  forall value now doneAt,
    snd (makeMove (run [] sample_manager) (Z.of_nat 0) (Z.of_nat 0) value now doneAt)
    = Returned true.
Proof.
  assert (H : (GameManager.getHint zero_draws (run [] sample_manager) 0).1
              = Some (mkPosition 0 0)) by (vm_compute; reflexivity).
  split; [reflexivity|]. split; [exact sample_session_fresh|]. split; [reflexivity|].
  split; [exact H|].
  exact (hint_is_playable zero_draws sample_manager sample_session [] 0 (mkPosition 0 0)
           eq_refl sample_session_fresh eq_refl H).
Defined.

(** ** The clock *)

(** X19.  A pause does not count: when a game in play is paused at [t1]
    and resumed at [t2], the start time moves forward by the length of the
    pause, and from then on the elapsed time is the one the game would
    have shown without the pause, [t2 - t1] milliseconds earlier. *)
Theorem pause_stops_clock (m : Manager) (t1 t2 : Z) :
  gameState m = playing -> (0 < startTime m <= t1)%Z -> (t1 <= t2)%Z ->
  startTime (resumeGame (pauseGame m t1) t2) = (startTime m + (t2 - t1))%Z /\
  pausedTime (resumeGame (pauseGame m t1) t2) = 0%Z /\
  timerInterval (pauseGame m t1) = false /\
  timerInterval (resumeGame (pauseGame m t1) t2) = true /\
  forall d, getCurrentTimeElapsed (resumeGame (pauseGame m t1) t2) (t2 + d)
            = getCurrentTimeElapsed m (t1 + d).
Proof.
  intros Hstate Hstart Hle.
  assert (Hp : pauseGame m t1 = stopTimer (setPausedTime (setGameState m paused) t1)).
  { unfold pauseGame. by rewrite bool_decide_eq_true_2. }
  rewrite Hp.
  assert (Hr : resumeGame (stopTimer (setPausedTime (setGameState m paused) t1)) t2 =
               startTimer (setPausedTime
                 (setStartTime (setGameState (stopTimer (setPausedTime (setGameState m paused) t1))
                                             playing)
                               (startTime m + (t2 - t1))%Z) 0%Z)).
  { unfold resumeGame. rewrite bool_decide_eq_true_2 by done.
    cbn [pausedTime startTime setGameState stopTimer setPausedTime].
    by rewrite (proj2 (Z.ltb_lt 0 t1)) by lia. }
  rewrite Hr. do 4 (split; [done|]). intros d. unfold getCurrentTimeElapsed.
  cbn [startTime startTimer setPausedTime setStartTime setGameState stopTimer].
  rewrite (proj2 (Z.eqb_neq (startTime m + (t2 - t1)) 0)) by lia.
  rewrite (proj2 (Z.eqb_neq (startTime m) 0)) by lia.
  f_equal. lia.
Qed.

Lemma pause_stops_clock_witness :
  gameState sample_manager = playing /\ (0 < startTime sample_manager <= 5000)%Z /\
  (5000 <= 65000)%Z /\
  startTime (resumeGame (pauseGame sample_manager 5000) 65000) = (1 + (65000 - 5000))%Z /\
  getCurrentTimeElapsed (resumeGame (pauseGame sample_manager 5000) 65000) (65000 + 2000)
  = getCurrentTimeElapsed sample_manager (5000 + 2000).
Proof.
  split; [reflexivity|]. split; [cbn; lia|]. split; [lia|].
  destruct (pause_stops_clock sample_manager 5000 65000 eq_refl ltac:(cbn; lia) ltac:(lia))
    as (H1 & _ & _ & _ & H5).
  split; [exact H1 | exact (H5 2000%Z)].
Defined.

(** ** Without a session *)

Lemma no_session_step m op :
  gameData m = None -> gameState m = menu -> step m op = m.
Proof.
  intros Egd Hstate. destruct op as [r c value now doneAt| |now|now|k| |now]; cbn [step]; try done.
  - unfold makeMove. by rewrite Egd.
  - unfold undoMove. by rewrite Egd.
  - unfold pauseGame. by rewrite bool_decide_eq_false_2 by congruence.
  - unfold resumeGame. by rewrite bool_decide_eq_false_2 by congruence.
  - unfold timerTick. by rewrite Egd.
Qed.

Lemma no_session_run ops m :
  gameData m = None -> gameState m = menu -> run ops m = m.
Proof.
  intros Egd Hstate. unfold run. induction ops as [|op ops IH]; [done|].
  cbn [fold_left]. by rewrite no_session_step.
Qed.

(** X20.  Without a session nothing happens: on a new manager and after
    [dispose], every sequence of calls leaves the manager as it is, moves
    and undos are refused, there is no hint, and the validation reports
    neither validity nor completion. *)
Theorem no_session_is_inert (m : Manager) (ops : list Op) :
  run ops initial = initial /\ run ops (dispose m) = dispose m /\
  (forall r c value now doneAt,
     makeMove (dispose m) r c value now doneAt = (dispose m, Returned false)) /\
  undoMove (dispose m) = (dispose m, Returned false) /\ canUndo (dispose m) = false /\
  (forall rnd k, GameManager.getHint rnd (dispose m) k = (None, k)) /\
  validateGame (dispose m) = {| isValid := false; conflicts := []; isCompleted := false |}.
Proof.
  split; [by apply no_session_run|]. split; [by apply no_session_run|]. done.
Qed.

(** ** Digits *)

Definition digit_value (v : CellValue) : Prop := forall n, v = Some n -> 1 <= n <= 9.

(** A call that enters a number enters one from 1 to 9. *)
Definition digit_op (op : Op) : Prop :=
  match op with
  | OpMakeMove _ _ value _ _ => digit_value value
  | _ => True
  end.

Definition digits_inv (m : Manager) : Prop :=
  forall gd, gameData m = Some gd ->
    digits_ok (grid gd) /\ Forall (fun mv => digit_value (previousValue mv)) (moveHistory gd).

Lemma digits_ok_write g r c v :
  shape9 g -> r < 9 -> c < 9 -> digits_ok g -> digit_value v -> digits_ok (set_cell g r c v).
Proof.
  intros Hshape Hr Hc Hdig Hv r' c' n. rewrite cell_set_cell by done.
  case_decide; [apply Hv | apply Hdig].
Qed.

Lemma digits_inv_makeMove g0 s0 m r c value now doneAt :
  holds_session g0 s0 m -> digits_inv m -> digit_value value ->
  digits_inv (fst (makeMove m r c value now doneAt)).
Proof.
  intros (gd & Egd & _ & _ & Hs9 & Ho9 & _) Hinv Hvalue.
  destruct (Hinv gd Egd) as [Hdig Hprevs]. unfold makeMove. rewrite Egd.
  case_bool_decide as Hstate; [|done].
  destruct (js_nth (originalGrid gd) r) as [ocells|] eqn:Eorow; [|done].
  destruct (js_nth ocells c) as [[k|]|] eqn:Eocol; [done| |done].
  destruct (js_nth (grid gd) r) as [cells|] eqn:Erow; [|done].
  destruct (js_nth cells c) as [previous|] eqn:Ecol; [|done].
  destruct (js_nth_cell _ _ _ _ _ Hs9 Erow Ecol) as (Hr & Hc & Hprev).
  assert (Hnew : digits_ok (set_cell (grid gd) (Z.to_nat r) (Z.to_nat c) value))
    by (by apply digits_ok_write).
  assert (Hold : digit_value previous).
  { intros n ->. by apply (Hdig _ _ _ Hprev). }
  destruct (isCompleted _); cbn [fst]; intros gd' [= <-]; cbn;
    (split; [done|]); apply Forall_app; (split; [done|]); by apply Forall_singleton.
Qed.

Lemma digits_inv_undoMove g0 s0 m :
  holds_session g0 s0 m -> digits_inv m -> digits_inv (fst (undoMove m)).
Proof.
  intros (gd & Egd & _ & _ & Hs9 & _ & _ & Hhist & _) Hinv.
  destruct (Hinv gd Egd) as [Hdig Hprevs]. unfold undoMove. rewrite Egd.
  destruct (pop (moveHistory gd)) as [[history lastMove]|] eqn:Epop; [|done].
  apply pop_Some in Epop. rewrite Epop in Hhist, Hprevs.
  apply Forall_app in Hhist as [_ (Hr & Hc & _)%Forall_singleton].
  apply Forall_app in Hprevs as [Hprevs Hlast].
  pose proof (proj1 (Forall_singleton _ _) Hlast) as Hlast'.
  cbn [grid dropLastMove].
  destruct (_ !! _); [destruct (_ <? _)|]; cbn [fst]; intros gd' [= <-];
    cbn [gameData setGameData grid moveHistory restoreCell dropLastMove];
    (split; [|done]); try done.
  apply digits_ok_write; [exact Hs9 | exact Hr | exact Hc | exact Hdig | exact Hlast'].
Qed.

Lemma digits_inv_step g0 s0 m op :
  holds_session g0 s0 m -> digits_inv m -> digit_op op -> digits_inv (step m op).
Proof.
  intros Hm Hinv Hop. destruct op as [r c value now doneAt| |now|now|k| |now]; cbn [step];
    try done.
  - by eapply digits_inv_makeMove.
  - by eapply digits_inv_undoMove.
  - unfold pauseGame. by case_bool_decide.
  - unfold resumeGame. case_bool_decide; [|done]. by destruct (0 <? _)%Z.
  - unfold timerTick. destruct (gameData m) as [gd|] eqn:Egd; [|done].
    case_bool_decide; [|done]. intros gd' [= <-]. cbn. by apply Hinv.
Qed.

Lemma digits_inv_run g0 s0 ops m :
  holds_session g0 s0 m -> digits_inv m -> Forall digit_op ops -> digits_inv (run ops m).
Proof.
  unfold run. revert m. induction ops as [|op ops IH]; intros m Hm Hinv Hops; [done|].
  apply Forall_cons in Hops as [Hop Hops]. cbn [fold_left].
  apply IH; [by apply holds_session_step | by eapply digits_inv_step | done].
Qed.

Lemma makeMove_completed m m1 r c value now doneAt :
  makeMove m r c value now doneAt = (m1, Returned true) ->
  exists gd1, gameData m1 = Some gd1 /\
              (gameState m1 = completed <-> full (grid gd1) /\ conflict_free (grid gd1)).
Proof.
  unfold makeMove. destruct (gameData m) as [gd|] eqn:Egd; [|done].
  case_bool_decide as Hstate; [|done].
  destruct (js_nth (originalGrid gd) r) as [ocells|]; [|done].
  destruct (js_nth ocells c) as [[k|]|]; [done| |done].
  destruct (js_nth (grid gd) r) as [cells|]; [|done].
  destruct (js_nth cells c) as [previous|]; [|done].
  destruct (isCompleted _) eqn:Edone; unfold validateGame in Edone;
    cbn [gameData setGameData] in Edone; intros [= <-].
  - apply validateGrid_completed in Edone. eexists. split; [reflexivity|]. done.
  - apply not_true_iff_false in Edone. rewrite validateGrid_completed in Edone.
    eexists. split; [reflexivity|]. cbn. rewrite Hstate. split; [done|].
    intros ?. by destruct Edone.
Qed.

(** X21.  The game ends at the solution and nowhere else: in a session
    started on a puzzle whose only completion is the stored solution, and
    in which every number entered is one from 1 to 9, an accepted move
    takes the game to [completed] exactly when the grid it leaves is the
    stored solution. *)
Theorem completes_at_solution (m m1 : Manager) (gd : GameData) (ops : list Op)
    (r c : Z) (value : CellValue) (now doneAt : Z) :
  gameData m = Some gd -> fresh gd -> unique_completion (grid gd) (solution gd) ->
  Forall digit_op ops -> digit_value value ->
  makeMove (run ops m) r c value now doneAt = (m1, Returned true) ->
  exists gd1, gameData m1 = Some gd1 /\
              (gameState m1 = completed <-> grid gd1 = solution gd).
Proof.
  intros Egd Hfresh Huniq Hops Hvalue Hmove.
  pose proof Hfresh as (Hshape & Horig & _).
  pose proof (holds_session_run _ _ ops m (fresh_holds_session m gd Egd Hfresh)) as Hm'.
  assert (Hd0 : digits_inv m).
  { intros gd0 Egd0. rewrite Egd in Egd0. injection Egd0 as <-.
    destruct (completion_wf _ _ Hshape (proj1 Huniq)) as [[_ Hdig] _].
    destruct Hfresh as (_ & _ & ->). done. }
  pose proof (digits_inv_run _ _ ops m (fresh_holds_session m gd Egd Hfresh) Hd0 Hops) as Hd'.
  pose proof (holds_session_makeMove _ _ _ r c value now doneAt Hm') as Hm1.
  pose proof (digits_inv_makeMove _ _ _ r c value now doneAt Hm' Hd' Hvalue) as Hd1.
  rewrite Hmove in Hm1, Hd1. cbn [fst] in Hm1, Hd1.
  destruct (makeMove_completed _ _ _ _ _ _ _ Hmove) as (gd1 & Egd1 & Hiff).
  destruct Hm1 as (gd1' & Egd1' & Horig1 & _ & Hs9 & _ & Hext & _).
  rewrite Egd1 in Egd1'. injection Egd1' as <-.
  destruct (Hd1 gd1 Egd1) as [Hdig1 _].
  exists gd1. split; [done|]. rewrite Hiff. split.
  - intros [Hfull Hfree]. apply (proj2 Huniq). split; [done|].
    by rewrite <- Horig, <- Horig1.
  - intros Heq. destruct Huniq as [[(_ & Hfull & Hfree) _] _]. by rewrite Heq.
Qed.

(** A solved board, and a session in play on it with the first cell
    left to fill. *)
Definition pattern_solution : SudokuGrid :=
  map (fun r => map (fun c => Some ((3 * (r mod 3) + r / 3 + c) mod 9 + 1)) (seq 0 9))
      (seq 0 9).

Lemma is_solution_pattern_solution : is_solution pattern_solution.
Proof.
  assert (Hshape : shape9 pattern_solution) by (split; [reflexivity | repeat constructor]).
  assert (Hdone : isCompleted (validateGrid pattern_solution) = true)
    by (vm_compute; reflexivity).
  apply validateGrid_completed in Hdone as [Hfull Hfree].
  split; [split; [done|]|done].
  intros r c n Hcell. destruct (cell_Some_inside _ _ _ _ Hshape Hcell) as [Hr Hc].
  revert Hcell.
  do 9 (destruct r as [|r];
        [do 9 (destruct c as [|c]; [intros [= <-]; lia|]); lia|]); lia.
Qed.

Definition last_cell_session : GameData :=
  {| id := (0%Z, 0%Q); grid := set_cell pattern_solution 0 0 None;
     solution := pattern_solution; originalGrid := set_cell pattern_solution 0 0 None;
     difficulty := easy; timeElapsed := 0%Z; moveHistory := []; gameCompleted := false;
     createdAt := 0%Z |}.

Definition last_cell_manager : Manager :=
  {| gameData := Some last_cell_session; gameState := playing; startTime := 1%Z;
     pausedTime := 0%Z; timerInterval := true |}.

Lemma last_cell_session_fresh : fresh last_cell_session.
Proof.
  split; [|done]. apply shape9_set_cell. by destruct is_solution_pattern_solution as [[? _] _].
Qed.

Lemma completes_at_solution_witness :
  gameData last_cell_manager = Some last_cell_session /\ fresh last_cell_session /\
  unique_completion (grid last_cell_session) (solution last_cell_session) /\
  Forall digit_op [OpMakeMove 0 0 (Some 2) 5 6; OpUndoMove] /\ digit_value (Some 1) /\
  makeMove (run [OpMakeMove 0 0 (Some 2) 5 6; OpUndoMove] last_cell_manager) 0 0 (Some 1) 7 8
    = (fst (makeMove (run [OpMakeMove 0 0 (Some 2) 5 6; OpUndoMove] last_cell_manager)
                     0 0 (Some 1) 7 8), Returned true) /\
  exists gd1,
    gameData (fst (makeMove (run [OpMakeMove 0 0 (Some 2) 5 6; OpUndoMove] last_cell_manager)
                            0 0 (Some 1) 7 8)) = Some gd1 /\
    (gameState (fst (makeMove (run [OpMakeMove 0 0 (Some 2) 5 6; OpUndoMove] last_cell_manager)
                              0 0 (Some 1) 7 8)) = completed <->
     grid gd1 = solution last_cell_session).
Proof.
  assert (Huniq : unique_completion (grid last_cell_session) (solution last_cell_session)).
  { apply (unique_completion_clear pattern_solution 0 0 is_solution_pattern_solution); lia. }
  assert (Hops : Forall digit_op [OpMakeMove 0 0 (Some 2) 5 6; OpUndoMove]).
  { apply Forall_cons. split; [intros n [= <-]; lia|].
    apply Forall_cons. split; [exact I | constructor]. }
  assert (Hvalue : digit_value (Some 1)) by (intros n [= <-]; lia).
  assert (Hmove :
    makeMove (run [OpMakeMove 0 0 (Some 2) 5 6; OpUndoMove] last_cell_manager) 0 0 (Some 1) 7 8
    = (fst (makeMove (run [OpMakeMove 0 0 (Some 2) 5 6; OpUndoMove] last_cell_manager)
                     0 0 (Some 1) 7 8), Returned true)) by (vm_compute; reflexivity).
  split; [reflexivity|]. split; [exact last_cell_session_fresh|]. split; [exact Huniq|].
  split; [exact Hops|]. split; [exact Hvalue|]. split; [exact Hmove|].
  exact (completes_at_solution last_cell_manager _ last_cell_session _ 0 0 (Some 1) 7 8
           eq_refl last_cell_session_fresh Huniq Hops Hvalue Hmove).
Defined.

(** ** startNewGame *)

Lemma validateGrid_open g :
  conflict_free g -> ~ full g ->
  validateGrid g = {| isValid := true; conflicts := []; isCompleted := false |}.
Proof.
  intros Hfree Hopen. unfold validateGrid. rewrite validate_fold. cbn [fst snd app].
  assert (Hnil : filter (in_conflict g) getAllPositions = []).
  { destruct (filter (in_conflict g) getAllPositions) as [|p l] eqn:E; [done|exfalso].
    assert (Hin : p ∈ filter (in_conflict g) getAllPositions) by (rewrite E; left).
    apply list_elem_of_filter in Hin as [(n & Hcell & Hbad) [Hr Hc]%elem_of_getAllPositions].
    by rewrite (Hfree _ _ _ Hr Hc Hcell) in Hbad. }
  rewrite Hnil. cbn [length Nat.eqb andb]. f_equal.
  apply Nat.eqb_neq. intros Heq. apply Hopen.
  change (GRID_SIZE * GRID_SIZE) with (length getAllPositions) in Heq.
  rewrite Nat.add_0_l in Heq. apply length_filter_all in Heq. rewrite Forall_forall in Heq.
  intros r c Hr Hc. apply (Heq (mkPosition r c)). by apply elem_of_getAllPositions.
Qed.

Section Random.

Variable rnd : nat -> Q.

(** [Math.random()] returns a number in the range 0 to less than 1. *)
Hypothesis rnd_range : forall n, (0 <= rnd n)%Q /\ (rnd n < 1)%Q.

(** X22.  [startNewGame] always succeeds, after 105 draws, and leaves a
    game in play with the timer set: the grid and the given grid are the
    generated puzzle, whose only completion is the stored solution, the
    history is empty and nothing can be undone, the clock starts at the
    time of the call, and the validation reports a valid grid that is not
    completed. *)
Theorem startNewGame_spec (m : Manager) (k : nat) (level : Difficulty)
    (idAt createdAt' startAt : Z) :
  exists m' gd,
    startNewGame rnd m k level idAt createdAt' startAt = Some (m', k + 105) /\
    gameData m' = Some gd /\ gameState m' = playing /\ timerInterval m' = true /\
    startTime m' = startAt /\ pausedTime m' = 0%Z /\
    fresh gd /\ difficulty gd = level /\ timeElapsed gd = 0%Z /\ gameCompleted gd = false /\
    unique_completion (grid gd) (solution gd) /\
    1 <= empties (grid gd) <= getCellsToRemove level /\
    canUndo m' = false /\
    validateGame m' = {| isValid := true; conflicts := []; isCompleted := false |}.
Proof.
  destruct (generatePuzzle_result rnd rnd_range k level)
    as (puzzle & solved & Hgen & Hsol & Hshape & Huniq & Hempties).
  unfold startNewGame. rewrite Hgen, cloneGrid_id.
  eexists _, _. split; [do 3 f_equal; lia|]. split; [reflexivity|].
  do 4 (split; [reflexivity|]).
  split; [split; [exact Hshape | split; reflexivity]|].
  do 3 (split; [reflexivity|]).
  split; [exact Huniq|]. split; [exact Hempties|]. split; [reflexivity|].
  unfold validateGame. cbn [gameData startTimer setGameState grid]. apply validateGrid_open.
  - by destruct (completion_wf puzzle solved Hshape (proj1 Huniq)).
  - intros Hfull. rewrite (empties_full puzzle Hfull) in Hempties. lia.
Qed.

End Random.

Lemma startNewGame_spec_witness :
  (forall n, (0 <= zero_draws n)%Q /\ (zero_draws n < 1)%Q) /\
  exists m' gd,
    startNewGame zero_draws initial 0 medium 11 12 13 = Some (m', 0 + 105) /\
    gameData m' = Some gd /\ gameState m' = playing /\ timerInterval m' = true /\
    startTime m' = 13%Z /\ pausedTime m' = 0%Z /\
    fresh gd /\ difficulty gd = medium /\ timeElapsed gd = 0%Z /\ gameCompleted gd = false /\
    unique_completion (grid gd) (solution gd) /\
    1 <= empties (grid gd) <= getCellsToRemove medium /\
    canUndo m' = false /\
    validateGame m' = {| isValid := true; conflicts := []; isCompleted := false |}.
Proof.
  split; [exact zero_draws_range|].
  apply (startNewGame_spec zero_draws zero_draws_range initial 0 medium 11 12 13).
Defined.

End SessionLaws.

(** * Properties of the ad frequency control *)

Module AdLaws.

Import AdManager.

(** X23.  An interstitial ad is shown exactly when more than three
    minutes have passed since the last one, at least three games have
    been completed since, the ad is loaded and showing it succeeds.  The
    counters are reset only then; when no ad is shown they stay as they
    are, so the ad is tried again at the next completed game. *)
Theorem showInterstitialWithFrequencyControl_spec (f : AdFrequencyManager)
    (ad : option InterstitialAd) (ok : bool) (now later : Z) :
  ((showInterstitialWithFrequencyControl f ad ok now later).2 = true <->
     (now - lastInterstitialShown f > 180000)%Z /\ 3 <= gamesPlayedSinceLastAd f /\
     ad = Some {| loaded := true |} /\ ok = true) /\
  ((showInterstitialWithFrequencyControl f ad ok now later).2 = true ->
     (showInterstitialWithFrequencyControl f ad ok now later).1 =
     {| lastInterstitialShown := later; gamesPlayedSinceLastAd := 0 |}) /\
  ((showInterstitialWithFrequencyControl f ad ok now later).2 = false ->
     (showInterstitialWithFrequencyControl f ad ok now later).1 = f).
Proof.
  unfold showInterstitialWithFrequencyControl, shouldShowInterstitialAd,
    isInterstitialAdReady, showInterstitialAd, MIN_TIME_BETWEEN_ADS, GAMES_BETWEEN_ADS.
  destruct (Z.ltb_spec 180000 (now - lastInterstitialShown f)) as [Ht|Ht];
    destruct (Nat.leb_spec 3 (gamesPlayedSinceLastAd f)) as [Hg|Hg];
    destruct ad as [[[]]|], ok; cbn; repeat split; try done; try lia;
    try (intros (? & ? & ? & ?); (done || lia)).
Qed.

Lemma handleGameComplete_cases f e :
  (handleGameComplete f e).2 = true /\
    (checkedAt e - lastInterstitialShown f > 180000)%Z /\ 2 <= gamesPlayedSinceLastAd f /\
    (handleGameComplete f e).1 =
      {| lastInterstitialShown := shownAt e; gamesPlayedSinceLastAd := 0 |}
  \/
  (handleGameComplete f e).2 = false /\ (handleGameComplete f e).1 = onGameCompleted f.
Proof.
  unfold handleGameComplete, showInterstitialWithFrequencyControl, shouldShowInterstitialAd,
    isInterstitialAdReady, showInterstitialAd, MIN_TIME_BETWEEN_ADS, GAMES_BETWEEN_ADS.
  cbn [lastInterstitialShown gamesPlayedSinceLastAd onGameCompleted].
  destruct (Z.ltb_spec 180000 (checkedAt e - lastInterstitialShown f)) as [Ht|Ht];
    destruct (Nat.leb_spec 3 (S (gamesPlayedSinceLastAd f))) as [Hg|Hg];
    destruct (interstitialAd e) as [[[]]|], (showOk e); cbn;
    first [by right | left; repeat split; lia].
Qed.

(** X24.  At most one ad in three games: over any sequence of completed
    games, three times the number of ads shown, plus the games counted
    since the last ad, is at most the games counted before plus the games
    completed.  From a new frequency manager the number of ads is
    therefore at most a third of the number of games. *)
Theorem ads_at_most_every_third_game (f : AdFrequencyManager) (es : list Completion) :
  3 * length (completions f es).2 + gamesPlayedSinceLastAd (completions f es).1
  <= gamesPlayedSinceLastAd f + length es /\
  3 * length (completions adFrequencyManager es).2 <= length es.
Proof.
  assert (H : forall f,
            3 * length (completions f es).2 + gamesPlayedSinceLastAd (completions f es).1
            <= gamesPlayedSinceLastAd f + length es).
  { clear f. induction es as [|e es IH]; intros f; cbn [completions]; [simpl; lia|].
    destruct (handleGameComplete_cases f e) as [(Hb & _ & Hg & Hf)|(Hb & Hf)];
      destruct (handleGameComplete f e) as [f1 b]; cbn [fst snd] in Hb, Hf; subst f1 b;
      match goal with
      | |- context [completions ?g es] =>
        specialize (IH g); destruct (completions g es) as [f2 ads]
      end;
      cbn [fst snd length gamesPlayedSinceLastAd onGameCompleted] in *; lia. }
  split; [apply H|]. specialize (H adFrequencyManager). simpl in H. lia.
Qed.

(** The ads of a sequence are more than three minutes apart: each is
    checked more than [MIN_TIME_BETWEEN_ADS] after the time recorded for
    the one before. *)
Fixpoint spaced (last : Z) (ads : list Completion) : Prop :=
  match ads with
  | [] => True
  | e :: ads' => (checkedAt e - last > MIN_TIME_BETWEEN_ADS)%Z /\ spaced (shownAt e) ads'
  end.

(** X25.  Ads are more than three minutes apart: over any sequence of
    completed games, each ad is shown at a completion whose clock reading
    is more than 180000 ms after the time recorded when the previous ad
    was shown (for the first one, after the time the state records). *)
Theorem ads_three_minutes_apart (f : AdFrequencyManager) (es : list Completion) :
  spaced (lastInterstitialShown f) (completions f es).2 /\
  sublist (completions f es).2 es.
Proof.
  revert f. induction es as [|e es IH]; intros f; cbn [completions]; [done|].
  destruct (handleGameComplete_cases f e) as [(Hb & Ht & _ & Hf)|(Hb & Hf)];
    destruct (handleGameComplete f e) as [f1 b]; cbn [fst snd] in Hb, Hf; subst f1 b;
    match goal with
    | |- context [completions ?g es] =>
      destruct (IH g) as [Hs Hsub]; destruct (completions g es) as [f2 ads]
    end;
    cbn [fst snd spaced lastInterstitialShown onGameCompleted] in *.
  - split; [split; [unfold MIN_TIME_BETWEEN_ADS; lia | done] | by apply sublist_skip].
  - split; [done | by apply sublist_cons].
Qed.

End AdLaws.
